(** * dynamic-docx-generator: the text-substitution core, embedded and verified

    The TypeScript sources treat OOXML markup as flat text.  This development
    embeds the string utilities ([utils/string.ts]), the registry helpers
    ([utils/xml.ts]), the markup templates ([utils/constants.ts]), the image
    preparation ([utils/image.ts]) and the placeholder, image and registry
    passes of [DocxGenerator], and states the properties of the specification
    and of the code over those definitions.

    A JavaScript string is modelled as a [string]: one [ascii] per code unit,
    for the code units below 256.  Every character the sources treat specially
    is in that range. *)

From Stdlib Require Import List Bool Arith Lia ZArith FinFun.
From Stdlib Require Import Ascii String.
From Stdlib Require Import Decimal DecimalNat DecimalString DecimalZ.
Import ListNotations.
Open Scope string_scope.

(* ================================================================== *)
(** ** JavaScript string primitives *)
(* ================================================================== *)

Module Js.

(** The double quote, which the literals below never spell out. *)
Definition dquote : ascii := "034"%char.

(** Markup literals are written with an apostrophe wherever the source has a
    double quote; [q] puts the double quotes back.  No template of the sources
    contains an apostrophe. *)
Fixpoint q (s : string) : string :=
  match s with
  | "" => ""
  | String c s' => String (if (c =? "'")%char then dquote else c) (q s')
  end.

(** [String.prototype.startsWith]: [p] is a prefix of [s]. *)
Fixpoint startsWith (p s : string) : bool :=
  match p, s with
  | "", _ => true
  | String _ _, "" => false
  | String a p', String b s' => (a =? b)%char && startsWith p' s'
  end.

(** [String.prototype.includes]: [p] occurs somewhere in [s]. *)
Fixpoint includes (p s : string) : bool :=
  startsWith p s ||
  match s with
  | "" => false
  | String _ s' => includes p s'
  end.

(** Number of positions of [s] at which [p] occurs. *)
Fixpoint occurrences (p s : string) : nat :=
  (if startsWith p s then 1 else 0) +
  match s with
  | "" => 0
  | String _ s' => occurrences p s'
  end.

(** [c] is one of the characters of [s]. *)
Fixpoint hasChar (c : ascii) (s : string) : bool :=
  match s with
  | "" => false
  | String d s' => (c =? d)%char || hasChar c s'
  end.

(** [s.slice(n)]: [s] without its first [n] characters. *)
Fixpoint drop (n : nat) (s : string) : string :=
  match n, s with
  | O, _ => s
  | S _, "" => ""
  | S k, String _ s' => drop k s'
  end.

(** [s.slice(0, n)]. *)
Fixpoint take (n : nat) (s : string) : string :=
  match n, s with
  | O, _ => ""
  | S _, "" => ""
  | S k, String c s' => String c (take k s')
  end.

(** [GetSubstitution] of ECMAScript for a pattern without capture groups:
    in the replacement text, [$$] stands for a dollar, [$&] for the matched
    text, [$`] for the text before the match and [$'] for the text after it.
    A dollar followed by anything else (a digit included, as there is no
    group to refer to) is copied. *)
Fixpoint getSubstitution (matched before after template : string) : string :=
  match template with
  | "" => ""
  | String c t =>
      if (c =? "$")%char then
        match t with
        | "" => String c ""
        | String d t' =>
            if (d =? "$")%char then
              String "$" (getSubstitution matched before after t')
            else if (d =? "&")%char then
              matched ++ getSubstitution matched before after t'
            else if (d =? "`")%char then
              before ++ getSubstitution matched before after t'
            else if (d =? "'")%char then
              after ++ getSubstitution matched before after t'
            else String c (getSubstitution matched before after t)
        end
      else String c (getSubstitution matched before after t)
  end.

(** [str.replace(regex, replacement)] for a regular expression with the [g]
    flag and no capture group.  [matcher t] is the length of the match that
    starts at the head of the remaining text [t], if there is one.  The scan
    goes left to right; [before] is the text already passed, [skip] counts the
    characters of the current match still to be stepped over.  After an empty
    match the scan copies one character and goes on, as [lastIndex] is
    advanced by one. *)
Section Replace.
Variable matcher : string -> option nat.
Variable replacement : string.

Definition substituted (before s : string) (n : nat) : string :=
  getSubstitution (take n s) before (drop n s) replacement.

Fixpoint replaceFrom (before : string) (skip : nat) (s : string) {struct s} : string :=
  match skip with
  | S k =>
      match s with
      | "" => ""
      | String c s' => replaceFrom (before ++ String c "") k s'
      end
  | O =>
      match matcher s with
      | Some n =>
          substituted before s n ++
          match s with
          | "" => ""
          | String c s' =>
              match n with
              | O => String c (replaceFrom (before ++ String c "") 0 s')
              | S k => replaceFrom (before ++ String c "") k s'
              end
          end
      | None =>
          match s with
          | "" => ""
          | String c s' => String c (replaceFrom (before ++ String c "") 0 s')
          end
      end
  end.

Definition replaceGlobal (s : string) : string := replaceFrom "" 0 s.

End Replace.

(** The matcher of a regular expression that is one literal text: what
    [new RegExp(escapeRegExp(search), 'g')] and [/&/g] denote. *)
Definition literal (search : string) (t : string) : option nat :=
  if startsWith search t then Some (String.length search) else None.

(** [str.replace(search, replacement)] with a string pattern: the first
    occurrence only. *)
Fixpoint replaceFirstFrom (search replacement before s : string) : string :=
  if startsWith search s then
    getSubstitution search before (drop (String.length search) s) replacement
    ++ drop (String.length search) s
  else
    match s with
    | "" => ""
    | String c s' =>
        String c (replaceFirstFrom search replacement (before ++ String c "") s')
    end.

Definition replaceFirst (search replacement s : string) : string :=
  replaceFirstFrom search replacement "" s.

(** [Array.prototype.join('')] over strings. *)
Definition join (l : list string) : string := String.concat "" l.

(** Template interpolation of an integer: its decimal digits, with a minus
    sign when negative. *)
Definition ofZ (z : Z) : string := NilEmpty.string_of_int (Z.to_int z).

Definition ofNat (n : nat) : string := NilEmpty.string_of_uint (Nat.to_uint n).

(** [Array.prototype.includes] on strings. *)
Fixpoint arrayIncludes (l : list string) (x : string) : bool :=
  match l with
  | [] => false
  | y :: l' => (x =? y) || arrayIncludes l' x
  end.

(** The elements of [new Set(l)] in iteration order: each value once, at the
    place of its first occurrence. *)
Fixpoint setOf (seen l : list string) : list string :=
  match l with
  | [] => []
  | x :: l' =>
      if arrayIncludes seen x then setOf seen l'
      else x :: setOf (x :: seen) l'
  end.

(** Values of any type, for the functions that test [typeof] at run time. *)
Inductive value : Type :=
  | VUndefined
  | VNull
  | VBoolean (b : bool)
  | VNumber (n : Z)
  | VString (s : string)
  | VObject (ref : nat).

(** [!v] for a value. *)
Definition falsy (v : value) : bool :=
  match v with
  | VUndefined | VNull => true
  | VBoolean b => negb b
  | VNumber n => (n =? 0)%Z
  | VString s => (s =? "")
  | VObject _ => false
  end.

Definition isString (v : value) : bool :=
  match v with
  | VString _ => true
  | _ => false
  end.

(** [s.indexOf(p)] scanned over a text whose head is at index [i]: the index
    of the first occurrence, [None] where JavaScript answers [-1]. *)
Fixpoint indexOfAt (p s : string) (i : nat) : option nat :=
  if startsWith p s then Some i
  else
    match s with
    | "" => None
    | String _ s' => indexOfAt p s' (S i)
    end.

Definition indexOf (p s : string) : option nat := indexOfAt p s 0.

(** [s.indexOf(p, position)]; a position past the end counts as the end. *)
Definition indexOfFrom (p s : string) (position : nat) : option nat :=
  let start := Nat.min position (String.length s) in
  indexOfAt p (drop start s) start.

(** [s.charAt(i)]: the empty text when [i] is out of range. *)
Definition charAt (s : string) (i : nat) : string := take 1 (drop i s).

(** [s.match(regex)] for a regular expression with the [g] flag: the matched
    texts from left to right, the empty list for [null].  The scan is the one
    of [replaceFrom]. *)
Section MatchAll.
Variable matcher : string -> option nat.

Fixpoint matchAllFrom (skip : nat) (s : string) {struct s} : list string :=
  match skip with
  | S k =>
      match s with
      | "" => []
      | String _ s' => matchAllFrom k s'
      end
  | O =>
      match matcher s with
      | Some n =>
          take n s ::
          match s with
          | "" => []
          | String _ s' =>
              match n with
              | O => matchAllFrom 0 s'
              | S k => matchAllFrom k s'
              end
          end
      | None =>
          match s with
          | "" => []
          | String _ s' => matchAllFrom 0 s'
          end
      end
  end.

Definition matchAll (s : string) : list string := matchAllFrom 0 s.

End MatchAll.

End Js.

(* ================================================================== *)
(** ** Regular expressions of the split-run pass *)
(* ================================================================== *)

Module RegExp.

(** The fragment of the pattern language that [replacePlaceholder] builds:
    single characters and starred character classes, matched with the [i]
    flag.  A star is greedy and gives characters back one at a time when the
    rest of the pattern fails, as the backtracking matcher of ECMAScript. *)
Inductive item : Type :=
  | Chr (c : ascii)
  | Star (cls : ascii -> bool).

Definition between (lo hi n : nat) : bool := ((lo <=? n) && (n <=? hi))%nat.

Definition isLetter (c : ascii) : bool :=
  let n := nat_of_ascii c in between 65 90 n || between 97 122 n.

(** [Canonicalize] under the [i] flag without the [u] flag: the upper-case
    form when that is one code unit and does not turn a code unit above 127
    into one below 128.  In the range modelled the lower-case letters [a-z]
    and the Latin-1 lower-case letters move down by 32. *)
Definition canonicalize (c : ascii) : ascii :=
  let n := nat_of_ascii c in
  if between 97 122 n || (between 224 254 n && negb (n =? 247)%nat)
  then ascii_of_nat (n - 32) else c.

Definition sameLetter (a b : ascii) : bool :=
  (canonicalize a =? canonicalize b)%char.

(** The classes [[^>]], [\s] and [[^a-zA-Z]]. *)
Definition notGt (c : ascii) : bool := negb (c =? ">")%char.

Definition isSpace (c : ascii) : bool :=
  let n := nat_of_ascii c in between 9 13 n || (n =? 32)%nat || (n =? 160)%nat.

Definition notLetter (c : ascii) : bool := negb (isLetter c).

Fixpoint matchStar (cls : ascii -> bool) (k : string -> option nat)
  (s : string) : option nat :=
  match s with
  | "" => k s
  | String c s' =>
      if cls c then
        match matchStar cls k s' with
        | Some n => Some (S n)
        | None => k s
        end
      else k s
  end.

(** Length of the first match, in backtracking order, of the items at the
    head of the text. *)
Fixpoint matchItems (items : list item) : string -> option nat :=
  match items with
  | [] => fun _ => Some 0
  | Chr c :: rest =>
      fun s =>
        match s with
        | "" => None
        | String d s' =>
            if sameLetter c d then option_map S (matchItems rest s') else None
        end
  | Star cls :: rest => matchStar cls (matchItems rest)
  end.

Fixpoint chars (s : string) : list item :=
  match s with
  | "" => []
  | String c s' => Chr c :: chars s'
  end.

End RegExp.

(* ================================================================== *)
(** ** Regular expressions without the [i] flag *)
(* ================================================================== *)

Module Pattern.
Import Js.

(** A character class matched once, or starred.  A literal character is the
    class of that character alone; [cls+] is the class once and then starred.
    The star is the greedy, backtracking one of [RegExp.matchStar]. *)
Inductive item : Type :=
  | One (cls : ascii -> bool)
  | Many (cls : ascii -> bool).

Definition exactly (c : ascii) : ascii -> bool := fun d => (c =? d)%char.

Definition anyBut (c : ascii) : ascii -> bool := fun d => negb (c =? d)%char.

Fixpoint matchPattern (items : list item) : string -> option nat :=
  match items with
  | [] => fun _ => Some 0
  | One cls :: rest =>
      fun s =>
        match s with
        | "" => None
        | String d s' =>
            if cls d then option_map S (matchPattern rest s') else None
        end
  | Many cls :: rest => RegExp.matchStar cls (matchPattern rest)
  end.

Fixpoint text (s : string) : list item :=
  match s with
  | "" => []
  | String c s' => One (exactly c) :: text s'
  end.

(** [String.prototype.trim]: the white space it removes is the class [\s]. *)
Fixpoint trimStart (s : string) : string :=
  match s with
  | "" => ""
  | String c s' => if RegExp.isSpace c then trimStart s' else s
  end.

Fixpoint trimEnd (s : string) : string :=
  match s with
  | "" => ""
  | String c s' =>
      let t := trimEnd s' in
      if (t =? "") && RegExp.isSpace c then "" else String c t
  end.

Definition trim (s : string) : string := trimEnd (trimStart s).

End Pattern.

(* ================================================================== *)
(** ** utils/string.ts *)
(* ================================================================== *)

Module StringUtils.
Import Js RegExp.

(** The characters [escapeRegExp] protects: [. * + ? ^ $ { } ( ) | [ ] \]. *)
Definition regExpSyntax : string := ".*+?^${}()|[]\".

Fixpoint escapeRegExp (s : string) : string :=
  match s with
  | "" => ""
  | String c s' =>
      if hasChar c regExpSyntax then String "\" (String c (escapeRegExp s'))
      else String c (escapeRegExp s')
  end.

(** [replaceAll]: the expression built from [escapeRegExp search] matches the
    text [search] itself, character by character, and has no group; the
    replacement is passed on as it is, so its dollar patterns are live. *)
Definition replaceAll (str search replacement : string) : string :=
  replaceGlobal (literal search) replacement str.

Definition escapeForXml (text : string) : string :=
  if (text =? "") then ""
  else
    let t := replaceGlobal (literal "&") "&amp;" text in
    let t := replaceGlobal (literal "<") "&lt;" t in
    let t := replaceGlobal (literal ">") "&gt;" t in
    let t := replaceGlobal (literal (String dquote "")) "&quot;" t in
    replaceGlobal (literal "'") "&apos;" t.

Definition unescapeXml (text : string) : string :=
  if (text =? "") then ""
  else
    let t := replaceGlobal (literal "&amp;") "&" text in
    let t := replaceGlobal (literal "&lt;") "<" t in
    let t := replaceGlobal (literal "&gt;") ">" t in
    let t := replaceGlobal (literal "&quot;") (String dquote "") t in
    replaceGlobal (literal "&apos;") "'" t.

Definition fixDoubleEscaping (content : string) : string :=
  let result := content in
  let result := replaceAll result "&amp;amp;" "&amp;" in
  let result := replaceAll result "&amp;lt;" "&lt;" in
  let result := replaceAll result "&amp;gt;" "&gt;" in
  let result := replaceAll result "&amp;quot;" "&quot;" in
  let result := replaceAll result "&amp;apos;" "&apos;" in
  result.

(** [placeholder.split('').join('[^a-zA-Z]*')] as pattern items, one per
    character of the name and a starred class between two of them. *)
Fixpoint placeholderPattern (placeholder : string) : list item :=
  match placeholder with
  | "" => []
  | String c "" => [Chr c]
  | String c rest => Chr c :: Star notLetter :: placeholderPattern rest
  end.

(** The name is pasted into the expression unescaped, so a character of it
    that is pattern syntax is read as syntax.  The model covers the names
    without such a character. *)
Fixpoint plainName (placeholder : string) : bool :=
  match placeholder with
  | "" => true
  | String c rest => negb (hasChar c regExpSyntax) && plainName rest
  end.

(** [<w:t[^>]*>\s*] placeholderPattern [\s*</w:t>], flags [gi]; [None] for a
    name outside the model. *)
Definition splitRunRegExp (placeholder : string) : option (list item) :=
  if plainName placeholder then
    Some (chars "<w:t" ++ [Star notGt; Chr ">"; Star isSpace]
          ++ placeholderPattern placeholder
          ++ [Star isSpace] ++ chars "</w:t>")%list
  else None.

(** The third pass alone: the split-run replacement over [result]. *)
Definition splitRunPass (result placeholder safeValue : string) : option string :=
  match splitRunRegExp placeholder with
  | Some regex =>
      Some (replaceGlobal (matchItems regex) ("<w:t>" ++ safeValue ++ "</w:t>") result)
  | None => None
  end.

Definition replacePlaceholder (content placeholder value : string) : option string :=
  let result := content in
  let safeValue := escapeForXml value in
  let result := replaceAll result ("{{" ++ placeholder ++ "}}") safeValue in
  let result :=
    replaceAll result ("<w:t>" ++ placeholder ++ "</w:t>")
               ("<w:t>" ++ safeValue ++ "</w:t>") in
  splitRunPass result placeholder safeValue.

(** [/<[^>]*>/g] and [/\s+/g]. *)
Definition tagRegExp : list Pattern.item :=
  [Pattern.One (Pattern.exactly "<"); Pattern.Many (Pattern.anyBut ">");
   Pattern.One (Pattern.exactly ">")].

Definition spacesRegExp : list Pattern.item :=
  [Pattern.One isSpace; Pattern.Many isSpace].

(** [stripHtml] on a string; the guard [!html] is the test for the empty
    text. *)
Definition stripHtml (html : string) : string :=
  if (html =? "") then ""
  else
    let t := replaceGlobal (Pattern.matchPattern tagRegExp) "" html in
    let t := replaceGlobal (Pattern.matchPattern (Pattern.text "&nbsp;")) " " t in
    let t := replaceGlobal (Pattern.matchPattern spacesRegExp) " " t in
    Pattern.trim t.

(** One round of [id += alphabet.charAt(Math.floor(Math.random() *
    alphabet.length))] per unit of [count]; [draw k] is the index the [k]-th
    call of the generator gives. *)
Fixpoint appendDrawn (alphabet : string) (draw : nat -> nat) (call count : nat)
  (id : string) : string :=
  match count with
  | O => id
  | S n => appendDrawn alphabet draw (S call) n (id ++ charAt alphabet (draw call))
  end.

Definition generateImageId (draw : nat -> nat) : string :=
  let chars := "ABCDEFGHIJKLMNOPQRSTUVWXYZ" in
  let nums := "0123456789" in
  let id := "rId" in
  let id := appendDrawn chars draw 0 2 id in
  appendDrawn nums draw 2 4 id.

Definition containsPlaceholder (content : string) (placeholders : list string) : bool :=
  existsb (fun p => includes ("{{" ++ p ++ "}}") content
                    || includes ("<w:t>" ++ p ++ "</w:t>") content)
          placeholders.

(** [/\{\{([^}]+)\}\}/g]. *)
Definition bracketRegExp : list Pattern.item :=
  (Pattern.text "{{"
   ++ [Pattern.One (Pattern.anyBut "}"); Pattern.Many (Pattern.anyBut "}")]
   ++ Pattern.text "}}")%list.

(** [match.slice(2, -2)]. *)
Definition insideBrackets (m : string) : string :=
  take (String.length m - 2 - 2) (drop 2 m).

Definition extractPlaceholders (content : string) : list string :=
  let bracketMatches := matchAll (Pattern.matchPattern bracketRegExp) content in
  setOf [] (map insideBrackets bracketMatches).

Definition wrapWithPreserveSpace (text : string) : string :=
  q "<w:t xml:space='preserve'>" ++ escapeForXml text ++ "</w:t>".

(** The functions above as they behave on a value of any type: the guards
    [typeof str !== 'string'] and [!text] decide before any replacement. *)
Module Dynamic.

Definition replaceAll (str : value) (search replacement : string) : value :=
  match str with
  | VString s => VString (StringUtils.replaceAll s search replacement)
  | _ => str
  end.

Definition escapeForXml (text : value) : string :=
  if falsy text || negb (isString text) then ""
  else match text with
       | VString s => StringUtils.escapeForXml s
       | _ => ""
       end.

Definition unescapeXml (text : value) : string :=
  if falsy text || negb (isString text) then ""
  else match text with
       | VString s => StringUtils.unescapeXml s
       | _ => ""
       end.

Definition fixDoubleEscaping (content : value) : value :=
  let result := content in
  let result := replaceAll result "&amp;amp;" "&amp;" in
  let result := replaceAll result "&amp;lt;" "&lt;" in
  let result := replaceAll result "&amp;gt;" "&gt;" in
  let result := replaceAll result "&amp;quot;" "&quot;" in
  let result := replaceAll result "&amp;apos;" "&apos;" in
  result.

End Dynamic.

End StringUtils.

(* ================================================================== *)
(** ** utils/xml.ts *)
(* ================================================================== *)

Module XmlUtils.
Import Js StringUtils.

Definition addRelationship (relsContent relationshipXml : string) : string :=
  let closingTag := "</Relationships>" in
  replaceAll relsContent closingTag
             (relationshipXml ++ String "010" "" ++ closingTag).

(** The text [Extension="ext"] whose presence [addContentType] tests. *)
Definition extensionAttr (extension : string) : string :=
  q "Extension='" ++ extension ++ q "'".

Definition addContentType (contentTypesXml extension contentType : string) : string :=
  let existing := extensionAttr extension in
  if includes existing contentTypesXml then contentTypesXml
  else
    let newType :=
      q "<Default Extension='" ++ extension ++ q "' ContentType='"
        ++ contentType ++ q "' />" in
    let closingTag := "</Types>" in
    replaceAll contentTypesXml closingTag
               (newType ++ String "010" "" ++ closingTag).

(** [IMAGE_CONTENT_TYPES], as the map of its six own entries. *)
Definition IMAGE_CONTENT_TYPES : list (string * string) :=
  [ ("png", "image/png"); ("jpg", "image/jpeg"); ("jpeg", "image/jpeg");
    ("gif", "image/gif"); ("bmp", "image/bmp"); ("webp", "image/webp") ].

Fixpoint lookup (key : string) (table : list (string * string)) : option string :=
  match table with
  | [] => None
  | (k, v) :: rest => if (key =? k) then Some v else lookup key rest
  end.

(** [String.prototype.toLowerCase] on the code units below 256. *)
Definition lowerChar (c : ascii) : ascii :=
  let n := nat_of_ascii c in
  if RegExp.between 65 90 n || (RegExp.between 192 222 n && negb (n =? 215)%nat)
  then ascii_of_nat (n + 32) else c.

Fixpoint toLowerCase (s : string) : string :=
  match s with
  | "" => ""
  | String c s' => String (lowerChar c) (toLowerCase s')
  end.

(** What reading a property of [IMAGE_CONTENT_TYPES] can give.  The table is
    a plain object: a key that is not one of its own entries is looked up in
    [Object.prototype], where it finds a built-in function or, under
    [__proto__], the prototype object itself. *)
Inductive property : Type :=
| Text (t : string)
| Builtin (name : string)
| ObjectPrototype.

(** The properties of [Object.prototype]: its functions, each under its own
    name but for [constructor], which is the function [Object], and the
    accessor [__proto__]. *)
Definition objectPrototype (key : string) : option property :=
  if key =? "constructor" then Some (Builtin "Object")
  else if key =? "__proto__" then Some ObjectPrototype
  else if arrayIncludes
            [ "__defineGetter__"; "__defineSetter__"; "hasOwnProperty";
              "__lookupGetter__"; "__lookupSetter__"; "isPrototypeOf";
              "propertyIsEnumerable"; "toString"; "valueOf"; "toLocaleString" ]
            key
  then Some (Builtin key)
  else None.

(** [IMAGE_CONTENT_TYPES[key]]; [None] is [undefined]. *)
Definition getProperty (key : string) : option property :=
  match lookup key IMAGE_CONTENT_TYPES with
  | Some t => Some (Text t)
  | None => objectPrototype key
  end.

(** Functions and objects are truthy, a string is unless it is empty. *)
Definition truthyProperty (v : property) : bool :=
  match v with
  | Text "" => false
  | _ => true
  end.

(** The result is typed [string], but it is whatever the table answers:
    [||] puts [image/png] in place of a falsy answer, and of the answers of
    this table only [undefined] is falsy. *)
Definition getImageContentType (extension : string) : property :=
  let ext := replaceFirst "." "" (toLowerCase extension) in
  match getProperty ext with
  | Some v => if truthyProperty v then v else Text "image/png"
  | None => Text "image/png"
  end.

(** [ToString], which a template literal applies to what it interpolates: a
    string as it is, a built-in function as Node prints it, the prototype
    object through [Object.prototype.toString]. *)
Definition toString (v : property) : string :=
  match v with
  | Text t => t
  | Builtin name => "function " ++ name ++ "() { [native code] }"
  | ObjectPrototype => "[object Object]"
  end.

Definition insertBeforeTag (xml tag content : string) : string :=
  match indexOf tag xml with
  | None => xml
  | Some index => take index xml ++ content ++ drop index xml
  end.

Definition insertAfterTag (xml tag content : string) : string :=
  match indexOf tag xml with
  | None => xml
  | Some index =>
      let endIndex := index + String.length tag in
      take endIndex xml ++ content ++ drop endIndex xml
  end.

(** The search for the end tag starts at [startIndex], a missing start tag
    counting as position 0, and so may find it inside the start tag. *)
Definition replaceBetweenTags (xml startTag endTag replacement : string) : string :=
  let startIndex := indexOf startTag xml in
  let endIndex :=
    indexOfFrom endTag xml (match startIndex with Some i => i | None => 0 end) in
  match startIndex, endIndex with
  | Some i, Some j =>
      take (i + String.length startTag) xml ++ replacement ++ drop j xml
  | _, _ => xml
  end.

(** The expression of [extractRelationshipIds], flag [g]: the text [Id=], a
    double quote, one or more characters other than a double quote, and a
    double quote. *)
Definition idRegExp : list Pattern.item :=
  (Pattern.text (q "Id='")
   ++ [Pattern.One (Pattern.anyBut dquote); Pattern.Many (Pattern.anyBut dquote)]
   ++ Pattern.text (q "'"))%list.

Definition extractRelationshipIds (relsContent : string) : list string :=
  let matches := matchAll (Pattern.matchPattern idRegExp) relsContent in
  map (fun m => replaceFirst (q "'") "" (replaceFirst (q "Id='") "" m)) matches.

(** [while (existingIds.includes(`rId${id}`)) id++], one test of the
    condition per unit of fuel. *)
Fixpoint uniqueRelIdLoop (fuel : nat) (existingIds : list string) (id : nat)
  : option string :=
  match fuel with
  | O => None
  | S fuel' =>
      if arrayIncludes existingIds ("rId" ++ ofNat id)
      then uniqueRelIdLoop fuel' existingIds (S id)
      else Some ("rId" ++ ofNat id)
  end.

Definition generateUniqueRelId (existingIds : list string) : option string :=
  uniqueRelIdLoop (S (List.length existingIds)) existingIds 1.

End XmlUtils.

(* ================================================================== *)
(** ** types/index.ts *)
(* ================================================================== *)

Module Types.

Definition Buffer : Type := list Byte.byte.

Record ImageConfig : Type := {
  placeholder : string;
  path : option string;
  buffer : option Buffer;
  url : option string;
  width : option Z;
  height : option Z;
  id : option string
}.

Inductive TableAlign : Type := AlignCenter | AlignLeft | AlignRight.

Record TableStyle : Type := {
  headerBgColor : option string;
  headerTextColor : option string;
  borderColor : option string;
  fontSize : option Z;
  fontFamily : option string;
  headerHeight : option Z;
  rowHeight : option Z;
  tableAlign : option TableAlign;
  cellPadding : option Z;
  borderSize : option Z
}.

Record TableHeader : Type := {
  name : string;
  key : string;
  colWidth : option Z
}.

(** [s || d] for an optional string: the empty string is falsy. *)
Definition orString (s : option string) (d : string) : string :=
  match s with
  | Some t => if (t =? "") then d else t
  | None => d
  end.

(** [n || d] for an optional number: zero is falsy. *)
Definition orNumber (n : option Z) (d : Z) : Z :=
  match n with
  | Some z => if (z =? 0)%Z then d else z
  | None => d
  end.

(** An optional string when it is truthy: present and not empty. *)
Definition truthy (s : option string) : option string :=
  match s with
  | Some t => if (t =? "") then None else Some t
  | None => None
  end.

End Types.

(* ================================================================== *)
(** ** utils/constants.ts *)
(* ================================================================== *)

Module Constants.
Import Js.
Import Types(TableAlign, AlignCenter, AlignLeft, AlignRight, orNumber).

Definition generateImageRelationship (imageId imageName : string) : string :=
  q "<Relationship Id='"
  ++ imageId
  ++ q "' Type='http://schemas.openxmlformats.org/officeDocument/2006/relationships/image' Target='media/"
  ++ imageName
  ++ q "' />".

Definition generateInlineImage (imageId : string) (width height : Z) (name : string) : string :=
  q "<w:drawing>
    <wp:inline distT='0' distB='0' distL='0' distR='0'>
      <wp:extent cx='"
  ++ ofZ width
  ++ q "' cy='"
  ++ ofZ height
  ++ q "' />
      <wp:effectExtent l='0' t='0' r='0' b='0' />
      <wp:docPr id='1' name='"
  ++ name
  ++ q "' />
      <wp:cNvGraphicFramePr>
        <a:graphicFrameLocks xmlns:a='http://schemas.openxmlformats.org/drawingml/2006/main' noChangeAspect='1' />
      </wp:cNvGraphicFramePr>
      <a:graphic xmlns:a='http://schemas.openxmlformats.org/drawingml/2006/main'>
        <a:graphicData uri='http://schemas.openxmlformats.org/drawingml/2006/picture'>
          <pic:pic xmlns:pic='http://schemas.openxmlformats.org/drawingml/2006/picture'>
            <pic:nvPicPr>
              <pic:cNvPr id='1' name='"
  ++ name
  ++ q "' />
              <pic:cNvPicPr />
            </pic:nvPicPr>
            <pic:blipFill>
              <a:blip r:embed='"
  ++ imageId
  ++ q "' cstate='print' />
              <a:stretch>
                <a:fillRect />
              </a:stretch>
            </pic:blipFill>
            <pic:spPr>
              <a:xfrm>
                <a:off x='0' y='0' />
                <a:ext cx='"
  ++ ofZ width
  ++ q "' cy='"
  ++ ofZ height
  ++ q "' />
              </a:xfrm>
              <a:prstGeom prst='rect'>
                <a:avLst />
              </a:prstGeom>
            </pic:spPr>
          </pic:pic>
        </a:graphicData>
      </a:graphic>
    </wp:inline>
  </w:drawing>".

(** The style object [generateTable] receives.  Its declared type has the
    five fields of [DEFAULT_TABLE_STYLE]; the object a caller spreads a
    [TableStyle] into may carry the five layout fields as well. *)
Record Style : Type := {
  headerBgColor : string;
  headerTextColor : string;
  borderColor : string;
  fontSize : Z;
  fontFamily : string;
  headerHeight : option Z;
  rowHeight : option Z;
  tableAlign : option TableAlign;
  cellPadding : option Z;
  borderSize : option Z
}.

Definition DEFAULT_TABLE_STYLE : Style := {|
  headerBgColor := "C9DAF8";
  headerTextColor := "000000";
  borderColor := "auto";
  fontSize := 24;
  fontFamily := "Times New Roman";
  headerHeight := None;
  rowHeight := None;
  tableAlign := None;
  cellPadding := None;
  borderSize := None
|}.

(** A header as [processTables] hands it over: [{ name, width }]. *)
Record Header : Type := {
  name : string;
  width : option Z
}.

Definition escapeXml (text : string) : string :=
  if (text =? "") then ""
  else
    let t := replaceGlobal (literal "&") "&amp;" text in
    let t := replaceGlobal (literal "<") "&lt;" t in
    let t := replaceGlobal (literal ">") "&gt;" t in
    let t := replaceGlobal (literal (String dquote "")) "&quot;" t in
    replaceGlobal (literal "'") "&apos;" t.

Definition headerCell (style : Style) (header : Header) : string :=
  q "
    <w:tc>
      <w:tcPr>
        <w:tcW w:w='"
  ++ ofZ (orNumber (width header) 2000)
  ++ q "' w:type='dxa' />
        <w:shd w:val='clear' w:color='auto' w:fill='"
  ++ headerBgColor style
  ++ q "' />
        <w:vAlign w:val='center' />
      </w:tcPr>
      <w:p>
        <w:pPr>
          <w:jc w:val='center' />
          <w:rPr>
            <w:rFonts w:ascii='"
  ++ fontFamily style
  ++ q "' w:hAnsi='"
  ++ fontFamily style
  ++ q "' />
            <w:b />
            <w:sz w:val='"
  ++ ofZ (fontSize style)
  ++ q "' />
            <w:szCs w:val='"
  ++ ofZ (fontSize style)
  ++ q "' />
            <w:color w:val='"
  ++ headerTextColor style
  ++ q "' />
          </w:rPr>
        </w:pPr>
        <w:r>
          <w:rPr>
            <w:rFonts w:ascii='"
  ++ fontFamily style
  ++ q "' w:hAnsi='"
  ++ fontFamily style
  ++ q "' />
            <w:b />
            <w:sz w:val='"
  ++ ofZ (fontSize style)
  ++ q "' />
            <w:szCs w:val='"
  ++ ofZ (fontSize style)
  ++ q "' />
            <w:color w:val='"
  ++ headerTextColor style
  ++ q "' />
          </w:rPr>
          <w:t>"
  ++ escapeXml (name header)
  ++ q "</w:t>
        </w:r>
      </w:p>
    </w:tc>
  ".

Definition generateTableHeaderRow (headers : list Header) (style : Style) : string :=
  let cells := join (map (headerCell style) headers) in
  q "
    <w:tr>
      <w:trPr>
        <w:trHeight w:val='400' />
      </w:trPr>
      "
  ++ cells
  ++ q "
    </w:tr>
  ".

Definition dataCell (widths : list Z) (style : Style) (index : nat) (cell : string) : string :=
  q "
    <w:tc>
      <w:tcPr>
        <w:tcW w:w='"
  ++ ofZ (orNumber (nth_error widths index) 2000)
  ++ q "' w:type='dxa' />
        <w:vAlign w:val='center' />
      </w:tcPr>
      <w:p>
        <w:pPr>
          <w:rPr>
            <w:rFonts w:ascii='"
  ++ fontFamily style
  ++ q "' w:hAnsi='"
  ++ fontFamily style
  ++ q "' />
            <w:sz w:val='"
  ++ ofZ (fontSize style)
  ++ q "' />
            <w:szCs w:val='"
  ++ ofZ (fontSize style)
  ++ q "' />
          </w:rPr>
        </w:pPr>
        <w:r>
          <w:rPr>
            <w:rFonts w:ascii='"
  ++ fontFamily style
  ++ q "' w:hAnsi='"
  ++ fontFamily style
  ++ q "' />
            <w:sz w:val='"
  ++ ofZ (fontSize style)
  ++ q "' />
            <w:szCs w:val='"
  ++ ofZ (fontSize style)
  ++ q "' />
          </w:rPr>
          <w:t>"
  ++ escapeXml cell
  ++ q "</w:t>
        </w:r>
      </w:p>
    </w:tc>
  ".

(** [cells.map((cell, index) => ...)]: the callback with the running index. *)
Fixpoint mapi {A B : Type} (f : nat -> A -> B) (index : nat) (l : list A) : list B :=
  match l with
  | [] => []
  | x :: l' => f index x :: mapi f (S index) l'
  end.

Definition generateTableDataRow (cells : list string) (widths : list Z) (style : Style) : string :=
  let cellsXml := join (mapi (dataCell widths style) 0 cells) in
  q "
    <w:tr>
      <w:trPr>
        <w:trHeight w:val='350' />
      </w:trPr>
      "
  ++ cellsXml
  ++ q "
    </w:tr>
  ".

Definition gridCol (h : Header) : string :=
  q "<w:gridCol w:w='"
  ++ ofZ (orNumber (width h) 2000)
  ++ q "' />".

Definition generateTable (headers : list Header) (rows : list (list string)) (style : Style) : string :=
  let widths := map (fun h => orNumber (width h) 2000) headers in
  let gridCols := join (map gridCol headers) in
  let headerRow := generateTableHeaderRow headers style in
  let dataRows := join (map (fun row => generateTableDataRow row widths style) rows) in
  q "
    <w:tbl>
      <w:tblPr>
        <w:tblStyle w:val='TableGrid' />
        <w:tblW w:w='5000' w:type='pct' />
        <w:jc w:val='center' />
        <w:tblBorders>
          <w:top w:val='single' w:sz='4' w:space='0' w:color='"
  ++ borderColor style
  ++ q "' />
          <w:left w:val='single' w:sz='4' w:space='0' w:color='"
  ++ borderColor style
  ++ q "' />
          <w:bottom w:val='single' w:sz='4' w:space='0' w:color='"
  ++ borderColor style
  ++ q "' />
          <w:right w:val='single' w:sz='4' w:space='0' w:color='"
  ++ borderColor style
  ++ q "' />
          <w:insideH w:val='single' w:sz='4' w:space='0' w:color='"
  ++ borderColor style
  ++ q "' />
          <w:insideV w:val='single' w:sz='4' w:space='0' w:color='"
  ++ borderColor style
  ++ q "' />
        </w:tblBorders>
        <w:tblLayout w:type='fixed' />
      </w:tblPr>
      <w:tblGrid>
        "
  ++ gridCols
  ++ q "
      </w:tblGrid>
      "
  ++ headerRow
  ++ q "
      "
  ++ dataRows
  ++ q "
    </w:tbl>
  ".

End Constants.

(* ================================================================== *)
(** ** utils/image.ts *)
(* ================================================================== *)

Module ImageUtils.
Import Js Types.

(** What an asynchronous step of the image code comes to: a value, a
    rejection, or, for the identifier loop run on bounded fuel, the fuel
    running out. *)
Inductive error : Type :=
  | NoImageSource (placeholder : string)
  | InvalidUrl (url : string)
  | IoFailure (message : string).

Inductive outcome (A : Type) : Type :=
  | Resolved (a : A)
  | Rejected (e : error)
  | OutOfFuel.
Arguments Resolved {A} a.
Arguments Rejected {A} e.
Arguments OutOfFuel {A}.

Definition bind {A B : Type} (m : outcome A) (f : A -> outcome B) : outcome B :=
  match m with
  | Resolved a => f a
  | Rejected e => Rejected e
  | OutOfFuel => OutOfFuel
  end.

Notation "x <- m ;; k" := (bind m (fun x => k))
  (at level 61, m at next level, right associativity).

Record PreparedImage : Type := {
  p_id : string;
  p_buffer : Buffer;
  p_fileName : string;
  p_extension : string;
  p_relationshipXml : string;
  p_inlineXml : string;
  p_placeholder : string
}.

Definition generateImageFileName (index : nat) (extension : string) : string :=
  "image" ++ ofNat (index + 1) ++ "." ++ extension.

(** The fallback identifier [`rId${100 + index + counter}`]. *)
Definition fallbackId (index counter : nat) : string :=
  "rId" ++ ofNat (100 + index + counter).

(** [while (existingIds.includes(id)) { id = fallback; counter++ }], one
    test of the condition per unit of fuel. *)
Fixpoint uniqueIdLoop (fuel : nat) (existingIds : list string) (index : nat)
  (id : string) (counter : nat) : option string :=
  match fuel with
  | O => None
  | S fuel' =>
      if arrayIncludes existingIds id
      then uniqueIdLoop fuel' existingIds index (fallbackId index counter) (S counter)
      else Some id
  end.

Section Collaborators.

(** The file system, the network and the path and URL libraries are outside
    the core: [readFile] is [fs.promises.readFile], [download] the HTTP
    fetch, [extname] is [path.extname], and [pathname] is
    [new URL(u).pathname], which throws on a text that is no URL. *)
Variable readFile : string -> string + Buffer.
Variable download : string -> string + Buffer.
Variable extname : string -> string.
Variable pathname : string -> option string.

Definition awaitIo (r : string + Buffer) : outcome Buffer :=
  match r with
  | inl message => Rejected (IoFailure message)
  | inr b => Resolved b
  end.

Definition loadImageFromPath (imagePath : string) : outcome Buffer :=
  awaitIo (readFile imagePath).

Definition downloadImage (url : string) : outcome Buffer :=
  awaitIo (download url).

(** A [Buffer] is an object, truthy even when empty; a path or a URL counts
    when it is a non-empty text. *)
Definition getImageBuffer (config : ImageConfig) : outcome Buffer :=
  match buffer config with
  | Some b => Resolved b
  | None =>
      match truthy (path config) with
      | Some p => loadImageFromPath p
      | None =>
          match truthy (url config) with
          | Some u => downloadImage u
          | None => Rejected (NoImageSource (placeholder config))
          end
      end
  end.

(** [path.extname(file).toLowerCase().replace('.', '') || 'png']. *)
Definition extensionOf (file : string) : string :=
  orString (Some (replaceFirst "." "" (XmlUtils.toLowerCase (extname file)))) "png".

Definition getImageExtension (config : ImageConfig) : outcome string :=
  match truthy (path config) with
  | Some p => Resolved (extensionOf p)
  | None =>
      match truthy (url config) with
      | Some u =>
          match pathname u with
          | Some urlPath => Resolved (extensionOf urlPath)
          | None => Rejected (InvalidUrl u)
          end
      | None => Resolved "png"
      end
  end.

(** [prepareImage]; [random] is what [generateImageId()] returns when it is
    called, that is when the configuration has no usable [id]. *)
Definition prepareImage (random : string) (config : ImageConfig) (index : nat)
  (existingIds : list string) : outcome PreparedImage :=
  buffer <- getImageBuffer config ;;
  extension <- getImageExtension config ;;
  let fileName := generateImageFileName index extension in
  let id0 := orString (id config) random in
  match uniqueIdLoop (S (S (List.length existingIds))) existingIds index id0 1 with
  | None => OutOfFuel
  | Some id =>
      let relationshipXml := Constants.generateImageRelationship id fileName in
      let inlineXml :=
        Constants.generateInlineImage id
          (orNumber (width config) 914400)
          (orNumber (height config) (orNumber (width config) 914400))
          ("Image " ++ ofNat (index + 1)) in
      Resolved {| p_id := id; p_buffer := buffer; p_fileName := fileName;
                  p_extension := extension; p_relationshipXml := relationshipXml;
                  p_inlineXml := inlineXml; p_placeholder := placeholder config |}
  end.

End Collaborators.

End ImageUtils.

(* ================================================================== *)
(** ** DocxGenerator *)
(* ================================================================== *)

Module DocxGenerator.
Import Js Types ImageUtils.

Section Collaborators.

Variable readFile : string -> string + Buffer.
Variable download : string -> string + Buffer.
Variable extname : string -> string.
Variable pathname : string -> option string.

(** The draws of [generateImageId], one per image index. *)
Variable random : nat -> string.

(** The loop of [processImages] from index [i] on, [preparedImages] holding
    the images prepared so far. *)
Fixpoint prepareFrom (existingIds : list string) (images : list ImageConfig)
  (i : nat) (preparedImages : list PreparedImage) : outcome (list PreparedImage) :=
  match images with
  | [] => Resolved preparedImages
  | config :: rest =>
      prepared <- prepareImage readFile download extname pathname (random i) config i
                    (existingIds ++ map p_id preparedImages) ;;
      prepareFrom existingIds rest (S i) (preparedImages ++ [prepared])
  end.

(** [processImages] over a loaded archive whose relationship part declares
    [existingIds]. *)
Definition processImages (existingIds : list string) (images : list ImageConfig)
  : outcome (list PreparedImage) :=
  match images with
  | [] => Resolved []
  | _ => prepareFrom existingIds images 0 []
  end.

End Collaborators.

(** The two registry updates of [updateRelationships]. *)
Definition updateRels (relsContent : string) (images : list PreparedImage) : string :=
  fold_left (fun rels image => XmlUtils.addRelationship rels (p_relationshipXml image))
            images relsContent.

(** The content type goes into the template literal of [addContentType],
    which turns it into text. *)
Definition updateContentTypes (contentTypesXml : string) (images : list PreparedImage) : string :=
  let extensions := setOf [] (map p_extension images) in
  fold_left (fun xml ext =>
               XmlUtils.addContentType xml ext
                 (XmlUtils.toString (XmlUtils.getImageContentType ext)))
            extensions contentTypesXml.

(** The style [processTables] passes on: the defaults, then the fields the
    table sets. *)
Definition mergeStyle (style : option TableStyle) : Constants.Style :=
  let d := Constants.DEFAULT_TABLE_STYLE in
  match style with
  | None => d
  | Some s =>
      let pick {A : Type} (o : option A) (v : A) : A :=
        match o with Some x => x | None => v end in
      {| Constants.headerBgColor := pick (headerBgColor s) (Constants.headerBgColor d);
         Constants.headerTextColor := pick (headerTextColor s) (Constants.headerTextColor d);
         Constants.borderColor := pick (borderColor s) (Constants.borderColor d);
         Constants.fontSize := pick (fontSize s) (Constants.fontSize d);
         Constants.fontFamily := pick (fontFamily s) (Constants.fontFamily d);
         Constants.headerHeight := headerHeight s;
         Constants.rowHeight := rowHeight s;
         Constants.tableAlign := tableAlign s;
         Constants.cellPadding := cellPadding s;
         Constants.borderSize := borderSize s |}
  end.

Definition tableHeaders (headers : list TableHeader) : list Constants.Header :=
  map (fun h => {| Constants.name := name h; Constants.width := colWidth h |}) headers.


(** [processPlaceholders]; [data] lists the entries in the order of
    [Object.entries].  The result is [None] when a key is outside the model
    of [replacePlaceholder]. *)
Definition processPlaceholders (content : string) (data : list (string * string))
  : option string :=
  let result :=
    fold_left
      (fun result entry =>
         match result with
         | Some r => StringUtils.replacePlaceholder r (fst entry) (snd entry)
         | None => None
         end)
      data (Some content) in
  option_map StringUtils.fixDoubleEscaping result.

Definition replaceImagePlaceholders (content : string) (images : list PreparedImage)
  : string :=
  fold_left
    (fun result image =>
       let result :=
         StringUtils.replaceAll result (p_placeholder image) (p_inlineXml image) in
       StringUtils.replaceAll result ("{{" ++ p_placeholder image ++ "}}")
                              (p_inlineXml image))
    images content.

End DocxGenerator.

(* ================================================================== *)
(** ** Notions the properties are stated with *)
(* ================================================================== *)

Module Props.
Import Js Types.

(** The matcher finds nothing at any position of [s]. *)
Fixpoint matchesNowhere (matcher : string -> option nat) (s : string) : bool :=
  match matcher s with
  | Some _ => false
  | None =>
      match s with
      | "" => true
      | String _ s' => matchesNowhere matcher s'
      end
  end.

(** A replacement text without live dollar pattern: no dollar is followed by
    a dollar, an ampersand, a backquote or an apostrophe. *)
Fixpoint plainTemplate (t : string) : bool :=
  match t with
  | "" => true
  | String c t' =>
      (if (c =? "$")%char then
         match t' with
         | "" => true
         | String d _ => negb (hasChar d "$&`'")
         end
       else true) && plainTemplate t'
  end.

(** A raw value whose escaped form is a plain template: no dollar is followed
    by a dollar, a backquote or one of the five characters that escaping turns
    into an entity, each of which starts with an ampersand. *)
Fixpoint plainValue (v : string) : bool :=
  match v with
  | "" => true
  | String c v' =>
      (if (c =? "$")%char then
         match v' with
         | "" => true
         | String d _ => negb (hasChar d "$`&<>'") && negb (d =? dquote)%char
         end
       else true) && plainValue v'
  end.

(** Already single-escaped text: none of the five double-escaped sequences
    occurs in it. *)
Definition singleEscaped (s : string) : bool :=
  negb (includes "&amp;amp;" s) && negb (includes "&amp;lt;" s)
  && negb (includes "&amp;gt;" s) && negb (includes "&amp;quot;" s)
  && negb (includes "&amp;apos;" s).

(** The content sources of an image configuration that are set, in the order
    of precedence buffer, path, URL. *)
Inductive source : Type :=
  | FromBuffer (b : Buffer)
  | FromPath (p : string)
  | FromUrl (u : string).

Definition suppliedSources (config : ImageConfig) : list source :=
  (match buffer config with Some b => [FromBuffer b] | None => [] end)
  ++ (match truthy (path config) with Some p => [FromPath p] | None => [] end)
  ++ (match truthy (url config) with Some u => [FromUrl u] | None => [] end).


(** [s'] is [s] up to the case of its letters. *)
Fixpoint sameUpToCase (s s' : string) : bool :=
  match s, s' with
  | "", "" => true
  | String a r, String b r' => RegExp.sameLetter a b && sameUpToCase r r'
  | _, _ => false
  end.

(** Every character of [s] satisfies [p]. *)
Fixpoint allChars (p : ascii -> bool) (s : string) : bool :=
  match s with
  | "" => true
  | String c s' => p c && allChars p s'
  end.

(** Character-wise rewriting of a text. *)
Fixpoint expand (f : ascii -> string) (s : string) : string :=
  match s with
  | "" => ""
  | String c s' => f c ++ expand f s'
  end.

(** The entity of a reserved character, any other character itself. *)
Definition escapeChar (c : ascii) : string :=
  if (c =? "&")%char then "&amp;"
  else if (c =? "<")%char then "&lt;"
  else if (c =? ">")%char then "&gt;"
  else if (c =? dquote)%char then "&quot;"
  else if (c =? "'")%char then "&apos;"
  else String c "".

(** Some position inside both texts holds different characters. *)
Fixpoint clash (p t : string) : bool :=
  match p, t with
  | String a p', String b t' => negb (a =? b)%char || clash p' t'
  | _, _ => false
  end.

(** Whether [p] occurs at a position of [l] never depends on what follows
    [l]: at each position [p] is there in full or differs inside [l]. *)
Fixpoint decided (p l : string) : bool :=
  match l with
  | "" => true
  | String _ l' => (startsWith p l || clash p l) && decided p l'
  end.

(** No occurrence of [p] starts inside [w], whatever follows [w]. *)
Fixpoint inert (p w : string) : bool :=
  match w with
  | "" => true
  | String _ w' => clash p w && inert p w'
  end.

(** The escaping with the characters of [decoded] left as they are. *)
Definition escapeCharBut (decoded : string) (c : ascii) : string :=
  if hasChar c decoded then String c "" else escapeChar c.

(** The items of the split-run expression after the opening tag. *)
Definition afterOpening (name : string) : list RegExp.item :=
  (([RegExp.Star RegExp.isSpace] ++ StringUtils.placeholderPattern name
    ++ [RegExp.Star RegExp.isSpace])
   ++ RegExp.chars "</w:t>")%list.

(** The first character of [l] is not a character of [p]. *)
Definition apart (p l : string) : bool :=
  match l with
  | "" => false
  | String c _ => negb (hasChar c p)
  end.

(** An extension that can stand in a declaration as it is: it has no dollar,
    which the replacement would read as a pattern, and no angle bracket or
    space, which delimit the declaration. *)
Definition cleanExtension (e : string) : bool :=
  negb (hasChar "$" e) && negb (hasChar "<" e) && negb (hasChar ">" e)
  && negb (hasChar " " e).

(** The characters of [s] with the fillers put between them, one filler
    after each character but the last, for as long as there are fillers. *)
Fixpoint interleave (s : string) (fillers : list string) : string :=
  match s with
  | "" => ""
  | String c "" => String c ""
  | String c rest =>
      String c
        (match fillers with
         | [] => interleave rest []
         | f :: fs => f ++ interleave rest fs
         end)
  end.

(** Number of single-character items of a pattern. *)
Fixpoint chrCount (items : list RegExp.item) : nat :=
  match items with
  | [] => 0
  | RegExp.Chr _ :: rest => S (chrCount rest)
  | RegExp.Star _ :: rest => chrCount rest
  end.

(** Number of cell elements of a fragment: occurrences of the tag [<w:tc>]. *)
Definition cellCount (xml : string) : nat := occurrences "<w:tc>" xml.

(** Number of row elements and of grid columns of a fragment. *)
Definition rowCount (xml : string) : nat := occurrences "<w:tr>" xml.

Definition gridColCount (xml : string) : nat := occurrences "<w:gridCol" xml.

(** A style none of whose texts opens a tag. *)
Definition markupFree (style : Constants.Style) : bool :=
  negb (hasChar "<" (Constants.headerBgColor style))
  && negb (hasChar "<" (Constants.headerTextColor style))
  && negb (hasChar "<" (Constants.borderColor style))
  && negb (hasChar "<" (Constants.fontFamily style)).

(** No opening angle bracket has a closing one after it: the text holds no
    tag. *)
Fixpoint noTag (s : string) : bool :=
  match s with
  | "" => true
  | String c s' => negb ((c =? "<")%char && hasChar ">" s') && noTag s'
  end.

Definition startsWithSpace (s : string) : bool :=
  match s with
  | "" => false
  | String c _ => RegExp.isSpace c
  end.

(** Every white-space character is a blank, and no blank is followed by
    white space. *)
Fixpoint singleSpaced (s : string) : bool :=
  match s with
  | "" => true
  | String c s' =>
      (if RegExp.isSpace c then (c =? " ")%char && negb (startsWithSpace s')
       else true)
      && singleSpaced s'
  end.

(** [p] does not occur in [a ++ rest] at a position inside [a]: an occurrence
    of [p] at the head of [rest] is then the first one. *)
Fixpoint noneBefore (p a rest : string) : bool :=
  match a with
  | "" => true
  | String _ a' => negb (startsWith p (a ++ rest)) && noneBefore p a' rest
  end.

(** Escaping applied twice, the characters of [repaired] being escaped
    once. *)
Definition escapeTwiceBut (repaired : string) (c : ascii) : string :=
  if hasChar c repaired then escapeChar c
  else expand escapeChar (escapeChar c).

End Props.

(* ================================================================== *)
(** ** Sample inputs *)
(* ================================================================== *)

Module Examples.
Import Js Types.

(** [tests/unit/custom-table-style.test.ts]: two columns, two rows. *)
Definition headers : list Constants.Header :=
  [ {| Constants.name := "Header 1"; Constants.width := Some 1000%Z |};
    {| Constants.name := "Header 2"; Constants.width := Some 2000%Z |} ].

Definition rows : list (list string) :=
  [ ["Row 1 Col 1"; "Row 1 Col 2"]; ["Row 2 Col 1"; "Row 2 Col 2"] ].

(** [{ ...DEFAULT_TABLE_STYLE, headerHeight: 600, rowHeight: 500 }]. *)
Definition tallRows : Constants.Style :=
  DocxGenerator.mergeStyle
    (Some {| headerBgColor := None; headerTextColor := None; borderColor := None;
             fontSize := None; fontFamily := None; headerHeight := Some 600%Z;
             rowHeight := Some 500%Z; tableAlign := None; cellPadding := None;
             borderSize := None |}).

(** [{ ...DEFAULT_TABLE_STYLE, tableAlign: 'left' }] and
    [{ ...DEFAULT_TABLE_STYLE, borderSize: 8 }]. *)
Definition leftAligned : Constants.Style :=
  DocxGenerator.mergeStyle
    (Some {| headerBgColor := None; headerTextColor := None; borderColor := None;
             fontSize := None; fontFamily := None; headerHeight := None;
             rowHeight := None; tableAlign := Some AlignLeft; cellPadding := None;
             borderSize := None |}).

Definition thickBorders : Constants.Style :=
  DocxGenerator.mergeStyle
    (Some {| headerBgColor := None; headerTextColor := None; borderColor := None;
             fontSize := None; fontFamily := None; headerHeight := None;
             rowHeight := None; tableAlign := None; cellPadding := None;
             borderSize := Some 8%Z |}).

(** An image configuration with a buffer and nothing else. *)
Definition bufferOnly (placeholder : string) : ImageConfig := {|
  placeholder := placeholder; path := None; buffer := Some [];
  url := None; width := None; height := None; id := None
|}.

(** Two prepared images that share the extension [png]. *)
Definition pngImage (n : nat) : ImageUtils.PreparedImage := {|
  ImageUtils.p_id := ImageUtils.fallbackId n 1;
  ImageUtils.p_buffer := [];
  ImageUtils.p_fileName := ImageUtils.generateImageFileName n "png";
  ImageUtils.p_extension := "png";
  ImageUtils.p_relationshipXml :=
    Constants.generateImageRelationship (ImageUtils.fallbackId n 1)
      (ImageUtils.generateImageFileName n "png");
  ImageUtils.p_inlineXml :=
    Constants.generateInlineImage (ImageUtils.fallbackId n 1) 914400 914400
      ("Image " ++ ofNat (n + 1));
  ImageUtils.p_placeholder := "logo"
|}.

(** A minimal content-types registry. *)
Definition registry : string :=
  q "<Types><Default Extension='xml' ContentType='application/xml'/></Types>".

(** A registry text in which [png] is declared twice, and a well-formed one
    whose closing tag has a blank before the angle bracket. *)
Definition declaredTwice : string :=
  q "<Types><Default Extension='png' ContentType='image/png'/><Default Extension='png' ContentType='image/png'/></Types>".

Definition spacedClosingTag : string :=
  q "<Types><Default Extension='xml' ContentType='application/xml'/></Types >".

(** An image configuration without a usable source: the empty URL is
    falsy. *)
Definition noSource (placeholder : string) : ImageConfig := {|
  placeholder := placeholder; path := None; buffer := None;
  url := Some ""; width := None; height := None; id := None
|}.

(** An image configuration with a path only. *)
Definition pathOnly (placeholder path : string) : ImageConfig := {|
  placeholder := placeholder; path := Some path; buffer := None;
  url := None; width := None; height := None; id := None
|}.

(** Collaborators for the samples: every read and download succeeds with an
    empty buffer or fails, the extension of every path is [.PNG], and no
    text parses as a URL. *)
Definition loads : string -> string + Buffer := fun _ => inr [].
Definition fails : string -> string + Buffer := fun _ => inl "ENOENT".
Definition upperPng : string -> string := fun _ => ".PNG".
Definition noUrl : string -> option string := fun _ => None.

End Examples.

(* ================================================================== *)
(** ** Texts: prefixes, occurrences, concatenation *)
(* ================================================================== *)

Import Js Props.

Lemma app_empty_r (s : string) : s ++ "" = s.
Proof. induction s as [|c s IH]; simpl; congruence. Qed.

Lemma app_assoc_s (a b c : string) : (a ++ b) ++ c = a ++ b ++ c.
Proof. induction a as [|x a IH]; simpl; congruence. Qed.

Lemma length_app_s (a b : string) :
  String.length (a ++ b) = String.length a + String.length b.
Proof. induction a as [|x a IH]; simpl; congruence. Qed.

Lemma startsWith_refl_app (p r : string) : startsWith p (p ++ r) = true.
Proof.
  induction p as [|c p IH]; simpl; [reflexivity|].
  now rewrite Ascii.eqb_refl.
Qed.

Lemma startsWith_app_l (p a b : string) :
  startsWith p a = true -> startsWith p (a ++ b) = true.
Proof.
  revert a; induction p as [|c p IH]; intros a H; [reflexivity|].
  destruct a as [|d a]; simpl in *; [discriminate|].
  apply andb_true_iff in H as [H1 H2].
  now rewrite H1, IH.
Qed.

Lemma startsWith_empty (p : string) : startsWith p "" = true -> p = "".
Proof. destruct p; simpl; [reflexivity | discriminate]. Qed.

(** A prefix test never looks across a character the pattern does not have. *)
Lemma startsWith_cut (p a r : string) (c : ascii) :
  hasChar c p = false ->
  startsWith p (a ++ String c r) = startsWith p a.
Proof.
  revert a; induction p as [|x p IH]; intros a H; [now destruct a|].
  simpl in H. apply orb_false_iff in H as [Hx Hp].
  destruct a as [|d a]; simpl.
  - rewrite Ascii.eqb_sym, Hx. reflexivity.
  - now rewrite IH.
Qed.

Lemma take_drop (n : nat) (s : string) : take n s ++ drop n s = s.
Proof.
  revert s; induction n as [|n IH]; intros [|c s]; simpl; try reflexivity.
  now rewrite IH.
Qed.

Lemma drop_app_length (a b : string) : drop (String.length a) (a ++ b) = b.
Proof. induction a as [|c a IH]; simpl; [now destruct b | exact IH]. Qed.

Lemma take_app_length (a b : string) : take (String.length a) (a ++ b) = a.
Proof. induction a as [|c a IH]; simpl; [now destruct b | now rewrite IH]. Qed.

Lemma startsWith_take (p s : string) :
  startsWith p s = true -> s = p ++ drop (String.length p) s.
Proof.
  revert s; induction p as [|c p IH]; intros s H; simpl.
  - now destruct s.
  - destruct s as [|d s]; simpl in *; [discriminate|].
    apply andb_true_iff in H as [H1 H2].
    apply Ascii.eqb_eq in H1. subst d. f_equal. now apply IH.
Qed.

Lemma includes_empty (s : string) : includes "" s = true.
Proof. destruct s; reflexivity. Qed.

Lemma includes_app_l (p a b : string) :
  includes p a = true -> includes p (a ++ b) = true.
Proof.
  induction a as [|c a IH]; simpl; intros H.
  - rewrite orb_false_r in H. apply startsWith_empty in H. subst p.
    apply includes_empty.
  - apply orb_true_iff in H as [H|H].
    + change (String c (a ++ b)) with (String c a ++ b).
      now rewrite (startsWith_app_l _ _ _ H).
    + rewrite (IH H). apply orb_true_r.
Qed.

Lemma includes_app_r (p a b : string) :
  includes p b = true -> includes p (a ++ b) = true.
Proof.
  induction a as [|c a IH]; simpl; intros H; [exact H|].
  rewrite (IH H). apply orb_true_r.
Qed.

Lemma includes_refl (p : string) : includes p p = true.
Proof.
  destruct p as [|c p]; [reflexivity|].
  cbn [includes].
  rewrite <- (app_empty_r (String c p)) at 2.
  now rewrite startsWith_refl_app.
Qed.

Lemma includes_middle (p a b : string) : includes p (a ++ p ++ b) = true.
Proof. apply includes_app_r, includes_app_l, includes_refl. Qed.

Lemma includes_cons (p : string) (c : ascii) (s : string) :
  includes p (String c s) = false -> includes p s = false.
Proof. simpl. intros H. now apply orb_false_iff in H. Qed.

Lemma includes_occurrences (p s : string) :
  includes p s = false <-> occurrences p s = 0.
Proof.
  induction s as [|c s IH]; simpl.
  - destruct (startsWith p ""); simpl; split; intros; try discriminate; reflexivity.
  - destruct (startsWith p (String c s)); simpl.
    + split; intros; discriminate.
    + exact IH.
Qed.

(** Across a character the pattern does not have, occurrences add up. *)
Lemma occurrences_cut (p a r : string) (c : ascii) :
  hasChar c p = false ->
  occurrences p (a ++ String c r) = occurrences p a + occurrences p r.
Proof.
  intros Hc. induction a as [|d a IH].
  - pose proof (startsWith_cut p "" r c Hc) as E.
    cbn [append occurrences] in *. rewrite E. lia.
  - change (String d a ++ String c r) with (String d (a ++ String c r)).
    cbn [occurrences].
    change (String d (a ++ String c r)) with (String d a ++ String c r).
    rewrite startsWith_cut by exact Hc.
    rewrite IH. lia.
Qed.

(* ================================================================== *)
(** ** The global replacement *)
(* ================================================================== *)

Lemma getSubstitution_plain (matched before after t : string) :
  plainTemplate t = true -> getSubstitution matched before after t = t.
Proof.
  induction t as [|c t IH]; [reflexivity|].
  cbn [plainTemplate getSubstitution]. intros H.
  apply andb_true_iff in H as [H1 H2].
  destruct (c =? "$")%char eqn:Ec.
  - destruct t as [|d t]; [reflexivity|].
    cbn [hasChar] in H1.
    apply negb_true_iff in H1.
    repeat (apply orb_false_iff in H1 as [? H1]).
    repeat match goal with E : (_ =? _)%char = false |- _ => rewrite E; clear E end.
    now rewrite (IH H2).
  - now rewrite (IH H2).
Qed.

Section ReplaceFacts.
Variable matcher : string -> option nat.
Variable replacement : string.

(** Where nothing matches the text is copied. *)
Lemma replaceFrom_nowhere (s before : string) :
  matchesNowhere matcher s = true ->
  replaceFrom matcher replacement before 0 s = s.
Proof.
  revert before; induction s as [|c s IH]; intros before; simpl;
    destruct (matcher _); try discriminate; try reflexivity.
  intros H. now rewrite IH.
Qed.

(** Where something matches, a plain replacement text shows up in the result. *)
Lemma replaceFrom_somewhere (s before : string) :
  plainTemplate replacement = true ->
  matchesNowhere matcher s = false ->
  includes replacement (replaceFrom matcher replacement before 0 s) = true.
Proof.
  intros Hp. revert before; induction s as [|c s IH]; intros before; simpl.
  - destruct (matcher "") eqn:E; [|discriminate]. intros _.
    unfold substituted. rewrite getSubstitution_plain by exact Hp.
    rewrite app_empty_r. apply includes_refl.
  - destruct (matcher (String c s)) eqn:E.
    + intros _. unfold substituted. rewrite getSubstitution_plain by exact Hp.
      apply includes_app_l, includes_refl.
    + intros H. change (includes replacement (String c ?x)) with
        (startsWith replacement (String c x) || includes replacement x).
      rewrite (IH _ H). apply orb_true_r.
Qed.

(** Whatever a plain replacement does, a text that occurs both in the input
    and in the replacement still occurs in the result. *)
Lemma replaceGlobal_keeps (w s : string) :
  plainTemplate replacement = true ->
  includes w replacement = true ->
  includes w s = true ->
  includes w (replaceGlobal matcher replacement s) = true.
Proof.
  intros Hp Hw Hs. unfold replaceGlobal.
  destruct (matchesNowhere matcher s) eqn:E.
  - now rewrite replaceFrom_nowhere.
  - pose proof (replaceFrom_somewhere s "" Hp E) as H.
    clear - H Hw.
    induction (replaceFrom matcher replacement "" 0 s) as [|c t IH].
    + simpl in H. rewrite orb_false_r in H. apply startsWith_empty in H.
      subst. simpl in Hw. rewrite orb_false_r in Hw.
      apply startsWith_empty in Hw. now subst.
    + simpl in H. apply orb_true_iff in H as [H|H].
      * apply startsWith_take in H. rewrite H. now apply includes_app_l.
      * simpl. rewrite (IH H). apply orb_true_r.
Qed.

End ReplaceFacts.

Lemma matchesNowhere_literal (p s : string) :
  matchesNowhere (literal p) s = negb (includes p s).
Proof.
  induction s as [|c s IH]; simpl; unfold literal.
  - destruct (startsWith p ""); reflexivity.
  - destruct (startsWith p (String c s)); [reflexivity|]. simpl. exact IH.
Qed.

Lemma replaceAll_absent (s search replacement : string) :
  includes search s = false -> StringUtils.replaceAll s search replacement = s.
Proof.
  intros H. unfold StringUtils.replaceAll, replaceGlobal.
  apply replaceFrom_nowhere. now rewrite matchesNowhere_literal, H.
Qed.

Lemma replaceAll_present (s search replacement : string) :
  plainTemplate replacement = true ->
  includes search s = true ->
  includes replacement (StringUtils.replaceAll s search replacement) = true.
Proof.
  intros Hp H. unfold StringUtils.replaceAll, replaceGlobal.
  apply replaceFrom_somewhere; [exact Hp|].
  now rewrite matchesNowhere_literal, H.
Qed.

(* ================================================================== *)
(** ** Entity codec *)
(* ================================================================== *)

(** C1.  Decoding undoes [&amp;] first, so an entity text that was itself
    encoded is decoded twice: [&lt;] is encoded to [&amp;lt;] and comes back
    as [<], not as the [&lt;] that went in. *)
Theorem unescapeXml_escapeForXml_entity_text :
  StringUtils.escapeForXml "&lt;" = "&amp;lt;" /\
  StringUtils.unescapeXml (StringUtils.escapeForXml "&lt;") = "<" /\
  StringUtils.unescapeXml (StringUtils.escapeForXml "&lt;") <> "&lt;".
Proof. repeat split; [vm_compute; reflexivity .. | vm_compute; discriminate]. Qed.

(** C6, as stated, fails on [null]: [fixDoubleEscaping] hands the value back,
    it does not turn it into the empty string. *)
Lemma fixDoubleEscaping_null_is_null :
  ~ (StringUtils.Dynamic.escapeForXml VNull = ""
     /\ StringUtils.Dynamic.unescapeXml VNull = ""
     /\ StringUtils.Dynamic.fixDoubleEscaping VNull = VString "").
Proof. intros (_ & _ & H). discriminate H. Qed.

(** C6, amended.  On a value that is no string, [escapeForXml] and
    [unescapeXml] return the empty string and [fixDoubleEscaping] returns the
    value it was given; the three are total, so none throws. *)
Theorem codec_on_non_string (v : value) :
  isString v = false ->
  StringUtils.Dynamic.escapeForXml v = ""
  /\ StringUtils.Dynamic.unescapeXml v = ""
  /\ StringUtils.Dynamic.fixDoubleEscaping v = v.
Proof.
  intros H. destruct v; try discriminate H; repeat split;
    unfold StringUtils.Dynamic.escapeForXml, StringUtils.Dynamic.unescapeXml;
    simpl; try reflexivity; now rewrite ?orb_true_r.
Qed.

Lemma codec_on_non_string_witness :
  isString VNull = false
  /\ StringUtils.Dynamic.escapeForXml VNull = ""
  /\ StringUtils.Dynamic.unescapeXml VNull = ""
  /\ StringUtils.Dynamic.fixDoubleEscaping VNull = VNull.
Proof. split; [reflexivity | apply (codec_on_non_string VNull); reflexivity]. Defined.

(** On strings the run-time guarded functions are the typed ones. *)
Lemma dynamic_on_strings (s : string) :
  StringUtils.Dynamic.escapeForXml (VString s) = StringUtils.escapeForXml s
  /\ StringUtils.Dynamic.unescapeXml (VString s) = StringUtils.unescapeXml s
  /\ StringUtils.Dynamic.fixDoubleEscaping (VString s)
     = VString (StringUtils.fixDoubleEscaping s).
Proof.
  repeat split.
  - unfold StringUtils.Dynamic.escapeForXml, StringUtils.escapeForXml. simpl.
    now destruct (s =? "")%string.
  - unfold StringUtils.Dynamic.unescapeXml, StringUtils.unescapeXml. simpl.
    now destruct (s =? "")%string.
Qed.

Lemma singleEscaped_fixed (s : string) :
  singleEscaped s = true -> StringUtils.fixDoubleEscaping s = s.
Proof.
  unfold singleEscaped. intros H.
  repeat (apply andb_true_iff in H as [H ?]).
  repeat match goal with E : negb _ = true |- _ => apply negb_true_iff in E end.
  unfold StringUtils.fixDoubleEscaping.
  repeat match goal with
         | E : includes ?p s = false |- context [StringUtils.replaceAll s ?p ?r] =>
             rewrite (replaceAll_absent s p r E)
         end.
  reflexivity.
Qed.

(** C7.  On text that has none of the five double-escaped sequences the
    repair changes nothing, so repairing twice is repairing once. *)
Theorem fixDoubleEscaping_idempotent (s : string) :
  singleEscaped s = true ->
  StringUtils.fixDoubleEscaping (StringUtils.fixDoubleEscaping s)
  = StringUtils.fixDoubleEscaping s.
Proof. intros H. now rewrite !(singleEscaped_fixed s H). Qed.

Lemma fixDoubleEscaping_idempotent_witness :
  singleEscaped "A &amp; B &lt;tag&gt;" = true
  /\ StringUtils.fixDoubleEscaping (StringUtils.fixDoubleEscaping "A &amp; B &lt;tag&gt;")
     = StringUtils.fixDoubleEscaping "A &amp; B &lt;tag&gt;".
Proof.
  split; [reflexivity | apply (fixDoubleEscaping_idempotent "A &amp; B &lt;tag&gt;"); reflexivity].
Defined.

(** The restriction matters: one pass per sequence leaves a triple-escaped
    ampersand double-escaped, and a second repair goes on. *)
Example fixDoubleEscaping_triple :
  StringUtils.fixDoubleEscaping "&amp;amp;amp;" = "&amp;amp;"
  /\ StringUtils.fixDoubleEscaping "&amp;amp;" = "&amp;".
Proof. split; reflexivity. Qed.

(* ================================================================== *)
(** ** Image sources and relationship identifiers *)
(* ================================================================== *)

Import Types ImageUtils.

Section ImageFacts.
Variable readFile : string -> string + Buffer.
Variable download : string -> string + Buffer.
Variable extname : string -> string.
Variable pathname : string -> option string.



Lemma arrayIncludes_In (l : list string) (x : string) :
  arrayIncludes l x = true <-> In x l.
Proof.
  induction l as [|y l IH]; simpl; [split; [discriminate | tauto]|].
  rewrite orb_true_iff, IH, String.eqb_eq. split; intros [H|H]; auto.
Qed.

Lemma arrayIncludes_not_In (l : list string) (x : string) :
  arrayIncludes l x = false <-> ~ In x l.
Proof.
  rewrite <- arrayIncludes_In. destruct (arrayIncludes l x); split; intros H;
    try discriminate; try reflexivity; now elim H.
Qed.

Lemma ofNat_inj (a b : nat) : ofNat a = ofNat b -> a = b.
Proof.
  unfold ofNat. intros H.
  apply Unsigned.to_uint_inj.
  assert (E : Some (Nat.to_uint a) = Some (Nat.to_uint b))
    by (rewrite <- !NilEmpty.usu; now rewrite H).
  now injection E.
Qed.

Lemma fallbackId_inj (index a b : nat) :
  fallbackId index a = fallbackId index b -> a = b.
Proof.
  unfold fallbackId. simpl. intros H. injection H as H.
  apply ofNat_inj in H. lia.
Qed.

(** The identifier the loop leaves with is not among the existing ones. *)
Lemma uniqueIdLoop_fresh (fuel : nat) (existingIds : list string)
  (index : nat) (id : string) (counter : nat) (id' : string) :
  uniqueIdLoop fuel existingIds index id counter = Some id' ->
  ~ In id' existingIds.
Proof.
  revert id counter; induction fuel as [|fuel IH]; intros id counter; simpl;
    [discriminate|].
  destruct (arrayIncludes existingIds id) eqn:E.
  - apply IH.
  - intros H. injection H as <-. now apply arrayIncludes_not_In.
Qed.

(** When the fuel runs out every fallback tried was taken. *)
Lemma uniqueIdLoop_exhausted (fuel : nat) (existingIds : list string)
  (index : nat) (id : string) (counter : nat) :
  uniqueIdLoop (S fuel) existingIds index id counter = None ->
  forall j, j < fuel -> In (fallbackId index (counter + j)) existingIds.
Proof.
  revert id counter; induction fuel as [|fuel IH]; intros id counter H j Hj;
    [lia|].
  cbn [uniqueIdLoop] in H.
  destruct (arrayIncludes existingIds id); [|discriminate].
  destruct j as [|j].
  - rewrite Nat.add_0_r.
    destruct (arrayIncludes existingIds (fallbackId index counter)) eqn:E;
      [now apply arrayIncludes_In | discriminate].
  - replace (counter + S j) with (S counter + j) by lia.
    apply (IH (fallbackId index counter) (S counter)); [exact H | lia].
Qed.

(** The loop ends: the fallbacks are pairwise different, so at most as many
    of them as there are existing identifiers can be taken. *)
Lemma uniqueIdLoop_terminates (existingIds : list string) (index : nat)
  (id : string) (counter : nat) :
  uniqueIdLoop (S (S (List.length existingIds))) existingIds index id counter
  <> None.
Proof.
  intros H.
  pose proof (uniqueIdLoop_exhausted _ _ _ _ _ H) as Hall.
  set (n := List.length existingIds) in *.
  set (tried := map (fun j => fallbackId index (counter + j)) (seq 0 (S n))).
  assert (Hnd : NoDup tried).
  { apply Injective_map_NoDup; [|apply seq_NoDup].
    intros a b E. apply fallbackId_inj in E. lia. }
  assert (Hin : incl tried existingIds).
  { intros x Hx. apply in_map_iff in Hx as (j & <- & Hj).
    apply in_seq in Hj. apply Hall. lia. }
  pose proof (NoDup_incl_length Hnd Hin) as Hlen.
  unfold tried in Hlen. rewrite length_map, length_seq in Hlen. lia.
Qed.

Lemma getImageBuffer_has_outcome (config : ImageConfig) :
  getImageBuffer readFile download config <> OutOfFuel.
Proof.
  unfold getImageBuffer, loadImageFromPath, downloadImage, awaitIo.
  destruct (buffer config); [discriminate|].
  destruct (truthy (path config)); [now destruct (readFile _)|].
  destruct (truthy (url config)); [now destruct (download _) | discriminate].
Qed.

Lemma getImageExtension_has_outcome (config : ImageConfig) :
  getImageExtension extname pathname config <> OutOfFuel.
Proof.
  unfold getImageExtension.
  destruct (truthy (path config)); [discriminate|].
  destruct (truthy (url config)); [now destruct (pathname _) | discriminate].
Qed.

Lemma prepareImage_fresh (random : string) (config : ImageConfig)
  (index : nat) (existingIds : list string) :
  match prepareImage readFile download extname pathname random config index existingIds with
  | Resolved p => ~ In (p_id p) existingIds
  | Rejected _ => True
  | OutOfFuel => False
  end.
Proof.
  unfold prepareImage, bind.
  pose proof (getImageBuffer_has_outcome config) as Hb.
  pose proof (getImageExtension_has_outcome config) as He.
  destruct (getImageBuffer _ _ config); try exact I; try now elim Hb.
  destruct (getImageExtension _ _ config); try exact I; try now elim He.
  destruct (uniqueIdLoop _ _ _ _ _) as [id'|] eqn:E.
  - simpl. now apply uniqueIdLoop_fresh in E.
  - now apply uniqueIdLoop_terminates in E.
Qed.

Variable random : nat -> string.

Lemma prepareFrom_unique (existingIds : list string) (images : list ImageConfig) :
  forall (i : nat) (acc : list PreparedImage),
    NoDup (map p_id acc) ->
    (forall x, In x (map p_id acc) -> ~ In x existingIds) ->
    match DocxGenerator.prepareFrom readFile download extname pathname random
            existingIds images i acc with
    | Resolved ps =>
        NoDup (map p_id ps) /\ (forall x, In x (map p_id ps) -> ~ In x existingIds)
    | Rejected _ => True
    | OutOfFuel => False
    end.
Proof.
  induction images as [|config rest IH]; intros i acc Hnd Hdis; simpl.
  - now split.
  - pose proof (prepareImage_fresh (random i) config i
                  (existingIds ++ map p_id acc)) as Hp.
    unfold bind at 1.
    destruct (prepareImage _ _ _ _ _ config i _) as [p| |]; try exact Hp.
    rewrite in_app_iff in Hp.
    apply IH.
    + rewrite map_app. apply NoDup_app; [exact Hnd | repeat constructor; intros [] |].
      intros a Ha [<-|[]]. tauto.
    + intros x Hx. rewrite map_app, in_app_iff in Hx.
      destruct Hx as [Hx|[<-|[]]]; [now apply Hdis | tauto].
Qed.

(** C5.  Whatever the existing identifiers, the configurations (with or
    without an [id] of their own), the random draws and the collaborators,
    the identifier loop of every image ends, and when the pass prepares its
    images their identifiers are pairwise different and none of them is an
    existing one. *)
Theorem processImages_ids_unique (existingIds : list string)
  (images : list ImageConfig) :
  match DocxGenerator.processImages readFile download extname pathname random
          existingIds images with
  | Resolved ps =>
      NoDup (map p_id ps) /\ (forall x, In x (map p_id ps) -> ~ In x existingIds)
  | Rejected _ => True
  | OutOfFuel => False
  end.
Proof.
  unfold DocxGenerator.processImages.
  destruct images as [|config rest].
  - split; [constructor | intros x []].
  - apply prepareFrom_unique; [constructor | intros x []].
Qed.

(** The pass does prepare its images when every one of them has a source
    that loads and an extension that can be read off. *)
Lemma prepareFrom_resolves (existingIds : list string) (images : list ImageConfig) :
  Forall (fun c => (exists b, getImageBuffer readFile download c = Resolved b)
                   /\ (exists e, getImageExtension extname pathname c = Resolved e))
         images ->
  forall (i : nat) (acc : list PreparedImage),
  exists ps,
    DocxGenerator.prepareFrom readFile download extname pathname random
      existingIds images i acc = Resolved ps
    /\ List.length ps = List.length acc + List.length images.
Proof.
  induction 1 as [|config rest [[b Hb] [e He]] _ IH]; intros i acc; simpl.
  - exists acc. split; [reflexivity | lia].
  - unfold prepareImage. rewrite Hb, He. cbn [bind].
    destruct (uniqueIdLoop _ _ _ _ _) as [id'|] eqn:E.
    + cbn [bind].
      match goal with
      | |- context [DocxGenerator.prepareFrom _ _ _ _ _ _ _ ?i' ?acc'] =>
          destruct (IH i' acc') as (ps & Hps & Hlen)
      end.
      exists ps. split; [exact Hps|]. rewrite Hlen, length_app. simpl. lia.
    + now apply uniqueIdLoop_terminates in E.
Qed.

End ImageFacts.

(** The scenario of the specification: the archive has [rId1] and [rId2],
    three images come without an [id], and every random draw collides with
    [rId1].  The fallbacks [rId101], [rId102], [rId103] are assigned. *)
Example processImages_three_images :
  option_map (map p_id)
    (match DocxGenerator.processImages (fun _ => inr []) (fun _ => inr [])
             (fun _ => "") (fun _ => None) (fun _ => "rId1")
             ["rId1"; "rId2"]
             [Examples.bufferOnly "a"; Examples.bufferOnly "b"; Examples.bufferOnly "c"]
     with Resolved ps => Some ps | _ => None end)
  = Some ["rId101"; "rId102"; "rId103"].
Proof. vm_compute. reflexivity. Qed.

(* ================================================================== *)
(** ** Table markup: the layout fields of the style *)
(* ================================================================== *)

(** The fragment is a function of the five fields of [DEFAULT_TABLE_STYLE]:
    two styles that agree on them render the same table, whatever their
    header height, row height, alignment, padding and border size. *)
Lemma generateTable_reads_five_fields (headers : list Constants.Header)
  (rows : list (list string)) (s1 s2 : Constants.Style) :
  Constants.headerBgColor s1 = Constants.headerBgColor s2 ->
  Constants.headerTextColor s1 = Constants.headerTextColor s2 ->
  Constants.borderColor s1 = Constants.borderColor s2 ->
  Constants.fontSize s1 = Constants.fontSize s2 ->
  Constants.fontFamily s1 = Constants.fontFamily s2 ->
  Constants.generateTable headers rows s1 = Constants.generateTable headers rows s2.
Proof.
  destruct s1, s2; simpl; intros; subst. reflexivity.
Qed.

(** C3, at the input of the unit test "should apply custom row and header
    heights": with [headerHeight: 600] and [rowHeight: 500] merged over the
    defaults, the fragment has neither height; it has the constants 400 and
    350.  Likewise [tableAlign: 'left'] leaves the alignment centred and
    [borderSize: 8] leaves the border size 4. *)
Theorem generateTable_ignores_layout_overrides :
  includes (q "<w:trHeight w:val='600' />")
    (Constants.generateTable Examples.headers Examples.rows Examples.tallRows) = false
  /\ includes (q "<w:trHeight w:val='500' />")
       (Constants.generateTable Examples.headers Examples.rows Examples.tallRows) = false
  /\ includes (q "<w:trHeight w:val='400' />")
       (Constants.generateTable Examples.headers Examples.rows Examples.tallRows) = true
  /\ includes (q "<w:trHeight w:val='350' />")
       (Constants.generateTable Examples.headers Examples.rows Examples.tallRows) = true
  /\ includes (q "<w:jc w:val='left' />")
       (Constants.generateTable Examples.headers Examples.rows Examples.leftAligned) = false
  /\ includes (q "<w:top w:val='single' w:sz='8'")
       (Constants.generateTable Examples.headers Examples.rows Examples.thickBorders) = false
  /\ includes (q "<w:top w:val='single' w:sz='4'")
       (Constants.generateTable Examples.headers Examples.rows Examples.thickBorders) = true.
Proof. repeat split; vm_compute; reflexivity. Qed.

(** The part of the claim that holds: without a style the fragment has the
    documented defaults. *)
Example generateTable_defaults :
  let xml := Constants.generateTable Examples.headers Examples.rows
               (DocxGenerator.mergeStyle None) in
  includes (q "<w:trHeight w:val='400' />") xml = true
  /\ includes (q "<w:trHeight w:val='350' />") xml = true
  /\ includes (q "<w:jc w:val='center' />") xml = true
  /\ includes (q "<w:top w:val='single' w:sz='4'") xml = true.
Proof. repeat split; vm_compute; reflexivity. Qed.

(* ================================================================== *)
(** ** Escaping, character by character *)
(* ================================================================== *)

Lemma expand_app (f : ascii -> string) (a b : string) :
  expand f (a ++ b) = expand f a ++ expand f b.
Proof.
  induction a as [|c a IH]; simpl; [reflexivity|].
  now rewrite IH, app_assoc_s.
Qed.

Lemma expand_expand (f g : ascii -> string) (s : string) :
  expand g (expand f s) = expand (fun c => expand g (f c)) s.
Proof.
  induction s as [|c s IH]; simpl; [reflexivity|].
  now rewrite expand_app, IH.
Qed.

Lemma expand_ext (f g : ascii -> string) (s : string) :
  (forall c, f c = g c) -> expand f s = expand g s.
Proof. intros H. induction s as [|c s IH]; simpl; [reflexivity|]. now rewrite H, IH. Qed.

(** A global replacement of one character is a character-wise rewriting. *)
Lemma replaceGlobal_char (c : ascii) (e s : string) :
  plainTemplate e = true ->
  replaceGlobal (literal (String c "")) e s
  = expand (fun d => if (c =? d)%char then e else String d "") s.
Proof.
  intros He. unfold replaceGlobal.
  assert (H : forall before,
             replaceFrom (literal (String c "")) e before 0 s
             = expand (fun d => if (c =? d)%char then e else String d "") s);
    [|apply H].
  induction s as [|d s IH]; intros before; [reflexivity|].
  cbn [replaceFrom expand]. unfold literal. cbn [startsWith].
  destruct (c =? d)%char; cbn [andb String.length].
  - unfold substituted. rewrite getSubstitution_plain by exact He.
    now rewrite IH.
  - now rewrite IH.
Qed.

Lemma escape_chain (text : string) :
  replaceGlobal (literal "'") "&apos;"
    (replaceGlobal (literal (String dquote "")) "&quot;"
       (replaceGlobal (literal ">") "&gt;"
          (replaceGlobal (literal "<") "&lt;"
             (replaceGlobal (literal "&") "&amp;" text))))
  = expand escapeChar text.
Proof.
  rewrite !replaceGlobal_char by reflexivity.
  rewrite !expand_expand. apply expand_ext. intros c. unfold escapeChar.
  destruct (Ascii.eqb_spec c "&") as [->|H1]; [reflexivity|].
  destruct (Ascii.eqb_spec c "<") as [->|H2]; [reflexivity|].
  destruct (Ascii.eqb_spec c ">") as [->|H3]; [reflexivity|].
  destruct (Ascii.eqb_spec c dquote) as [->|H4]; [reflexivity|].
  destruct (Ascii.eqb_spec c "'") as [->|H5]; [reflexivity|].
  apply Ascii.eqb_neq in H1, H2, H3, H4, H5.
  rewrite (Ascii.eqb_sym c) in H1, H2, H3, H4, H5.
  cbn [expand]. rewrite H1. cbn [expand append]. rewrite H2.
  cbn [expand append]. rewrite H3. cbn [expand append]. rewrite H4.
  cbn [expand append]. rewrite H5. reflexivity.
Qed.

Lemma escapeForXml_expand (text : string) :
  StringUtils.escapeForXml text = expand escapeChar text.
Proof.
  unfold StringUtils.escapeForXml.
  destruct (String.eqb_spec text "") as [->|_]; [reflexivity | apply escape_chain].
Qed.

Lemma escapeXml_expand (text : string) :
  Constants.escapeXml text = expand escapeChar text.
Proof.
  unfold Constants.escapeXml.
  destruct (String.eqb_spec text "") as [->|_]; [reflexivity | apply escape_chain].
Qed.

Lemma hasChar_app (c : ascii) (a b : string) :
  hasChar c (a ++ b) = hasChar c a || hasChar c b.
Proof. induction a as [|d a IH]; simpl; [reflexivity|]. now rewrite IH, orb_assoc. Qed.

(** Escaped text has no angle bracket, no double quote and no apostrophe. *)
Lemma escaped_has_no (c : ascii) (text : string) :
  hasChar c (String "<" (String ">" (String dquote "'"))) = true ->
  hasChar c (expand escapeChar text) = false.
Proof.
  intros Hc. induction text as [|d text IH]; [reflexivity|].
  cbn [expand]. rewrite hasChar_app, IH, orb_false_r.
  unfold escapeChar.
  repeat match goal with
         | |- context [(d =? ?x)%char] =>
             destruct (Ascii.eqb_spec d x) as [->|?];
             [ cbn [hasChar] in Hc |- *;
               repeat (apply orb_true_iff in Hc as [Hc|Hc]);
               try discriminate Hc;
               apply Ascii.eqb_eq in Hc; subst c; reflexivity |]
         end.
  cbn [hasChar] in *. rewrite orb_false_r in *.
  repeat (apply orb_true_iff in Hc as [Hc|Hc]);
    apply Ascii.eqb_eq in Hc; subst c; now apply Ascii.eqb_neq, not_eq_sym.
Qed.

(* ================================================================== *)
(** ** Counting occurrences in assembled markup *)
(* ================================================================== *)

Lemma clash_startsWith (p t x : string) :
  clash p t = true -> startsWith p (t ++ x) = false.
Proof.
  revert t; induction p as [|a p IH]; intros [|b t]; simpl; try discriminate.
  intros H. destruct (a =? b)%char; simpl in *; [now apply IH | reflexivity].
Qed.

Lemma occurrences_decided (a : ascii) (p' l x : string) :
  decided (String a p') l = true ->
  occurrences (String a p') (l ++ x)
  = occurrences (String a p') l + occurrences (String a p') x.
Proof.
  set (p := String a p').
  induction l as [|c l IH]; intros H; [reflexivity|].
  cbn [decided] in H. apply andb_true_iff in H as [H1 H2].
  change (String c l ++ x) with (String c (l ++ x)).
  cbn [occurrences]. rewrite (IH H2).
  change (String c (l ++ x)) with (String c l ++ x).
  apply orb_true_iff in H1 as [H1|H1].
  - rewrite H1, (startsWith_app_l _ _ x H1). lia.
  - rewrite (clash_startsWith _ _ x H1).
    destruct (startsWith p (String c l)) eqn:E; [|lia].
    apply (startsWith_app_l _ _ "") in E. rewrite (clash_startsWith _ _ _ H1) in E.
    discriminate.
Qed.

Lemma occurrences_apart (a : ascii) (p v l r : string) :
  apart (String a p) l = true ->
  occurrences (String a p) (v ++ l ++ r)
  = occurrences (String a p) v + occurrences (String a p) (l ++ r).
Proof.
  destruct l as [|c l]; [discriminate|]. unfold apart. intros H.
  apply negb_true_iff in H.
  change (String c l ++ r) with (String c (l ++ r)).
  rewrite occurrences_cut by exact H.
  cbn [occurrences startsWith]. simpl in H. apply orb_false_iff in H as [H _].
  rewrite Ascii.eqb_sym, H. reflexivity.
Qed.

Lemma occurrences_skip (a : ascii) (p v r : string) :
  hasChar a v = false ->
  occurrences (String a p) (v ++ r) = occurrences (String a p) r.
Proof.
  induction v as [|c v IH]; [reflexivity|].
  simpl. intros H. apply orb_false_iff in H as [H1 H2].
  rewrite H1. simpl. now apply IH.
Qed.

Lemma occurrences_absent (a : ascii) (p v : string) :
  hasChar a v = false -> occurrences (String a p) v = 0.
Proof.
  intros H. rewrite <- (app_empty_r v). now rewrite occurrences_skip.
Qed.

Lemma string_of_uint_chars (c : ascii) (d : uint) :
  hasChar c "0123456789" = false ->
  hasChar c (NilEmpty.string_of_uint d) = false.
Proof.
  intros H. cbn [hasChar] in H.
  repeat (apply orb_false_iff in H as [? H]).
  induction d; cbn [NilEmpty.string_of_uint hasChar]; rewrite ?IHd, ?orb_false_r;
    try reflexivity; assumption.
Qed.

(** The decimal form of an integer has digits and at most a minus sign. *)
Lemma ofZ_chars (c : ascii) (z : Z) :
  hasChar c "-0123456789" = false -> hasChar c (ofZ z) = false.
Proof.
  intros H. cbn [hasChar] in H. apply orb_false_iff in H as [Hm H].
  unfold ofZ. destruct (Z.to_int z); cbn [NilEmpty.string_of_int hasChar].
  - now apply string_of_uint_chars.
  - rewrite Hm. now apply string_of_uint_chars.
Qed.

Lemma ofNat_chars (c : ascii) (n : nat) :
  hasChar c "0123456789" = false -> hasChar c (ofNat n) = false.
Proof. intros H. now apply string_of_uint_chars. Qed.

Lemma join_cons (x : string) (l : list string) : join (x :: l) = x ++ join l.
Proof.
  unfold join. destruct l as [|y l]; simpl; [now rewrite app_empty_r | reflexivity].
Qed.

Ltac eval_q :=
  repeat match goal with
         | |- context [q ?l] =>
             let v := eval vm_compute in (q l) in change (q l) with v
         end.

Ltac count_literals :=
  repeat match goal with
         | |- context [occurrences ?p (q ?l)] =>
             let n := eval vm_compute in (occurrences p (q l)) in
             change (occurrences p (q l)) with n
         end.

Ltac count_pieces :=
  repeat first
    [ rewrite occurrences_decided by (vm_compute; reflexivity)
    | rewrite occurrences_skip by
        (first [ apply ofZ_chars; reflexivity
               | rewrite escapeXml_expand; apply escaped_has_no; reflexivity ])
    | rewrite occurrences_apart by (vm_compute; reflexivity) ].

(** A data cell brings one cell element, whatever its text and width, as long
    as the font family does not itself contain the cell tag. *)
Lemma dataCell_count (widths : list Z) (style : Constants.Style)
  (index : nat) (cell rest : string) :
  includes "<w:tc>" (Constants.fontFamily style) = false ->
  cellCount (Constants.dataCell widths style index cell ++ rest)
  = 1 + cellCount rest.
Proof.
  intros Hf. apply includes_occurrences in Hf.
  unfold cellCount, Constants.dataCell.
  rewrite !app_assoc_s.
  count_pieces. count_literals.
  rewrite Hf. reflexivity.
Qed.

Lemma dataCells_count (widths : list Z) (style : Constants.Style)
  (cells : list string) (rest : string) :
  includes "<w:tc>" (Constants.fontFamily style) = false ->
  forall index,
    cellCount (join (Constants.mapi (Constants.dataCell widths style) index cells) ++ rest)
    = List.length cells + cellCount rest.
Proof.
  intros Hf. induction cells as [|cell cells IH]; intros index; [reflexivity|].
  cbn [Constants.mapi]. rewrite join_cons, app_assoc_s.
  rewrite dataCell_count by exact Hf. rewrite IH. reflexivity.
Qed.

(** C4, as stated, fails when a row has more cells than there are columns:
    with one column, a row of two cells renders two cell elements. *)
Lemma generateTableDataRow_keeps_extra_cells :
  cellCount (Constants.generateTableDataRow ["a"; "b"] [2000%Z]
               Constants.DEFAULT_TABLE_STYLE)
  <> Nat.min (List.length ["a"; "b"]) (List.length [2000%Z]).
Proof. vm_compute. discriminate. Qed.

(** C4, amended.  A data row renders one cell element per cell of the row,
    whatever the number of columns: fewer cells than columns give that many
    cells and no padding cell, more cells than columns are all rendered.
    The count is of the tag [<w:tc>], for a style whose font family does not
    itself contain that tag. *)
Theorem generateTableDataRow_cell_count (cells : list string) (widths : list Z)
  (style : Constants.Style) :
  includes "<w:tc>" (Constants.fontFamily style) = false ->
  cellCount (Constants.generateTableDataRow cells widths style)
  = List.length cells.
Proof.
  intros Hf. unfold Constants.generateTableDataRow.
  unfold cellCount at 1. rewrite occurrences_decided by (vm_compute; reflexivity).
  fold (cellCount (join (Constants.mapi (Constants.dataCell widths style) 0 cells)
                   ++ q "
    </w:tr>
  ")).
  rewrite dataCells_count by exact Hf.
  unfold cellCount. count_literals. lia.
Qed.

Lemma generateTableDataRow_cell_count_witness :
  includes "<w:tc>" (Constants.fontFamily Constants.DEFAULT_TABLE_STYLE) = false
  /\ cellCount (Constants.generateTableDataRow ["Pens"; "10"]
                  [2000%Z; 2000%Z; 2000%Z] Constants.DEFAULT_TABLE_STYLE)
     = List.length ["Pens"; "10"].
Proof.
  split; [reflexivity|].
  apply (generateTableDataRow_cell_count ["Pens"; "10"] [2000%Z; 2000%Z; 2000%Z]
           Constants.DEFAULT_TABLE_STYLE).
  reflexivity.
Defined.

(** In a table every row is rendered by [generateTableDataRow] with the
    widths of the columns; the extra cells get the fallback width. *)
Example generateTable_extra_cell_width :
  includes (q "<w:tcW w:w='2000' w:type='dxa' />")
    (Constants.generateTableDataRow ["a"; "b"] [1000%Z]
       Constants.DEFAULT_TABLE_STYLE) = true.
Proof. vm_compute. reflexivity. Qed.

(* ================================================================== *)
(** ** Replacing the single occurrence of a text *)
(* ================================================================== *)

Lemma startsWith_short (p s : string) :
  String.length s < String.length p -> startsWith p s = false.
Proof.
  revert s; induction p as [|a p IH]; intros [|b s]; simpl; intros H;
    try reflexivity; try lia.
  rewrite IH by lia. apply andb_false_r.
Qed.

Lemma occurrences_short (p s : string) :
  String.length s < String.length p -> occurrences p s = 0.
Proof.
  induction s as [|c s IH]; intros H.
  - simpl. now rewrite startsWith_short.
  - cbn [occurrences]. rewrite startsWith_short by exact H.
    rewrite IH; [reflexivity | simpl in H; lia].
Qed.

Lemma occurrences_self (a : ascii) (p : string) :
  occurrences (String a p) (String a p) = 1.
Proof.
  cbn [occurrences].
  rewrite <- (app_empty_r (String a p)) at 2. rewrite startsWith_refl_app.
  rewrite occurrences_short; [reflexivity | simpl; lia].
Qed.

Lemma occurrences_app_r_le (p a b : string) :
  occurrences p b <= occurrences p (a ++ b).
Proof. induction a as [|c a IH]; simpl; lia. Qed.

Lemma includes_split (p s : string) :
  includes p s = true -> exists a b, s = a ++ p ++ b.
Proof.
  induction s as [|c s IH]; simpl; intros H.
  - rewrite orb_false_r in H. apply startsWith_empty in H. subst p.
    now exists "", "".
  - apply orb_true_iff in H as [H|H].
    + apply startsWith_take in H. exists "". eexists. exact H.
    + destruct (IH H) as (a & b & ->). now exists (String c a), b.
Qed.

Section ReplaceSingle.
Variable matcher : string -> option nat.
Variable replacement : string.

(** Stepping over the characters of a match. *)
Lemma replaceFrom_skip (u b before : string) :
  replaceFrom matcher replacement before (String.length u) (u ++ b)
  = replaceFrom matcher replacement (before ++ u) 0 b.
Proof.
  revert before; induction u as [|c u IH]; intros before.
  - simpl. now rewrite app_empty_r.
  - cbn [String.length append replaceFrom]. rewrite IH.
    now rewrite app_assoc_s.
Qed.

End ReplaceSingle.

Lemma replaceFrom_single (t0 : ascii) (t' n a b before : string) :
  plainTemplate n = true ->
  occurrences (String t0 t') (a ++ String t0 t' ++ b) = 1 ->
  replaceFrom (literal (String t0 t')) n before 0 (a ++ String t0 t' ++ b)
  = a ++ n ++ b.
Proof.
  intros Hn. set (t := String t0 t').
  revert before; induction a as [|c a IH]; intros before H.
  - cbn [append] in *.
    assert (E : literal t (t ++ b) = Some (String.length t))
      by (unfold literal; now rewrite startsWith_refl_app).
    unfold t at 2. cbn [append replaceFrom].
    change (String t0 (t' ++ b)) with (t ++ b). rewrite E.
    unfold substituted. rewrite getSubstitution_plain by exact Hn.
    f_equal. unfold t at 1 3. cbn [String.length append].
    rewrite replaceFrom_skip.
    apply replaceFrom_nowhere. rewrite matchesNowhere_literal.
    apply negb_true_iff, includes_occurrences.
    pose proof (occurrences_app_r_le (String t0 t') t' b) as Hle.
    unfold t in H. cbn [append occurrences] in H.
    change (String t0 (t' ++ b)) with (String t0 t' ++ b) in H.
    rewrite startsWith_refl_app in H. cbn [append] in H. lia.
  - cbn [append occurrences] in H. cbn [append replaceFrom].
    assert (Hin : occurrences t (a ++ t ++ b) <> 0).
    { intros E. apply includes_occurrences in E.
      now rewrite includes_middle in E. }
    unfold literal at 1.
    destruct (startsWith t (String c (a ++ t ++ b))); [lia|].
    f_equal. apply IH. lia.
Qed.

(** With one occurrence of the text and a plain replacement, [replaceAll]
    puts the replacement where the occurrence was. *)
Lemma replaceAll_single (search replacement a b : string) :
  search <> "" ->
  plainTemplate replacement = true ->
  occurrences search (a ++ search ++ b) = 1 ->
  StringUtils.replaceAll (a ++ search ++ b) search replacement
  = a ++ replacement ++ b.
Proof.
  intros Hs Hn H. destruct search as [|t0 t']; [now elim Hs|].
  apply replaceFrom_single; assumption.
Qed.

Lemma plainTemplate_no_dollar (t : string) :
  hasChar "$" t = false -> plainTemplate t = true.
Proof.
  induction t as [|c t IH]; [reflexivity|].
  cbn [hasChar plainTemplate]. intros H. apply orb_false_iff in H as [H1 H2].
  rewrite Ascii.eqb_sym, H1. now apply IH.
Qed.

(* ================================================================== *)
(** ** Content types: one declaration per extension *)
(* ================================================================== *)

Import XmlUtils.

Lemma plainTemplate_skip (l x : string) :
  hasChar "$" l = false -> plainTemplate (l ++ x) = plainTemplate x.
Proof.
  induction l as [|c l IH]; [reflexivity|].
  cbn [hasChar append plainTemplate]. intros H.
  apply orb_false_iff in H as [H1 H2].
  rewrite Ascii.eqb_sym, H1. now apply IH.
Qed.

Lemma plainTemplate_app (s t : string) :
  plainTemplate s = true -> plainTemplate t = true ->
  match t with "" => true | String d _ => negb (hasChar d "$&`'") end = true ->
  plainTemplate (s ++ t) = true.
Proof.
  intros Hs Ht Hd. induction s as [|c s IH]; [exact Ht|].
  cbn [plainTemplate append] in *. apply andb_true_iff in Hs as [H1 H2].
  rewrite (IH H2), andb_true_r.
  destruct (c =? "$")%char; [|reflexivity].
  destruct s as [|d s]; [|exact H1]. exact Hd.
Qed.

(** A lower-case character: [toLowerCase] leaves it as it is. *)
Lemma lowerChar_idem (c : ascii) : lowerChar (lowerChar c) = lowerChar c.
Proof. destruct c as [[] [] [] [] [] [] [] []]; vm_compute; reflexivity. Qed.

Lemma toLowerCase_lower (s : string) :
  allChars (fun c => (lowerChar c =? c)%char) (toLowerCase s) = true.
Proof.
  induction s as [|c s IH]; [reflexivity|].
  cbn [toLowerCase allChars]. now rewrite lowerChar_idem, Ascii.eqb_refl.
Qed.

Lemma lower_toLowerCase (s : string) :
  allChars (fun c => (lowerChar c =? c)%char) s = true -> toLowerCase s = s.
Proof.
  induction s as [|c s IH]; [reflexivity|].
  cbn [allChars toLowerCase]. intros H. apply andb_true_iff in H as [H1 H2].
  apply Ascii.eqb_eq in H1. now rewrite H1, IH.
Qed.

(** Removing the first occurrence of a character keeps what holds of every
    character. *)
Lemma replaceFirstFrom_allChars (P : ascii -> bool) (x : ascii) (t : string) :
  forall before,
    allChars P t = true ->
    allChars P (replaceFirstFrom (String x "") "" before t) = true.
Proof.
  induction t as [|c t IH]; intros before H; [reflexivity|].
  cbn [allChars] in H. apply andb_true_iff in H as [H1 H2].
  cbn [replaceFirstFrom startsWith]. destruct (x =? c)%char; cbn [andb].
  - exact H2.
  - cbn [allChars]. now rewrite H1, IH.
Qed.

Lemma hasChar_allChars (P : ascii -> bool) (x : ascii) (s : string) :
  P x = false -> allChars P s = true -> hasChar x s = false.
Proof.
  intros Hx. induction s as [|c s IH]; [reflexivity|].
  cbn [allChars hasChar]. intros H. apply andb_true_iff in H as [H1 H2].
  rewrite (IH H2), orb_false_r.
  destruct (Ascii.eqb_spec x c) as [->|]; [congruence | reflexivity].
Qed.

(** Of the properties of [Object.prototype], a key in lower case can only
    find the two whose names are in lower case. *)
Lemma objectPrototype_lower (key : string) :
  allChars (fun c => (lowerChar c =? c)%char) key = true ->
  objectPrototype key
  = if key =? "constructor" then Some (Builtin "Object")
    else if key =? "__proto__" then Some ObjectPrototype
    else None.
Proof.
  intros H. unfold objectPrototype.
  destruct (key =? "constructor"); [reflexivity|].
  destruct (key =? "__proto__"); [reflexivity|].
  cbn [arrayIncludes].
  repeat match goal with
         | |- context [(key =? ?n)] =>
             destruct (String.eqb_spec key n) as [E|_];
             [rewrite E in H; vm_compute in H; discriminate H|]
         end.
  reflexivity.
Qed.

(** The key [getImageContentType] looks up is in lower case. *)
Lemma contentTypeKey_lower (e : string) :
  allChars (fun c => (lowerChar c =? c)%char)
           (replaceFirst "." "" (toLowerCase e)) = true.
Proof. apply replaceFirstFrom_allChars, toLowerCase_lower. Qed.

(** What [getImageContentType] can return: one of the five image types, or,
    for the keys [constructor] and [__proto__], what the table inherits. *)
Lemma getImageContentType_values (e : string) :
  In (getImageContentType e)
     [ Text "image/png"; Text "image/jpeg"; Text "image/gif"; Text "image/bmp";
       Text "image/webp"; Builtin "Object"; ObjectPrototype ].
Proof.
  unfold getImageContentType, getProperty. cbv zeta.
  rewrite (objectPrototype_lower _ (contentTypeKey_lower e)).
  unfold IMAGE_CONTENT_TYPES. cbn [lookup].
  repeat match goal with
         | |- context [if ?b then _ else _] =>
             lazymatch b with
             | true => fail
             | false => fail
             | _ => destruct b
             end
         end; simpl; tauto.
Qed.

Lemma getImageContentType_chars (c : ascii) (e : string) :
  hasChar c "image/pnjfbw uctoO(){[vd]}" = false ->
  hasChar c (toString (getImageContentType e)) = false.
Proof.
  intros H. pose proof (getImageContentType_values e) as Hin.
  cbn [hasChar] in H. repeat (apply orb_false_iff in H as [? H]).
  cbn [In] in Hin.
  repeat (destruct Hin as [<-|Hin]); try (now elim Hin);
    cbn [toString append hasChar];
    repeat match goal with E : (_ =? _)%char = false |- _ => rewrite E; clear E end;
    reflexivity.
Qed.

Lemma setOf_seen (e : string) (l : list string) :
  Forall (fun x => x = e) l -> setOf [e] l = [].
Proof.
  induction 1 as [|x l -> _ IH]; [reflexivity|].
  cbn [setOf arrayIncludes]. now rewrite String.eqb_refl.
Qed.

(** A set built from copies of one value has that value once. *)
Lemma setOf_same (e : string) (l : list string) :
  l <> [] -> Forall (fun x => x = e) l -> setOf [] l = [e].
Proof.
  intros Hne H. destruct H as [|x l -> H]; [now elim Hne|].
  cbn [setOf arrayIncludes]. now rewrite setOf_seen.
Qed.

Lemma extensionAttr_head (e : string) :
  extensionAttr e = String "E" (q "xtension='" ++ e ++ q "'").
Proof. reflexivity. Qed.

Lemma extensionAttr_chars (c : ascii) (e : string) :
  hasChar c (q "Extension='") = false -> hasChar c e = false ->
  hasChar c (extensionAttr e) = false.
Proof.
  intros H1 H2. unfold extensionAttr. rewrite !hasChar_app, H1, H2.
  cbn [hasChar q] in *. rewrite orb_false_r in *.
  cbn [orb]. repeat (apply orb_false_iff in H1 as [? H1]). assumption.
Qed.

Lemma addContentType_declared (xml e c : string) :
  includes (extensionAttr e) xml = true -> addContentType xml e c = xml.
Proof. intros H. unfold addContentType. now rewrite H. Qed.

Lemma occurrences_app_l_le (p u x : string) :
  occurrences p u <= occurrences p (u ++ x).
Proof.
  induction u as [|c u IH].
  - cbn [append occurrences]. destruct (startsWith p "") eqn:E; [|lia].
    apply startsWith_empty in E. subst p. destruct x; cbn; lia.
  - cbn [append occurrences].
    destruct (startsWith p (String c u)) eqn:E; [|lia].
    change (String c (u ++ x)) with (String c u ++ x).
    rewrite (startsWith_app_l _ _ x E). lia.
Qed.

(** The text a lower-case extension leaves no room for: neither of the
    capitals of [<Default Extension=]. *)
Lemma lower_lacks_capitals (e : string) :
  toLowerCase e = e -> hasChar "D" e = false /\ hasChar "E" e = false.
Proof.
  intros H. pose proof (toLowerCase_lower e) as Hl. rewrite H in Hl.
  split;
    [ apply (hasChar_allChars (fun c => (lowerChar c =? c)%char) "D" _ eq_refl Hl)
    | apply (hasChar_allChars (fun c => (lowerChar c =? c)%char) "E" _ eq_refl Hl) ].
Qed.

(** The replacement text of [addContentType] has no live dollar pattern when
    the extension and the content type have none. *)
Lemma newType_plain (e c : string) :
  plainTemplate e = true -> hasChar "$" c = false ->
  plainTemplate
    ((q "<Default Extension='" ++ e ++ q "' ContentType='" ++ c ++ q "' />")
     ++ String "010" "" ++ "</Types>") = true.
Proof.
  intros He Hc. rewrite !app_assoc_s.
  rewrite plainTemplate_skip by reflexivity.
  apply plainTemplate_app; [exact He | | reflexivity].
  apply plainTemplate_no_dollar. rewrite !hasChar_app, Hc. reflexivity.
Qed.

(** Into a registry with one closing tag and no declaration of the extension,
    [addContentType] puts exactly one. *)
Lemma addContentType_adds_one (xml e c : string) :
  toLowerCase e = e ->
  plainTemplate e = true ->
  hasChar "$" c = false -> hasChar "E" c = false ->
  occurrences "</Types>" xml = 1 ->
  includes (extensionAttr e) xml = false ->
  occurrences (extensionAttr e) (addContentType xml e c) = 1.
Proof.
  intros Hlow Hplain Hc1 Hc2 Hone Hno.
  destruct (lower_lacks_capitals e Hlow) as [HD HE].
  assert (Hin : includes "</Types>" xml = true).
  { destruct (includes "</Types>" xml) eqn:E; [reflexivity|].
    apply includes_occurrences in E. lia. }
  destruct (includes_split _ _ Hin) as (a & b & ->).
  unfold addContentType. rewrite Hno.
  rewrite replaceAll_single;
    [| discriminate | now apply newType_plain | exact Hone].
  apply includes_occurrences in Hno.
  assert (HDattr : hasChar "D" (extensionAttr e) = false)
    by (now apply extensionAttr_chars).
  set (tail := q " ContentType='" ++ c ++ q "' />" ++ String "010" "</Types>").
  assert (Htail : hasChar "E" tail = false)
    by (unfold tail; rewrite !hasChar_app, Hc2; reflexivity).
  assert (Hshape :
            a ++ ((q "<Default Extension='" ++ e ++ q "' ContentType='" ++ c
                   ++ q "' />") ++ String "010" "" ++ "</Types>") ++ b
            = (a ++ "<") ++ String "D" ("efault " ++ extensionAttr e ++ tail ++ b)).
  { unfold tail, extensionAttr. eval_q.
    rewrite !app_assoc_s. cbn [append]. rewrite ?app_assoc_s. reflexivity. }
  rewrite Hshape. clear Hshape.
  rewrite (occurrences_cut _ _ _ "D" HDattr).
  assert (Ha : occurrences (extensionAttr e) (a ++ "<") = 0).
  { pose proof (occurrences_app_l_le (extensionAttr e) (a ++ "<") ("/Types>" ++ b)) as Hle.
    rewrite app_assoc_s in Hle.
    change ("<" ++ "/Types>" ++ b) with ("</Types>" ++ b) in Hle. lia. }
  assert (Hb : occurrences (extensionAttr e) b = 0).
  { pose proof (occurrences_app_r_le (extensionAttr e) (a ++ "</Types>") b) as Hle.
    rewrite app_assoc_s in Hle. lia. }
  rewrite Ha. rewrite extensionAttr_head in *.
  set (p' := q "xtension='" ++ e ++ q "'") in *.
  assert (Hp' : hasChar "E" p' = false)
    by (unfold p'; rewrite !hasChar_app, HE; reflexivity).
  rewrite (occurrences_skip "E" p' "efault " _ eq_refl).
  change (String "E" p' ++ tail ++ b) with (String "E" (p' ++ tail ++ b)).
  cbn [occurrences].
  change (String "E" (p' ++ tail ++ b)) with (String "E" p' ++ tail ++ b).
  rewrite startsWith_refl_app.
  rewrite (occurrences_skip "E" p' p' _ Hp').
  rewrite (occurrences_skip "E" p' tail _ Htail).
  rewrite Hb. reflexivity.
Qed.

Lemma updateContentTypes_same (xml e : string) (images : list PreparedImage) :
  images <> [] ->
  Forall (fun image => p_extension image = e) images ->
  DocxGenerator.updateContentTypes xml images
  = addContentType xml e (toString (getImageContentType e)).
Proof.
  intros Hne Hall. unfold DocxGenerator.updateContentTypes.
  rewrite (setOf_same e); [reflexivity | |].
  - destruct images; [now elim Hne | discriminate].
  - clear Hne. induction Hall; simpl; constructor; assumption.
Qed.

(** C9, as stated, fails for registry texts that the guard and the
    replacement of the closing tag do not serve.  A registry that already
    declares [png] twice keeps both declarations, and a registry whose
    closing tag is spelt [</Types >] gets no declaration at all: in neither
    does registering two [png] images leave exactly one declaration. *)
Lemma addContentType_not_always_one :
  occurrences (extensionAttr "png")
    (DocxGenerator.updateContentTypes Examples.declaredTwice
       [Examples.pngImage 0; Examples.pngImage 1]) = 2
  /\ occurrences (extensionAttr "png")
       (DocxGenerator.updateContentTypes Examples.spacedClosingTag
          [Examples.pngImage 0; Examples.pngImage 1]) = 0.
Proof. split; vm_compute; reflexivity. Qed.

(** C9, amended.  Adding a declaration for an extension that is already
    declared returns the registry text unchanged, whatever the text.  For a
    registry text with exactly one closing tag [</Types>] and at most one
    declaration of the extension, registering one or more images that share
    the extension leaves exactly one declaration of it, and any further
    registration of the extension changes nothing.  The extension is in lower
    case, as [getImageExtension] gives it, and has no live dollar pattern. *)
Theorem addContentType_once (xml e : string) (images : list PreparedImage) :
  toLowerCase e = e ->
  plainTemplate e = true ->
  occurrences "</Types>" xml = 1 ->
  occurrences (extensionAttr e) xml <= 1 ->
  images <> [] ->
  Forall (fun image => p_extension image = e) images ->
  (forall xml' c, includes (extensionAttr e) xml' = true ->
                  addContentType xml' e c = xml')
  /\ occurrences (extensionAttr e) (DocxGenerator.updateContentTypes xml images) = 1
  /\ (forall c, addContentType (DocxGenerator.updateContentTypes xml images) e c
                = DocxGenerator.updateContentTypes xml images).
Proof.
  intros Hlow Hplain Hone Hle Hne Hall.
  split; [intros xml' c; apply addContentType_declared|].
  rewrite (updateContentTypes_same xml e images Hne Hall).
  assert (Hcount : occurrences (extensionAttr e)
                     (addContentType xml e (toString (getImageContentType e))) = 1).
  { destruct (includes (extensionAttr e) xml) eqn:E.
    - rewrite addContentType_declared by exact E.
      destruct (occurrences (extensionAttr e) xml) as [|[|n]] eqn:En; [|reflexivity|lia].
      apply includes_occurrences in En. congruence.
    - apply addContentType_adds_one; try assumption;
        now apply getImageContentType_chars. }
  split; [exact Hcount|].
  intros c. apply addContentType_declared.
  destruct (includes (extensionAttr e) _) eqn:E; [reflexivity|].
  apply includes_occurrences in E. lia.
Qed.

Lemma addContentType_once_witness :
  toLowerCase "png" = "png"
  /\ plainTemplate "png" = true
  /\ occurrences "</Types>" Examples.registry = 1
  /\ occurrences (extensionAttr "png") Examples.registry <= 1
  /\ occurrences (extensionAttr "png")
       (DocxGenerator.updateContentTypes Examples.registry
          [Examples.pngImage 0; Examples.pngImage 1]) = 1.
Proof.
  split; [reflexivity|]. split; [reflexivity|]. split; [reflexivity|].
  split; [vm_compute; lia|].
  apply (addContentType_once Examples.registry "png"
           [Examples.pngImage 0; Examples.pngImage 1]).
  - reflexivity.
  - reflexivity.
  - reflexivity.
  - vm_compute. lia.
  - discriminate.
  - repeat constructor.
Defined.

(** Why the extension is taken in lower case: with capitals it can spell the
    start of the declaration itself, and then the text before the closing
    tag and the new declaration make up a second occurrence. *)
Example addContentType_capitals :
  occurrences "</Types>" (q "<Types>Extension='u</Types>") = 1
  /\ occurrences (extensionAttr "u<Default Extension=")
       (q "<Types>Extension='u</Types>") = 0
  /\ occurrences (extensionAttr "u<Default Extension=")
       (addContentType (q "<Types>Extension='u</Types>")
          "u<Default Extension=" "image/png") = 2.
Proof. repeat split; vm_compute; reflexivity. Qed.

(** What the amendment leaves out: the declaration is written through
    [replaceAll], which reads it as a replacement pattern.  The extension
    [$$$] is declared as [$$], so the guard does not see it and a second
    registration adds a second declaration.  The inherited properties of the
    table reach the registry as the text of a function. *)
Example addContentType_dollar_pattern :
  addContentType "<Types></Types>" "$$$" "image/png"
  = q "<Types><Default Extension='$$' ContentType='image/png' />"
      ++ String "010" "</Types>"
  /\ includes (extensionAttr "$$$")
       (addContentType "<Types></Types>" "$$$" "image/png") = false
  /\ occurrences (q "Extension='$$'")
       (addContentType (addContentType "<Types></Types>" "$$$" "image/png")
          "$$$" "image/png") = 2
  /\ toString (getImageContentType "constructor")
     = "function Object() { [native code] }".
Proof. repeat split; vm_compute; reflexivity. Qed.

(** The unit test "should not duplicate existing extension". *)
Example addContentType_existing_png :
  let xml := q "<Types><Default Extension='png' ContentType='image/png'/></Types>" in
  addContentType xml "png" "image/png" = xml.
Proof. reflexivity. Qed.

(* ================================================================== *)
(** ** Plain replacement texts *)
(* ================================================================== *)

Lemma plainTemplate_run (safeValue : string) :
  plainTemplate safeValue = true ->
  plainTemplate ("<w:t>" ++ safeValue ++ "</w:t>") = true.
Proof.
  intros H. rewrite plainTemplate_skip by reflexivity.
  now apply plainTemplate_app.
Qed.

Lemma escapeChar_no_dollar (c : ascii) :
  (c =? "$")%char = false -> hasChar "$" (escapeChar c) = false.
Proof.
  intros H. unfold escapeChar.
  repeat match goal with
         | |- context [if ?b then _ else _] => destruct b; [reflexivity|]
         end.
  cbn [hasChar]. now rewrite Ascii.eqb_sym, H.
Qed.

(** The escaped form of a plain value is a plain replacement text. *)
Lemma plainValue_escaped (v : string) :
  plainValue v = true -> plainTemplate (StringUtils.escapeForXml v) = true.
Proof.
  rewrite escapeForXml_expand.
  induction v as [|c v IH]; [reflexivity|].
  cbn [plainValue expand]. intros H. apply andb_true_iff in H as [H1 H2].
  specialize (IH H2).
  destruct (c =? "$")%char eqn:Ec.
  - apply Ascii.eqb_eq in Ec. subst c.
    change (escapeChar "$") with "$". cbn [append plainTemplate Ascii.eqb Bool.eqb].
    rewrite IH, andb_true_r.
    destruct v as [|d v]; [reflexivity|].
    cbn [expand]. apply andb_true_iff in H1 as [H1 Hq].
    apply negb_true_iff in H1, Hq. cbn [hasChar] in H1.
    repeat (apply orb_false_iff in H1 as [? H1]).
    unfold escapeChar.
    repeat match goal with
           | E : (d =? ?z)%char = false |- context [(d =? ?z)%char] => rewrite E
           end.
    cbn [append hasChar].
    repeat match goal with
           | E : (d =? ?z)%char = false |- context [(d =? ?z)%char] => rewrite E
           end.
    reflexivity.
  - rewrite plainTemplate_skip; [exact IH | now apply escapeChar_no_dollar].
Qed.

(* ================================================================== *)
(** ** What a replacement cannot bring in *)
(* ================================================================== *)

Section ReplaceAddsNone.
Variable matcher : string -> option nat.
Variables x y : ascii.
Variable mid : string.
Let replacement : string := String x (mid ++ String y "").
Hypothesis plain : plainTemplate replacement = true.

(** A text without the first character of the replacement that starts the
    result of the scan starts the scanned text as well. *)
Lemma startsWith_replaced (p s before : string) :
  hasChar x p = false ->
  startsWith p (replaceFrom matcher replacement before 0 s) = true ->
  startsWith p s = true.
Proof.
  revert s before; induction p as [|a p IH]; intros s before Hx; [reflexivity|].
  cbn [hasChar] in Hx. apply orb_false_iff in Hx as [Hxa Hxp].
  destruct s as [|c s]; cbn [replaceFrom];
    (destruct (matcher _) as [n|];
     [ unfold substituted; rewrite getSubstitution_plain by exact plain;
       unfold replacement; cbn [append startsWith];
       rewrite Ascii.eqb_sym, Hxa; discriminate |]).
  - discriminate.
  - cbn [startsWith]. intros H. apply andb_true_iff in H as [H1 H2].
    rewrite H1. simpl. now apply (IH s (before ++ String c "")).
Qed.

Variable a : ascii.
Variable p' : string.
Let p : string := String a p'.
Hypothesis first_apart : hasChar x p = false.
Hypothesis last_apart : hasChar y p = false.
Hypothesis not_inside : includes p replacement = false.

Lemma includes_copied (c : ascii) (s before : string) :
  includes p (String c s) = false ->
  includes p (replaceFrom matcher replacement before 0 s) = false ->
  includes p (String c (replaceFrom matcher replacement before 0 s)) = false.
Proof.
  intros Hs Hr. cbn [includes]. rewrite Hr, orb_false_r.
  destruct (startsWith p (String c _)) eqn:E; [|reflexivity].
  unfold p in E. cbn [startsWith] in E. apply andb_true_iff in E as [E1 E2].
  apply startsWith_replaced in E2.
  - cbn [includes] in Hs. apply orb_false_iff in Hs as [Hs _].
    unfold p in Hs. cbn [startsWith] in Hs. now rewrite E1, E2 in Hs.
  - unfold p in first_apart. cbn [hasChar] in first_apart.
    now apply orb_false_iff in first_apart.
Qed.

Lemma includes_after_replacement (rest : string) :
  includes p rest = false -> includes p (replacement ++ rest) = false.
Proof.
  intros Hr. apply includes_occurrences. apply includes_occurrences in Hr.
  pose proof not_inside as Hn. apply includes_occurrences in Hn.
  unfold replacement in *. cbn [append occurrences] in *.
  rewrite app_assoc_s. cbn [append].
  unfold p in *. cbn [startsWith] in *.
  cbn [hasChar] in first_apart. apply orb_false_iff in first_apart as [Hxa _].
  assert (Hax : (a =? x)%char = false) by (now rewrite Ascii.eqb_sym).
  rewrite Hax in Hn |- *. cbn [andb] in *.
  rewrite occurrences_cut in Hn |- * by exact last_apart. lia.
Qed.

(** If the text does not occur in the input nor in the replacement, and
    cannot lie across an end of the replacement, it does not occur in the
    result. *)
Lemma includes_replaced (s : string) :
  includes p s = false ->
  forall before skip,
    includes p (replaceFrom matcher replacement before skip s) = false.
Proof.
  induction s as [|c s IH]; intros Hs before skip.
  - destruct skip; cbn [replaceFrom]; [|reflexivity].
    destruct (matcher ""); [|reflexivity].
    unfold substituted. rewrite getSubstitution_plain by exact plain.
    now rewrite app_empty_r.
  - pose proof (includes_cons _ _ _ Hs) as Hs'.
    destruct skip as [|k]; cbn [replaceFrom]; [|now apply IH].
    destruct (matcher (String c s)) as [n|].
    + unfold substituted. rewrite getSubstitution_plain by exact plain.
      apply includes_after_replacement.
      destruct n; [apply includes_copied; [exact Hs|] |]; now apply IH.
    + apply includes_copied; [exact Hs | now apply IH].
Qed.

End ReplaceAddsNone.

(* ================================================================== *)
(** ** Substituting a bracketed token *)
(* ================================================================== *)

Import RegExp.

Lemma includes_inside (p a s b : string) :
  includes p (a ++ s ++ b) = false -> includes p s = false.
Proof.
  intros H. destruct (includes p s) eqn:E; [|reflexivity].
  rewrite <- H. symmetry. now apply includes_app_r, includes_app_l.
Qed.

Lemma run_shape (safeValue : string) :
  "<w:t>" ++ safeValue ++ "</w:t>"
  = String "<" (("w:t>" ++ safeValue ++ "</w:t") ++ String ">" "").
Proof. cbn [append]. rewrite !app_assoc_s. reflexivity. Qed.

(** The token is not inside a replaced run when it is not inside the value. *)
Lemma token_not_in_run (safeValue : string) :
  includes "{{x}}" safeValue = false ->
  includes "{{x}}" ("<w:t>" ++ safeValue ++ "</w:t>") = false.
Proof.
  intros H. apply includes_occurrences. apply includes_occurrences in H.
  change ("<w:t>" ++ safeValue ++ "</w:t>")
    with ("<w:t" ++ String ">" (safeValue ++ String "<" "/w:t>")).
  rewrite !occurrences_cut by reflexivity. rewrite H. reflexivity.
Qed.

(** C2, as stated, fails when the value is itself the token: the token is
    replaced by the value, and the result has the literal again. *)
Lemma replacePlaceholder_token_as_value :
  occurrences "{{x}}" "{{x}}" = 1
  /\ ~ (exists result,
          StringUtils.replacePlaceholder "{{x}}" "x" "{{x}}" = Some result
          /\ includes (StringUtils.escapeForXml "{{x}}") result = true
          /\ includes "{{x}}" result = false).
Proof.
  split; [reflexivity|].
  intros (result & H & _ & Hno). vm_compute in H. injection H as <-.
  discriminate Hno.
Qed.

(** C2, amended.  For markup with exactly one occurrence of the token and a
    value without live dollar pattern, the result contains the escaped
    value; and it contains no literal token as long as putting the escaped
    value in place of the occurrence does not itself spell the token. *)
Theorem replacePlaceholder_single_token (a b v : string) :
  occurrences "{{x}}" (a ++ "{{x}}" ++ b) = 1 ->
  plainValue v = true ->
  exists result,
    StringUtils.replacePlaceholder (a ++ "{{x}}" ++ b) "x" v = Some result
    /\ includes (StringUtils.escapeForXml v) result = true
    /\ (includes "{{x}}" (a ++ StringUtils.escapeForXml v ++ b) = false ->
        includes "{{x}}" result = false).
Proof.
  intros Hone Hv.
  pose proof (plainValue_escaped v Hv) as Hplain.
  pose proof (plainTemplate_run _ Hplain) as Hrun.
  unfold StringUtils.replacePlaceholder, StringUtils.splitRunPass.
  set (safeValue := StringUtils.escapeForXml v) in *.
  change ("{{" ++ "x" ++ "}}") with "{{x}}".
  rewrite replaceAll_single; [| discriminate | exact Hplain | exact Hone].
  change (StringUtils.splitRunRegExp "x") with
    (Some (chars "<w:t" ++ [Star notGt; Chr ">"; Star isSpace]
           ++ StringUtils.placeholderPattern "x"
           ++ [Star isSpace] ++ chars "</w:t>")%list).
  eexists. split; [reflexivity|]. split.
  - apply replaceGlobal_keeps; [exact Hrun | apply includes_middle |].
    unfold StringUtils.replaceAll.
    apply replaceGlobal_keeps; [exact Hrun | apply includes_middle |].
    apply includes_middle.
  - intros Hno.
    pose proof (token_not_in_run _ (includes_inside _ _ _ _ Hno)) as Hin.
    rewrite run_shape in Hrun, Hin |- *.
    unfold replaceGlobal.
    apply includes_replaced; try assumption; try reflexivity.
    unfold StringUtils.replaceAll, replaceGlobal.
    apply includes_replaced; try assumption; reflexivity.
Qed.

Lemma replacePlaceholder_single_token_witness :
  occurrences "{{x}}" ("<w:p><w:t>Total: " ++ "{{x}}" ++ "</w:t></w:p>") = 1
  /\ plainValue "$100 & more" = true
  /\ exists result,
       StringUtils.replacePlaceholder
         ("<w:p><w:t>Total: " ++ "{{x}}" ++ "</w:t></w:p>") "x" "$100 & more"
       = Some result
       /\ includes (StringUtils.escapeForXml "$100 & more") result = true
       /\ (includes "{{x}}"
             ("<w:p><w:t>Total: " ++ StringUtils.escapeForXml "$100 & more"
              ++ "</w:t></w:p>") = false ->
           includes "{{x}}" result = false).
Proof.
  split; [reflexivity|]. split; [reflexivity|].
  apply (replacePlaceholder_single_token "<w:p><w:t>Total: " "</w:t></w:p>"
           "$100 & more"); reflexivity.
Defined.

(** What the amendment leaves out: a value with a live dollar pattern is not
    inserted as it is.  The escaped value of [$&] starts with the pattern for
    the matched text, so the token comes back. *)
Example replacePlaceholder_dollar_pattern :
  StringUtils.replacePlaceholder "{{x}}" "x" "$&" = Some "{{x}}amp;"
  /\ StringUtils.escapeForXml "$&" = "$&amp;".
Proof. split; reflexivity. Qed.

(** The token also comes back when the value completes braces that are
    already in the markup. *)
Example replacePlaceholder_completed_token :
  occurrences "{{x}}" "{{{{x}}}}" = 1
  /\ StringUtils.replacePlaceholder "{{{{x}}}}" "x" "x" = Some "{{x}}".
Proof. split; reflexivity. Qed.

(* ================================================================== *)
(** ** Characters under the [i] flag *)
(* ================================================================== *)

Ltac each_char c := destruct c as [[] [] [] [] [] [] [] []]; vm_compute; reflexivity.

Lemma canonicalize_letter (c : ascii) :
  isLetter c = between 65 90 (nat_of_ascii (canonicalize c)).
Proof. each_char c. Qed.

Lemma canonicalize_other (c : ascii) :
  isLetter c = false -> between 128 255 (nat_of_ascii c) = false ->
  canonicalize c = c.
Proof.
  destruct c as [[] [] [] [] [] [] [] []]; vm_compute; intros; try reflexivity;
    discriminate.
Qed.

Lemma canonicalize_range (c : ascii) :
  between 128 255 (nat_of_ascii (canonicalize c))
  = between 128 255 (nat_of_ascii c).
Proof. each_char c. Qed.

Lemma sameLetter_refl (c : ascii) : sameLetter c c = true.
Proof. apply Ascii.eqb_refl. Qed.

Lemma sameLetter_letter (c d : ascii) :
  sameLetter c d = true -> isLetter d = isLetter c.
Proof.
  unfold sameLetter. intros H. apply Ascii.eqb_eq in H.
  now rewrite !canonicalize_letter, H.
Qed.

(** A character of the ASCII range that is no letter matches itself only. *)
Lemma sameLetter_other (c d : ascii) :
  isLetter c = false -> between 128 255 (nat_of_ascii c) = false ->
  sameLetter c d = (c =? d)%char.
Proof.
  intros Hl Hr. unfold sameLetter.
  destruct (Ascii.eqb_spec (canonicalize c) (canonicalize d)) as [E|E].
  - assert (Hd : isLetter d = false)
      by (now rewrite !canonicalize_letter, <- E, <- canonicalize_letter).
    assert (Hrd : between 128 255 (nat_of_ascii d) = false)
      by (now rewrite <- canonicalize_range, <- E, canonicalize_range).
    rewrite (canonicalize_other c Hl Hr), (canonicalize_other d Hd Hrd) in E.
    subst d. symmetry. apply Ascii.eqb_refl.
  - destruct (Ascii.eqb_spec c d) as [->|_]; [now elim E | reflexivity].
Qed.

Lemma letter_not_space (c : ascii) : isLetter c = true -> isSpace c = false.
Proof.
  destruct c as [[] [] [] [] [] [] [] []]; vm_compute; intros; try reflexivity;
    discriminate.
Qed.

Lemma letter_is_plain (c : ascii) :
  isLetter c = true -> hasChar c StringUtils.regExpSyntax = false.
Proof.
  destruct c as [[] [] [] [] [] [] [] []]; vm_compute; intros; try reflexivity;
    discriminate.
Qed.

Lemma sameUpToCase_length (s s' : string) :
  sameUpToCase s s' = true -> String.length s' = String.length s.
Proof.
  revert s'; induction s as [|c s IH]; intros [|d s']; simpl; try discriminate;
    [reflexivity|].
  intros H. apply andb_true_iff in H as [_ H]. now rewrite (IH _ H).
Qed.

Lemma sameUpToCase_letters (s s' : string) :
  sameUpToCase s s' = true -> allChars isLetter s = true ->
  allChars isLetter s' = true.
Proof.
  revert s'; induction s as [|c s IH]; intros [|d s']; simpl; try discriminate;
    [reflexivity|].
  intros H Hl. apply andb_true_iff in H as [H1 H2].
  apply andb_true_iff in Hl as [Hl1 Hl2].
  now rewrite (sameLetter_letter _ _ H1), Hl1, (IH _ H2 Hl2).
Qed.

(** A character that no plain name has is in none of its case variants when
    it is an ASCII character other than a letter. *)
Lemma sameUpToCase_lacks (x : ascii) (s s' : string) :
  isLetter x = false -> between 128 255 (nat_of_ascii x) = false ->
  sameUpToCase s s' = true -> hasChar x s = false -> hasChar x s' = false.
Proof.
  intros Hl Hr.
  revert s'; induction s as [|c s IH]; intros [|d s']; simpl; try discriminate;
    [reflexivity|].
  intros H Hx. apply andb_true_iff in H as [H1 H2].
  apply orb_false_iff in Hx as [Hx1 Hx2].
  rewrite (IH _ H2 Hx2), orb_false_r.
  destruct (Ascii.eqb_spec x d) as [<-|_]; [|reflexivity].
  unfold sameLetter in H1. rewrite Ascii.eqb_sym in H1.
  fold (sameLetter x c) in H1. rewrite (sameLetter_other x c Hl Hr) in H1.
  congruence.
Qed.

Lemma plainName_lacks (x : ascii) (name : string) :
  hasChar x StringUtils.regExpSyntax = true ->
  StringUtils.plainName name = true -> hasChar x name = false.
Proof.
  intros Hx. induction name as [|c name IH]; [reflexivity|].
  cbn [StringUtils.plainName hasChar]. intros H.
  apply andb_true_iff in H as [H1 H2]. rewrite (IH H2), orb_false_r.
  destruct (Ascii.eqb_spec x c) as [<-|_]; [|reflexivity].
  now rewrite Hx in H1.
Qed.

(** A plain name is what [escapeRegExp] leaves as it is. *)
Lemma escapeRegExp_plain (name : string) :
  StringUtils.plainName name = true -> StringUtils.escapeRegExp name = name.
Proof.
  induction name as [|c name IH]; [reflexivity|].
  cbn [StringUtils.plainName StringUtils.escapeRegExp]. intros H.
  apply andb_true_iff in H as [H1 H2]. apply negb_true_iff in H1.
  now rewrite H1, (IH H2).
Qed.

Lemma letters_plainName (name : string) :
  allChars isLetter name = true -> StringUtils.plainName name = true.
Proof.
  induction name as [|c name IH]; [reflexivity|].
  cbn [allChars StringUtils.plainName]. intros H.
  apply andb_true_iff in H as [H1 H2].
  now rewrite (letter_is_plain _ H1), (IH H2).
Qed.

(* ================================================================== *)
(** ** The backtracking matcher *)
(* ================================================================== *)

Lemma drop_length_le (n : nat) (s : string) :
  n <= String.length s -> String.length (drop n s) = String.length s - n.
Proof.
  revert s; induction n as [|n IH]; intros [|c s]; simpl; intros H;
    try reflexivity; try lia.
  apply IH. lia.
Qed.

(** A star gives what its continuation gives somewhere further on. *)
Lemma matchStar_inv (cls : ascii -> bool) (k : string -> option nat)
  (s : string) (n : nat) :
  matchStar cls k s = Some n ->
  exists j, j <= n /\ j <= String.length s /\ k (drop j s) = Some (n - j).
Proof.
  revert n; induction s as [|c s IH]; intros n; cbn [matchStar].
  - intros H. exists 0. rewrite Nat.sub_0_r. repeat split; [lia | lia | exact H].
  - destruct (cls c).
    + destruct (matchStar cls k s) as [m|] eqn:E.
      * intros H. injection H as <-.
        destruct (IH m eq_refl) as (j & Hj1 & Hj2 & Hk).
        exists (S j). cbn [drop String.length]. repeat split; [lia | lia | exact Hk].
      * intros H. exists 0. rewrite Nat.sub_0_r.
        repeat split; [lia | lia | exact H].
    + intros H. exists 0. rewrite Nat.sub_0_r.
      repeat split; [lia | lia | exact H].
Qed.

(** A star matches whenever its continuation matches on the spot. *)
Lemma matchStar_complete (cls : ascii -> bool) (k : string -> option nat)
  (s : string) (n : nat) :
  k s = Some n -> exists n', matchStar cls k s = Some n'.
Proof.
  intros H. destruct s as [|c s]; cbn [matchStar]; [now exists n|].
  destruct (cls c); [|now exists n].
  destruct (matchStar cls k s) as [m|]; [now exists (S m) | now exists n].
Qed.

(** A star takes all of a filler when what follows cannot go into it and the
    continuation matches there. *)
Lemma matchStar_greedy (cls : ascii -> bool) (k : string -> option nat)
  (f s : string) (n : nat) :
  allChars cls f = true ->
  match s with "" => true | String d _ => negb (cls d) end = true ->
  k s = Some n ->
  matchStar cls k (f ++ s) = Some (String.length f + n).
Proof.
  intros Hf Hs Hk. induction f as [|c f IH].
  - cbn [append String.length]. destruct s as [|d s]; cbn [matchStar]; [exact Hk|].
    apply negb_true_iff in Hs. now rewrite Hs.
  - cbn [allChars] in Hf. apply andb_true_iff in Hf as [Hc Hf].
    cbn [append matchStar String.length]. now rewrite Hc, (IH Hf).
Qed.

Lemma matchItems_bounds (items : list item) :
  forall s n, matchItems items s = Some n ->
              chrCount items <= n /\ n <= String.length s.
Proof.
  induction items as [|[c|cls] rest IH]; intros s n; cbn [matchItems chrCount].
  - intros H. injection H as <-. lia.
  - destruct s as [|d s]; [discriminate|].
    destruct (sameLetter c d); [|discriminate].
    destruct (matchItems rest s) as [m|] eqn:E; [|discriminate].
    cbn [option_map]. intros H. injection H as <-.
    destruct (IH _ _ E). cbn [String.length]. lia.
  - intros H. apply matchStar_inv in H as (j & Hj1 & Hj2 & Hk).
    destruct (IH _ _ Hk) as [H1 H2]. rewrite drop_length_le in H2 by exact Hj2. lia.
Qed.

(** What the last items of a pattern match is the end of the whole match. *)
Lemma matchItems_split (items tail : list item) :
  forall s n,
    matchItems (items ++ tail) s = Some n ->
    exists n1 n2, n = n1 + n2 /\ n1 <= String.length s
                  /\ matchItems tail (drop n1 s) = Some n2.
Proof.
  induction items as [|[c|cls] rest IH]; intros s n; cbn [Datatypes.app matchItems].
  - intros H. exists 0, n. repeat split; [lia | exact H].
  - destruct s as [|d s]; [discriminate|].
    destruct (sameLetter c d); [|discriminate].
    destruct (matchItems (rest ++ tail) s) as [m|] eqn:E; [|discriminate].
    cbn [option_map]. intros H. injection H as <-.
    destruct (IH _ _ E) as (n1 & n2 & -> & Hn1 & Ht).
    exists (S n1), n2. cbn [drop String.length]. repeat split; [lia | exact Ht].
  - intros H. apply matchStar_inv in H as (j & Hj1 & Hj2 & Hk).
    destruct (IH _ _ Hk) as (n1 & n2 & Hn & Hn1 & Ht).
    rewrite drop_length_le in Hn1 by exact Hj2.
    exists (j + n1), n2. repeat split; [lia | lia |].
    clear - Ht. revert s Ht. induction j as [|j IHj]; intros s Ht; [exact Ht|].
    destruct s as [|c s]; cbn [drop plus] in *.
    + now destruct n1.
    + now apply IHj.
Qed.

(** The pattern of a name matches each of its case variants, whatever comes
    after, as long as the rest of the pattern matches there. *)
Lemma placeholderPattern_complete (name : string) :
  forall name' tail t n,
    sameUpToCase name name' = true ->
    matchItems tail t = Some n ->
    exists n', matchItems (StringUtils.placeholderPattern name ++ tail) (name' ++ t)
               = Some n'.
Proof.
  induction name as [|c name IH]; intros [|d name'] tail t n Hs Ht;
    try discriminate Hs.
  - now exists n.
  - cbn [sameUpToCase] in Hs. apply andb_true_iff in Hs as [H1 H2].
    destruct name as [|c2 name].
    + destruct name' as [|? ?]; [|discriminate H2].
      cbn [StringUtils.placeholderPattern Datatypes.app matchItems append].
      rewrite H1, Ht. now eexists.
    + destruct (IH _ tail t n H2 Ht) as (m & Hm).
      change (StringUtils.placeholderPattern (String c (String c2 name)))
        with (Chr c :: Star notLetter
              :: StringUtils.placeholderPattern (String c2 name)).
      set (pattern := StringUtils.placeholderPattern (String c2 name)) in *.
      cbn [Datatypes.app matchItems append]. rewrite H1.
      destruct (matchStar_complete notLetter _ _ _ Hm) as (m' & ->).
      now eexists.
Qed.

Lemma chrCount_app (a b : list item) :
  chrCount (a ++ b) = chrCount a + chrCount b.
Proof.
  induction a as [|[c|cls] a IH]; cbn [Datatypes.app chrCount]; [reflexivity | |];
    rewrite IH; reflexivity.
Qed.

Lemma chrCount_placeholderPattern (name : string) :
  chrCount (StringUtils.placeholderPattern name) = String.length name.
Proof.
  induction name as [|c name IH]; [reflexivity|].
  destruct name as [|c2 name]; [reflexivity|].
  cbn [StringUtils.placeholderPattern chrCount String.length] in *.
  now rewrite IH.
Qed.

Lemma interleave_head (c : ascii) (rest : string) (fillers : list string) :
  exists t, interleave (String c rest) fillers = String c t.
Proof. destruct rest; cbn [interleave]; now eexists. Qed.

(** With letters for a name and fillers without letters, the pattern walks
    through the interleaved text in one go. *)
Lemma placeholderPattern_fillers (name : string) :
  forall name' fillers tail t n,
    sameUpToCase name name' = true ->
    allChars isLetter name' = true ->
    Forall (fun f => allChars notLetter f = true) fillers ->
    matchItems tail t = Some n ->
    matchItems (StringUtils.placeholderPattern name ++ tail)
               (interleave name' fillers ++ t)
    = Some (String.length (interleave name' fillers) + n).
Proof.
  induction name as [|c name IH]; intros [|d name'] fillers tail t n Hs Hl Hf Ht;
    try discriminate Hs.
  - exact Ht.
  - cbn [sameUpToCase] in Hs. apply andb_true_iff in Hs as [H1 H2].
    cbn [allChars] in Hl. apply andb_true_iff in Hl as [Hl1 Hl2].
    destruct name as [|c2 name].
    + destruct name' as [|? ?]; [|discriminate H2].
      cbn [StringUtils.placeholderPattern Datatypes.app matchItems append interleave String.length].
      now rewrite H1, Ht.
    + destruct name' as [|d2 name']; [discriminate H2|].
      assert (Hsplit : exists f0 fs,
                 interleave (String d (String d2 name')) fillers
                 = String d (f0 ++ interleave (String d2 name') fs)
                 /\ allChars notLetter f0 = true
                 /\ Forall (fun f => allChars notLetter f = true) fs).
      { destruct Hf as [|f0 fs Hf0 Hfs].
        - exists "", []. repeat split. constructor.
        - exists f0, fs. repeat split; assumption. }
      destruct Hsplit as (f0 & fs & -> & Hf0 & Hfs).
      pose proof (IH (String d2 name') fs tail t n H2 Hl2 Hfs Ht) as Hk.
      destruct (interleave_head d2 name' fs) as (rest & Hhead).
      change (StringUtils.placeholderPattern (String c (String c2 name)))
        with (Chr c :: Star notLetter
              :: StringUtils.placeholderPattern (String c2 name)).
      set (pattern := StringUtils.placeholderPattern (String c2 name)) in *.
      cbn [Datatypes.app matchItems append]. rewrite H1.
      rewrite app_assoc_s.
      rewrite (matchStar_greedy notLetter _ f0 _
                 (String.length (interleave (String d2 name') fs) + n) Hf0);
        [| | exact Hk].
      * cbn [option_map String.length]. rewrite length_app_s. f_equal. lia.
      * rewrite Hhead. cbn [append]. unfold notLetter. rewrite negb_involutive.
        cbn [allChars] in Hl2. now apply andb_true_iff in Hl2.
Qed.

(* ================================================================== *)
(** ** The split-run expression on a text run *)
(* ================================================================== *)

Lemma splitRunRegExp_plain (name : string) :
  StringUtils.plainName name = true ->
  StringUtils.splitRunRegExp name
  = Some (chars "<w:t" ++ [Star notGt; Chr ">"] ++ afterOpening name)%list.
Proof.
  intros H. unfold StringUtils.splitRunRegExp, afterOpening. rewrite H.
  do 2 f_equal. cbn [Datatypes.app]. now rewrite <- !List.app_assoc.
Qed.

(** On a text that starts with the bare opening tag the expression goes
    through the tag and on with the rest. *)
Lemma regexp_opening (rest : list item) (x : string) :
  matchItems (chars "<w:t" ++ [Star notGt; Chr ">"] ++ rest) ("<w:t>" ++ x)
  = option_map (fun n => 5 + n) (matchItems rest x).
Proof.
  cbn [chars Datatypes.app matchItems append matchStar].
  change (sameLetter "<" "<") with true. change (sameLetter "w" "w") with true.
  change (sameLetter ":" ":") with true. change (sameLetter "t" "t") with true.
  change (notGt ">") with false. change (sameLetter ">" ">") with true.
  cbn iota. destruct (matchItems rest x); reflexivity.
Qed.

Lemma regexp_closing (ws : string) :
  allChars isSpace ws = true ->
  matchItems ([Star isSpace] ++ chars "</w:t>") (ws ++ "</w:t>")
  = Some (String.length ws + 6).
Proof.
  intros H. cbn [Datatypes.app matchItems].
  now apply matchStar_greedy.
Qed.

Lemma matchItems_chars (s t : string) (n : nat) :
  matchItems (chars s) t = Some n -> n = String.length s.
Proof.
  revert t n; induction s as [|c s IH]; intros t n; cbn [chars matchItems].
  - intros H. now injection H as <-.
  - destruct t as [|d t]; [discriminate|].
    destruct (sameLetter c d); [|discriminate].
    destruct (matchItems (chars s) t) as [m|] eqn:E; [|discriminate].
    cbn [option_map]. intros H. injection H as <-.
    cbn [String.length]. now rewrite (IH _ _ E).
Qed.

Lemma chrCount_chars (s : string) : chrCount (chars s) = String.length s.
Proof. induction s as [|c s IH]; cbn [chars chrCount String.length]; congruence. Qed.

Lemma chrCount_afterOpening (name : string) :
  chrCount (afterOpening name) = String.length name + 6.
Proof.
  unfold afterOpening.
  rewrite !chrCount_app, chrCount_placeholderPattern, chrCount_chars.
  cbn [chrCount String.length]. lia.
Qed.

(** A case variant of the name, alone in a run: the expression matches the
    whole run. *)
Lemma regexp_matches_variant (name name' : string) :
  sameUpToCase name name' = true ->
  matchItems (afterOpening name) (name' ++ "</w:t>")
  = Some (String.length name' + 6).
Proof.
  intros Hs. unfold afterOpening.
  destruct (placeholderPattern_complete name name' ([Star isSpace] ++ chars "</w:t>")
              "</w:t>" 6 Hs eq_refl) as (m & Hm).
  rewrite <- !List.app_assoc. cbn [Datatypes.app matchItems] in Hm |- *.
  destruct (matchStar_complete isSpace _ _ _ Hm) as (n & Hn).
  pose proof Hn as Hb.
  change (matchStar isSpace
            (matchItems (StringUtils.placeholderPattern name
                         ++ Star isSpace :: chars "</w:t>")))
    with (matchItems (Star isSpace :: StringUtils.placeholderPattern name
                      ++ Star isSpace :: chars "</w:t>")) in Hb.
  apply matchItems_bounds in Hb as [H1 H2].
  cbn [chrCount] in H1. rewrite chrCount_app, chrCount_placeholderPattern in H1.
  cbn [chrCount chars] in H1. rewrite length_app_s in H2. cbn [String.length] in H2.
  rewrite (sameUpToCase_length _ _ Hs) in *.
  rewrite Hn. f_equal. lia.
Qed.

(** With fillers between the letters and white space around them. *)
Lemma regexp_matches_fillers (name name' ws1 ws2 : string) (fillers : list string) :
  sameUpToCase name name' = true ->
  allChars isLetter name = true ->
  Forall (fun f => allChars notLetter f = true) fillers ->
  allChars isSpace ws1 = true -> allChars isSpace ws2 = true ->
  matchItems (afterOpening name)
             (ws1 ++ interleave name' fillers ++ ws2 ++ "</w:t>")
  = Some (String.length (ws1 ++ interleave name' fillers ++ ws2 ++ "</w:t>")).
Proof.
  intros Hs Hl Hf H1 H2. unfold afterOpening.
  rewrite <- !List.app_assoc. cbn [Datatypes.app matchItems].
  pose proof (sameUpToCase_letters _ _ Hs Hl) as Hl'.
  destruct name' as [|d name'].
  - destruct name; [|discriminate Hs].
    cbn [interleave append StringUtils.placeholderPattern Datatypes.app].
    rewrite <- app_assoc_s.
    rewrite (matchStar_greedy isSpace _ (ws1 ++ ws2) "</w:t>" 6);
      [now rewrite (length_app_s (ws1 ++ ws2)) | | reflexivity | reflexivity].
    clear - H1 H2. induction ws1 as [|c ws1 IH]; [exact H2|].
    cbn [allChars append] in *. apply andb_true_iff in H1 as [Hc H1].
    now rewrite Hc, IH.
  - pose proof (placeholderPattern_fillers name (String d name') fillers
                  ([Star isSpace] ++ chars "</w:t>") (ws2 ++ "</w:t>") _
                  Hs Hl' Hf (regexp_closing ws2 H2)) as Hk.
    cbn [Datatypes.app] in Hk.
    rewrite (matchStar_greedy isSpace _ ws1 _
               (String.length (interleave (String d name') fillers)
                + (String.length ws2 + 6)) H1); [| | exact Hk].
    + f_equal. rewrite !length_app_s. cbn [String.length]. lia.
    + destruct (interleave_head d name' fillers) as (t & ->). cbn [append].
      cbn [allChars] in Hl'. apply andb_true_iff in Hl' as [Hd _].
      now rewrite (letter_not_space _ Hd).
Qed.

Lemma drop_before_char (c : ascii) (u y z : string) (n : nat) :
  hasChar c u = false -> drop n (u ++ y) = String c z -> String.length u <= n.
Proof.
  revert n; induction u as [|d u IH]; intros n Hu H; [cbn; lia|].
  cbn [hasChar] in Hu. apply orb_false_iff in Hu as [Hd Hu].
  destruct n as [|n]; cbn [append drop String.length] in *.
  - injection H as -> _. now rewrite Ascii.eqb_refl in Hd.
  - apply le_n_S. now apply IH.
Qed.

(** In a run whose content has no opening angle bracket, a match of the
    expression that starts with the run ends with it. *)
Lemma regexp_match_is_whole (name content : string) (n : nat) :
  hasChar "<" content = false ->
  matchItems (afterOpening name) (content ++ "</w:t>") = Some n ->
  n = String.length content + 6.
Proof.
  intros Hc H. unfold afterOpening in H.
  apply matchItems_split in H as (n1 & n2 & -> & Hn1 & Ht).
  pose proof (matchItems_chars _ _ _ Ht) as ->.
  pose proof (matchItems_bounds _ _ _ Ht) as [_ Hlen].
  rewrite drop_length_le in Hlen by exact Hn1.
  rewrite length_app_s in Hn1, Hlen. cbn [String.length] in *.
  destruct (drop n1 (content ++ "</w:t>")) as [|d z] eqn:E; [discriminate Ht|].
  cbn [chars matchItems] in Ht.
  rewrite (sameLetter_other "<" d eq_refl eq_refl) in Ht.
  destruct (Ascii.eqb_spec "<" d) as [<-|]; [|discriminate Ht].
  pose proof (drop_before_char _ _ _ _ _ Hc E). lia.
Qed.

Lemma matchesNowhere_skip (matcher : string -> option nat) (c : ascii) (u t : string) :
  (forall d s, (c =? d)%char = false -> matcher (String d s) = None) ->
  hasChar c u = false ->
  matchesNowhere matcher (u ++ t) = matchesNowhere matcher t.
Proof.
  intros Hm. induction u as [|d u IH]; [reflexivity|].
  cbn [hasChar append matchesNowhere]. intros H.
  apply orb_false_iff in H as [Hd Hu]. now rewrite (Hm d _ Hd), IH.
Qed.

Lemma regexp_needs_bracket (rest : list item) (d : ascii) (s : string) :
  ("<" =? d)%char = false ->
  matchItems (chars "<w:t" ++ rest) (String d s) = None.
Proof.
  intros H. cbn [chars Datatypes.app matchItems].
  now rewrite (sameLetter_other "<" d eq_refl eq_refl), H.
Qed.

(** Past its first character, a run with escaped content has no place where
    the expression matches. *)
Lemma regexp_nowhere_inside (rest : list item) (content : string) :
  hasChar "<" content = false ->
  matchesNowhere (matchItems (chars "<w:t" ++ rest)) ("w:t>" ++ content ++ "</w:t>")
  = true.
Proof.
  intros H.
  rewrite (matchesNowhere_skip _ "<" "w:t>") by
    (reflexivity || intros; now apply regexp_needs_bracket).
  rewrite (matchesNowhere_skip _ "<" content) by
    (assumption || intros; now apply regexp_needs_bracket).
  reflexivity.
Qed.

(** When the match at the head is the whole text, the result is the
    replacement. *)
Lemma replaceFrom_whole (matcher : string -> option nat)
  (replacement s before : string) :
  plainTemplate replacement = true ->
  s <> "" -> matcher "" = None ->
  matcher s = Some (String.length s) ->
  replaceFrom matcher replacement before 0 s = replacement.
Proof.
  intros Hp Hs Hnil Hm. destruct s as [|c s]; [now elim Hs|].
  cbn [replaceFrom]. rewrite Hm. cbn [String.length].
  unfold substituted. rewrite getSubstitution_plain by exact Hp.
  rewrite <- (app_empty_r s) at 2. rewrite replaceFrom_skip.
  cbn [replaceFrom]. rewrite Hnil. apply app_empty_r.
Qed.

Lemma replaceFrom_copies (matcher : string -> option nat)
  (replacement : string) (c : ascii) (s before : string) :
  matcher (String c s) = None ->
  replaceFrom matcher replacement before 0 (String c s)
  = String c (replaceFrom matcher replacement (before ++ String c "") 0 s).
Proof. intros H. cbn [replaceFrom]. now rewrite H. Qed.

Lemma includes_short (p s : string) :
  String.length s < String.length p -> includes p s = false.
Proof. intros H. apply includes_occurrences. now apply occurrences_short. Qed.

Lemma startsWith_same_length (p s : string) :
  String.length p = String.length s -> startsWith p s = true -> p = s.
Proof.
  revert s; induction p as [|a p IH]; intros [|b s]; simpl; intros Hl H;
    try reflexivity; try discriminate.
  apply andb_true_iff in H as [H1 H2]. apply Ascii.eqb_eq in H1. subst b.
  f_equal. apply IH; [lia | exact H2].
Qed.

Lemma app_inv_tail_s (a b t : string) : a ++ t = b ++ t -> a = b.
Proof.
  revert b; induction a as [|c a IH]; intros [|d b] H; cbn [append] in H.
  - reflexivity.
  - exfalso. apply (f_equal String.length) in H.
    cbn [String.length] in H. rewrite length_app_s in H. lia.
  - exfalso. apply (f_equal String.length) in H.
    cbn [String.length] in H. rewrite length_app_s in H. lia.
  - injection H as -> H. f_equal. now apply IH.
Qed.

Lemma regexp_on_empty (rest : list item) :
  matchItems (chars "<w:t" ++ rest) "" = None.
Proof. reflexivity. Qed.

(** The third pass turns a run that the expression matches as a whole into
    the replaced run. *)
Lemma splitRunPass_whole (name content safeValue : string) :
  StringUtils.plainName name = true ->
  plainTemplate safeValue = true ->
  matchItems (afterOpening name) (content ++ "</w:t>")
  = Some (String.length content + 6) ->
  StringUtils.splitRunPass ("<w:t>" ++ content ++ "</w:t>") name safeValue
  = Some ("<w:t>" ++ safeValue ++ "</w:t>").
Proof.
  intros Hn Hp Hm. unfold StringUtils.splitRunPass.
  rewrite (splitRunRegExp_plain _ Hn). f_equal.
  apply replaceFrom_whole.
  - now apply plainTemplate_run.
  - discriminate.
  - apply regexp_on_empty.
  - rewrite regexp_opening, Hm. cbn [option_map]. f_equal.
    rewrite !length_app_s. cbn [String.length]. lia.
Qed.

(** The third pass leaves a run with escaped content as it is or replaces it
    as a whole; when the content is the escaped value, the run is the same
    after the pass. *)
Lemma splitRunPass_replaced_run (name safeValue : string) :
  StringUtils.plainName name = true ->
  plainTemplate safeValue = true ->
  hasChar "<" safeValue = false ->
  StringUtils.splitRunPass ("<w:t>" ++ safeValue ++ "</w:t>") name safeValue
  = Some ("<w:t>" ++ safeValue ++ "</w:t>").
Proof.
  intros Hn Hp Hlt.
  destruct (matchItems (afterOpening name) (safeValue ++ "</w:t>")) as [n|] eqn:E.
  - apply splitRunPass_whole; try assumption.
    now rewrite E, (regexp_match_is_whole _ _ _ Hlt E).
  - unfold StringUtils.splitRunPass. rewrite (splitRunRegExp_plain _ Hn). f_equal.
    unfold replaceGlobal.
    etransitivity.
    + apply (replaceFrom_copies _ _ "<" ("w:t>" ++ safeValue ++ "</w:t>")).
      change (String "<" ("w:t>" ++ safeValue ++ "</w:t>"))
        with ("<w:t>" ++ safeValue ++ "</w:t>").
      now rewrite regexp_opening, E.
    + rewrite replaceFrom_nowhere; [reflexivity|].
      now apply regexp_nowhere_inside.
Qed.

Lemma run_without_brace (name name' : string) :
  StringUtils.plainName name = true ->
  sameUpToCase name name' = true ->
  includes ("{{" ++ name ++ "}}") ("<w:t>" ++ name' ++ "</w:t>") = false.
Proof.
  intros Hn Hs. apply includes_occurrences.
  change ("{{" ++ name ++ "}}") with (String "{" ("{" ++ name ++ "}}")).
  apply occurrences_absent. rewrite !hasChar_app.
  rewrite (sameUpToCase_lacks "{" name name' eq_refl eq_refl Hs);
    [reflexivity | now apply plainName_lacks].
Qed.

Lemma other_run_absent (name name' : string) :
  String.length name' = String.length name ->
  name <> name' ->
  includes ("<w:t>" ++ name ++ "</w:t>") ("<w:t>" ++ name' ++ "</w:t>") = false.
Proof.
  intros Hl Hne.
  change ("<w:t>" ++ name' ++ "</w:t>") with (String "<" ("w:t>" ++ name' ++ "</w:t>")).
  cbn [includes].
  rewrite (includes_short _ ("w:t>" ++ name' ++ "</w:t>")), orb_false_r.
  - destruct (startsWith _ _) eqn:E; [|reflexivity].
    apply startsWith_same_length in E.
    + cbn [append] in E. injection E as E. apply app_inv_tail_s in E. now elim Hne.
    + cbn [append String.length]. rewrite !length_app_s. lia.
  - cbn [append String.length]. rewrite !length_app_s. lia.
Qed.

(** The expression matches a run as a whole when its part after the opening
    tag matches the content and the closing tag. *)
Lemma regexp_matches_run (name content : string) :
  matchItems (afterOpening name) (content ++ "</w:t>")
  = Some (String.length content + 6) ->
  matchItems (chars "<w:t" ++ [Star notGt; Chr ">"] ++ afterOpening name)
             ("<w:t>" ++ content ++ "</w:t>")
  = Some (String.length ("<w:t>" ++ content ++ "</w:t>")).
Proof.
  intros H. rewrite regexp_opening, H. cbn [option_map]. f_equal.
  rewrite !length_app_s. cbn [String.length]. lia.
Qed.

(** Where the split-run pass does what is expected of it.  Its expression
    matches, as a whole, a text run whose content is the token name in any
    letter case, and it lets any characters other than letters stand between
    the letters of the name (with white space around them).  For a value
    without live dollar pattern [replacePlaceholder] replaces a run that
    holds the name in any case by the run of the escaped value, and the pass
    does the same for a run with fillers.  The name has no character that is
    syntax of regular expressions. *)
Theorem splitRun_matches_any_case (name name' : string) :
  StringUtils.plainName name = true ->
  sameUpToCase name name' = true ->
  (exists regex,
      StringUtils.splitRunRegExp name = Some regex
      /\ matchItems regex ("<w:t>" ++ name' ++ "</w:t>")
         = Some (String.length ("<w:t>" ++ name' ++ "</w:t>"))
      /\ forall fillers ws1 ws2,
           allChars isLetter name = true ->
           Forall (fun f => allChars notLetter f = true) fillers ->
           allChars isSpace ws1 = true -> allChars isSpace ws2 = true ->
           matchItems regex
             ("<w:t>" ++ (ws1 ++ interleave name' fillers ++ ws2) ++ "</w:t>")
           = Some (String.length
                     ("<w:t>" ++ (ws1 ++ interleave name' fillers ++ ws2) ++ "</w:t>")))
  /\ forall v,
       plainValue v = true ->
       StringUtils.replacePlaceholder ("<w:t>" ++ name' ++ "</w:t>") name v
       = Some ("<w:t>" ++ StringUtils.escapeForXml v ++ "</w:t>")
       /\ forall fillers ws1 ws2,
            allChars isLetter name = true ->
            Forall (fun f => allChars notLetter f = true) fillers ->
            allChars isSpace ws1 = true -> allChars isSpace ws2 = true ->
            StringUtils.splitRunPass
              ("<w:t>" ++ (ws1 ++ interleave name' fillers ++ ws2) ++ "</w:t>")
              name (StringUtils.escapeForXml v)
            = Some ("<w:t>" ++ StringUtils.escapeForXml v ++ "</w:t>").
Proof.
  intros Hn Hs.
  assert (Hfill : forall fillers ws1 ws2,
             allChars isLetter name = true ->
             Forall (fun f => allChars notLetter f = true) fillers ->
             allChars isSpace ws1 = true -> allChars isSpace ws2 = true ->
             matchItems (afterOpening name)
               ((ws1 ++ interleave name' fillers ++ ws2) ++ "</w:t>")
             = Some (String.length (ws1 ++ interleave name' fillers ++ ws2) + 6)).
  { intros fillers ws1 ws2 Hl Hf H1 H2.
    rewrite !app_assoc_s, regexp_matches_fillers by assumption.
    f_equal. rewrite !length_app_s. cbn [String.length]. lia. }
  split.
  - eexists. split; [apply (splitRunRegExp_plain _ Hn)|]. split.
    + apply regexp_matches_run. now apply regexp_matches_variant.
    + intros fillers ws1 ws2 Hl Hf H1 H2.
      apply regexp_matches_run. now apply Hfill.
  - intros v Hv.
    pose proof (plainValue_escaped v Hv) as Hplain.
    pose proof (plainTemplate_run _ Hplain) as Hrun.
    set (safeValue := StringUtils.escapeForXml v) in *.
    split.
    + unfold StringUtils.replacePlaceholder. fold safeValue.
      rewrite (replaceAll_absent _ _ _ (run_without_brace _ _ Hn Hs)).
      destruct (String.eqb_spec name name') as [<-|Hne].
      * rewrite <- (app_empty_r ("<w:t>" ++ name ++ "</w:t>")) at 1.
        change (("<w:t>" ++ name ++ "</w:t>") ++ "")
          with ("" ++ ("<w:t>" ++ name ++ "</w:t>") ++ "").
        rewrite replaceAll_single; [| discriminate | exact Hrun |].
        -- cbn [append]. rewrite app_empty_r.
           apply splitRunPass_replaced_run; try assumption.
           unfold safeValue. rewrite escapeForXml_expand.
           now apply escaped_has_no.
        -- cbn [append]. rewrite app_empty_r. apply occurrences_self.
      * rewrite replaceAll_absent
          by (apply other_run_absent; [now apply sameUpToCase_length | exact Hne]).
        apply splitRunPass_whole; try assumption.
        now apply regexp_matches_variant.
    + intros fillers ws1 ws2 Hl Hf H1 H2.
      apply splitRunPass_whole; try assumption. now apply Hfill.
Qed.

Lemma splitRun_matches_any_case_witness :
  StringUtils.plainName "name" = true
  /\ sameUpToCase "name" "NaMe" = true
  /\ plainValue "John & Co" = true
  /\ StringUtils.replacePlaceholder ("<w:t>" ++ "NaMe" ++ "</w:t>") "name" "John & Co"
     = Some ("<w:t>" ++ StringUtils.escapeForXml "John & Co" ++ "</w:t>")
  /\ StringUtils.splitRunPass
       ("<w:t>" ++ (" " ++ interleave "NaMe" ["1"; "<>"; "_-"] ++ " ") ++ "</w:t>")
       "name" (StringUtils.escapeForXml "John & Co")
     = Some ("<w:t>" ++ StringUtils.escapeForXml "John & Co" ++ "</w:t>").
Proof.
  split; [reflexivity|]. split; [reflexivity|]. split; [reflexivity|].
  destruct (splitRun_matches_any_case "name" "NaMe" eq_refl eq_refl) as [_ H].
  destruct (H "John & Co" eq_refl) as [Ha Hb].
  split; [exact Ha|].
  apply (Hb ["1"; "<>"; "_-"] " " " "); try reflexivity.
  repeat constructor.
Defined.

(** C10.  The split-run pass on a run that holds the name in another letter
    case, for the value [$&].  The expression matches the run, but the run of
    the escaped value is handed over as a replacement pattern, in which [$&]
    stands for the matched text: what comes back is a run around the old run
    and the rest of the entity, not the run of the escaped value. *)
Theorem splitRun_dollar_pattern :
  sameUpToCase "name" "NaMe" = true
  /\ StringUtils.escapeForXml "$&" = "$&amp;"
  /\ StringUtils.replacePlaceholder "<w:t>NaMe</w:t>" "name" "$&"
     = Some "<w:t><w:t>NaMe</w:t>amp;</w:t>"
  /\ StringUtils.replacePlaceholder "<w:t>NaMe</w:t>" "name" "$&"
     <> Some ("<w:t>" ++ StringUtils.escapeForXml "$&" ++ "</w:t>").
Proof.
  split; [reflexivity|]. split; [reflexivity|]. split; [reflexivity|].
  vm_compute. discriminate.
Qed.

(** What the pass does not do: the fillers cannot hold a letter, so a name
    split across two runs, with the tags of the runs between its halves, is
    not matched. *)
Example splitRun_across_runs :
  StringUtils.splitRunPass "<w:t>place</w:t></w:r><w:r><w:t>holder</w:t>"
    "placeholder" "v"
  = Some "<w:t>place</w:t></w:r><w:r><w:t>holder</w:t>".
Proof. vm_compute. reflexivity. Qed.

(* ================================================================== *)
(** ** Decoding: where the round trip does hold *)
(* ================================================================== *)

Lemma inert_copied (p r w rest before : string) :
  inert p w = true ->
  replaceFrom (literal p) r before 0 (w ++ rest)
  = w ++ replaceFrom (literal p) r (before ++ w) 0 rest.
Proof.
  revert before; induction w as [|c w IH]; intros before H.
  - cbn [append]. now rewrite app_empty_r.
  - cbn [inert] in H. apply andb_true_iff in H as [H1 H2].
    change (String c w ++ rest) with (String c (w ++ rest)).
    rewrite replaceFrom_copies.
    + rewrite (IH _ H2), app_assoc_s. reflexivity.
    + unfold literal. change (String c (w ++ rest)) with (String c w ++ rest).
      now rewrite clash_startsWith.
Qed.

Lemma entity_decoded (a : ascii) (p' r rest before : string) :
  plainTemplate r = true ->
  replaceFrom (literal (String a p')) r before 0 (String a p' ++ rest)
  = r ++ replaceFrom (literal (String a p')) r (before ++ String a p') 0 rest.
Proof.
  intros Hr. cbn [append replaceFrom].
  change (String a (p' ++ rest)) with (String a p' ++ rest).
  unfold literal at 1. rewrite startsWith_refl_app.
  unfold substituted. rewrite getSubstitution_plain by exact Hr.
  cbn [String.length]. rewrite replaceFrom_skip. now rewrite app_assoc_s.
Qed.

(** One decoding pass over character-wise escaped text: the characters whose
    entity is the one searched are decoded, the others are passed over. *)
Lemma decode_pass (a : ascii) (p' r : string) (f f' : ascii -> string) (s : string) :
  plainTemplate r = true ->
  (forall c, hasChar c s = true ->
             (f c = String a p' /\ f' c = r)
             \/ (f' c = f c /\ inert (String a p') (f c) = true)) ->
  replaceGlobal (literal (String a p')) r (expand f s) = expand f' s.
Proof.
  intros Hr. unfold replaceGlobal. generalize ("" : string) at 1.
  induction s as [|c s IH]; intros before H; [reflexivity|].
  cbn [expand].
  assert (Hs : forall d, hasChar d s = true ->
                 (f d = String a p' /\ f' d = r)
                 \/ (f' d = f d /\ inert (String a p') (f d) = true)).
  { intros d Hd. apply H. cbn [hasChar]. rewrite Hd. apply orb_true_r. }
  destruct (H c) as [[E1 E2]|[E1 E2]].
  - cbn [hasChar]. now rewrite Ascii.eqb_refl.
  - rewrite E1, E2, entity_decoded by exact Hr. now rewrite (IH _ Hs).
  - rewrite E1, inert_copied by exact E2. now rewrite (IH _ Hs).
Qed.

Ltac which_char c :=
  destruct (Ascii.eqb_spec c "<") as [->|?];
  [|destruct (Ascii.eqb_spec c ">") as [->|?];
    [|destruct (Ascii.eqb_spec c dquote) as [->|?];
      [|destruct (Ascii.eqb_spec c "'") as [->|?]]]].

Lemma escapeCharBut_other (decoded : string) (c : ascii) :
  c <> "&"%char -> c <> "<"%char -> c <> ">"%char -> c <> dquote -> c <> "'"%char ->
  escapeCharBut decoded c = String c "".
Proof.
  intros H1 H2 H3 H4 H5. unfold escapeCharBut, escapeChar.
  apply Ascii.eqb_neq in H1, H2, H3, H4, H5.
  rewrite H1, H2, H3, H4, H5. now destruct (hasChar c decoded).
Qed.

Lemma inert_other (p' : string) (c : ascii) :
  c <> "&"%char -> inert (String "&" p') (String c "") = true.
Proof.
  intros H. cbn [inert clash]. apply Ascii.eqb_neq in H.
  now rewrite Ascii.eqb_sym, H.
Qed.

Lemma hasChar_absent (c : ascii) (s : string) :
  hasChar "&" s = false -> hasChar c s = true -> c <> "&"%char.
Proof. intros H1 H2 ->. congruence. Qed.

(** The round trip holds for every text without an ampersand: each of the
    four entities that escaping then produces is decoded by its own pass,
    and no pass touches the others. *)
Lemma unescapeXml_escapeForXml_no_ampersand (s : string) :
  hasChar "&" s = false ->
  StringUtils.unescapeXml (StringUtils.escapeForXml s) = s.
Proof.
  intros Hs. rewrite escapeForXml_expand. unfold StringUtils.unescapeXml.
  destruct (String.eqb_spec (expand escapeChar s) "") as [E|_].
  { destruct s as [|c s]; [reflexivity|]. exfalso. cbn [expand] in E.
    unfold escapeChar in E.
    repeat match type of E with
           | context [if ?b then _ else _] => destruct b
           end; discriminate E. }
  rewrite (decode_pass "&" "amp;" "&" escapeChar (escapeCharBut "") s eq_refl).
  2:{ intros c Hc. right. pose proof (hasChar_absent _ _ Hs Hc) as Hne.
      split; [reflexivity|].
      which_char c; try reflexivity.
      unfold escapeChar. apply Ascii.eqb_neq in Hne.
      repeat match goal with
             | H : c <> _ |- _ => apply Ascii.eqb_neq in H; rewrite H
             end.
      rewrite Hne. now apply inert_other, Ascii.eqb_neq. }
  rewrite (decode_pass "&" "lt;" "<" (escapeCharBut "") (escapeCharBut "<") s eq_refl).
  2:{ intros c Hc. pose proof (hasChar_absent _ _ Hs Hc) as Hne.
      which_char c; try (now left); try (right; split; reflexivity).
      right. rewrite !escapeCharBut_other by assumption.
      split; [reflexivity | now apply inert_other]. }
  rewrite (decode_pass "&" "gt;" ">" (escapeCharBut "<") (escapeCharBut "<>") s eq_refl).
  2:{ intros c Hc. pose proof (hasChar_absent _ _ Hs Hc) as Hne.
      which_char c; try (now left); try (right; split; reflexivity).
      right. rewrite !escapeCharBut_other by assumption.
      split; [reflexivity | now apply inert_other]. }
  rewrite (decode_pass "&" "quot;" (String dquote "") (escapeCharBut "<>")
             (escapeCharBut (String "<" (String ">" (String dquote "")))) s eq_refl).
  2:{ intros c Hc. pose proof (hasChar_absent _ _ Hs Hc) as Hne.
      which_char c; try (now left); try (right; split; reflexivity).
      right. rewrite !escapeCharBut_other by assumption.
      split; [reflexivity | now apply inert_other]. }
  rewrite (decode_pass "&" "apos;" "'"
             (escapeCharBut (String "<" (String ">" (String dquote ""))))
             (escapeCharBut (String "<" (String ">" (String dquote "'")))) s eq_refl).
  2:{ intros c Hc. pose proof (hasChar_absent _ _ Hs Hc) as Hne.
      which_char c; try (now left); try (right; split; reflexivity).
      right. rewrite !escapeCharBut_other by assumption.
      split; [reflexivity | now apply inert_other]. }
  clear - Hs. induction s as [|c s IH]; [reflexivity|].
  cbn [hasChar] in Hs. apply orb_false_iff in Hs as [Hc Hs].
  cbn [expand]. rewrite (IH Hs).
  assert (Hne : c <> "&"%char) by (intros ->; discriminate Hc).
  which_char c; try reflexivity.
  now rewrite escapeCharBut_other.
Qed.

(* ================================================================== *)
(** ** Further properties of the entity codec *)
(* ================================================================== *)

(** X1.  Escaping then unescaping gives back every text that has no
    ampersand. *)
Theorem unescapeXml_inverts_escapeForXml (s : string) :
  hasChar "&" s = false ->
  StringUtils.unescapeXml (StringUtils.escapeForXml s) = s.
Proof. apply unescapeXml_escapeForXml_no_ampersand. Qed.

Lemma unescapeXml_inverts_escapeForXml_witness :
  hasChar "&" "a < 'b'" = false
  /\ StringUtils.unescapeXml (StringUtils.escapeForXml "a < 'b'") = "a < 'b'".
Proof.
  split; [reflexivity|].
  apply (unescapeXml_inverts_escapeForXml "a < 'b'"). reflexivity.
Defined.

(** X2.  Escaping works character by character: the escaped form of a
    concatenation is the concatenation of the escaped forms, and a single
    character gives its entity or itself, so no pass escapes the ampersand
    of an entity an earlier pass has written.  The output has no angle
    bracket, no double quote and no apostrophe, and [escapeXml] of the
    markup templates gives the same output. *)
Theorem escapeForXml_characterwise (a b text : string) (c : ascii) :
  StringUtils.escapeForXml (a ++ b)
  = StringUtils.escapeForXml a ++ StringUtils.escapeForXml b
  /\ StringUtils.escapeForXml (String c "") = escapeChar c
  /\ hasChar "<" (StringUtils.escapeForXml text) = false
  /\ hasChar ">" (StringUtils.escapeForXml text) = false
  /\ hasChar dquote (StringUtils.escapeForXml text) = false
  /\ hasChar "'" (StringUtils.escapeForXml text) = false
  /\ Constants.escapeXml text = StringUtils.escapeForXml text.
Proof.
  rewrite escapeXml_expand, !escapeForXml_expand, expand_app.
  split; [reflexivity|]. split; [cbn [expand]; apply app_empty_r|].
  repeat split; apply escaped_has_no; reflexivity.
Qed.

Lemma escapeTwiceBut_other (repaired : string) (c : ascii) :
  c <> "&"%char -> c <> "<"%char -> c <> ">"%char -> c <> dquote -> c <> "'"%char ->
  escapeTwiceBut repaired c = String c "".
Proof.
  intros H1 H2 H3 H4 H5. unfold escapeTwiceBut, escapeChar.
  apply Ascii.eqb_neq in H1, H2, H3, H4, H5.
  rewrite H1, H2, H3, H4, H5. cbn [expand append]. unfold escapeChar.
  rewrite H1, H2, H3, H4, H5. now destruct (hasChar c repaired).
Qed.

Ltac repair_pass Hs :=
  let c := fresh "c" in
  let Hc := fresh "Hc" in
  let Hne := fresh "Hne" in
  intros c Hc; pose proof (hasChar_absent _ _ Hs Hc) as Hne;
  which_char c; try (now left); try (right; split; reflexivity);
  right; rewrite !escapeTwiceBut_other by assumption;
  split; [reflexivity | now apply inert_other].

(** X3.  The repair pass undoes one round of escaping too many: a text
    without ampersand that was escaped twice comes out escaped once. *)
Theorem fixDoubleEscaping_repairs_double_escape (v : string) :
  hasChar "&" v = false ->
  StringUtils.fixDoubleEscaping
    (StringUtils.escapeForXml (StringUtils.escapeForXml v))
  = StringUtils.escapeForXml v.
Proof.
  intros Hs. rewrite !escapeForXml_expand, expand_expand.
  change (expand (fun c => expand escapeChar (escapeChar c)) v)
    with (expand (escapeTwiceBut "") v).
  unfold StringUtils.fixDoubleEscaping, StringUtils.replaceAll.
  rewrite (decode_pass "&" "amp;amp;" "&amp;" (escapeTwiceBut "") (escapeTwiceBut "")
             v eq_refl) by repair_pass Hs.
  rewrite (decode_pass "&" "amp;lt;" "&lt;" (escapeTwiceBut "") (escapeTwiceBut "<")
             v eq_refl) by repair_pass Hs.
  rewrite (decode_pass "&" "amp;gt;" "&gt;" (escapeTwiceBut "<") (escapeTwiceBut "<>")
             v eq_refl) by repair_pass Hs.
  rewrite (decode_pass "&" "amp;quot;" "&quot;" (escapeTwiceBut "<>")
             (escapeTwiceBut (String "<" (String ">" (String dquote "")))) v eq_refl)
    by repair_pass Hs.
  rewrite (decode_pass "&" "amp;apos;" "&apos;"
             (escapeTwiceBut (String "<" (String ">" (String dquote ""))))
             (escapeTwiceBut (String "<" (String ">" (String dquote "'")))) v eq_refl)
    by repair_pass Hs.
  clear - Hs. induction v as [|c v IH]; [reflexivity|].
  cbn [hasChar] in Hs. apply orb_false_iff in Hs as [Hc Hs].
  cbn [expand]. rewrite (IH Hs).
  assert (Hne : c <> "&"%char) by (intros ->; discriminate Hc).
  which_char c; try reflexivity.
  rewrite escapeTwiceBut_other by assumption.
  unfold escapeChar.
  repeat match goal with
         | H : c <> _ |- _ => apply Ascii.eqb_neq in H; rewrite H
         end.
  reflexivity.
Qed.

Lemma fixDoubleEscaping_repairs_double_escape_witness :
  hasChar "&" "<b>" = false
  /\ StringUtils.fixDoubleEscaping
       (StringUtils.escapeForXml (StringUtils.escapeForXml "<b>"))
     = StringUtils.escapeForXml "<b>".
Proof.
  split; [reflexivity|].
  apply (fixDoubleEscaping_repairs_double_escape "<b>"). reflexivity.
Defined.

(* ================================================================== *)
(** ** Further properties of [replaceAll] *)
(* ================================================================== *)

(** X4.  When the search text occurs once and the replacement has no live
    dollar pattern, the replacement stands where the occurrence was and the
    text around it is untouched. *)
Theorem replaceAll_one_occurrence (search replacement a b : string) :
  search <> "" ->
  plainTemplate replacement = true ->
  occurrences search (a ++ search ++ b) = 1 ->
  StringUtils.replaceAll (a ++ search ++ b) search replacement
  = a ++ replacement ++ b.
Proof. apply replaceAll_single. Qed.

Lemma replaceAll_one_occurrence_witness :
  "{{name}}" <> ""
  /\ plainTemplate "Ada" = true
  /\ occurrences "{{name}}" ("Dear " ++ "{{name}}" ++ ",") = 1
  /\ StringUtils.replaceAll ("Dear " ++ "{{name}}" ++ ",") "{{name}}" "Ada"
     = "Dear " ++ "Ada" ++ ",".
Proof.
  split; [discriminate|]. split; [reflexivity|]. split; [reflexivity|].
  apply (replaceAll_one_occurrence "{{name}}" "Ada" "Dear " ",");
    [discriminate | reflexivity | reflexivity].
Defined.

(** X5.  An empty search text matches before every character and at the end:
    the replacement is put in all those places. *)
Theorem replaceAll_empty_search (str replacement : string) :
  plainTemplate replacement = true ->
  StringUtils.replaceAll str "" replacement
  = replacement ++ expand (fun c => String c replacement) str.
Proof.
  intros Hr. unfold StringUtils.replaceAll, replaceGlobal.
  generalize ("" : string) at 2.
  induction str as [|c str IH]; intros before.
  - cbn [replaceFrom literal startsWith String.length expand].
    unfold substituted. now rewrite getSubstitution_plain by exact Hr.
  - cbn [replaceFrom literal startsWith String.length expand].
    unfold substituted. rewrite getSubstitution_plain by exact Hr.
    rewrite IH. reflexivity.
Qed.

Lemma replaceAll_empty_search_witness :
  plainTemplate "-" = true /\ StringUtils.replaceAll "ab" "" "-" = "-a-b-".
Proof.
  split; [reflexivity|].
  apply (replaceAll_empty_search "ab" "-"). reflexivity.
Defined.

Lemma replaceFrom_matched_text (p' : string) (a : ascii) (s : string) :
  forall before skip,
    replaceFrom (literal (String a p')) "$&" before skip s = drop skip s.
Proof.
  induction s as [|c s IH]; intros before skip.
  - destruct skip; reflexivity.
  - destruct skip as [|k]; cbn [replaceFrom drop]; [|apply IH].
    unfold literal. destruct (startsWith (String a p') (String c s)) eqn:E.
    + unfold substituted. cbn [getSubstitution Ascii.eqb Bool.eqb String.length].
      cbn [andb]. rewrite app_empty_r, IH.
      change (take (S (String.length p')) (String c s) ++ drop (String.length p') s)
        with (take (S (String.length p')) (String c s)
              ++ drop (S (String.length p')) (String c s)).
      apply take_drop.
    + now rewrite IH.
Qed.

(** X6.  The replacement text is read as a replacement pattern: with the
    pattern [$&], which stands for the matched text, every occurrence is
    replaced by itself and the text comes back unchanged. *)
Theorem replaceAll_matched_text_pattern (str search : string) :
  search <> "" ->
  StringUtils.replaceAll str search "$&" = str.
Proof.
  intros Hs. destruct search as [|a p']; [now elim Hs|].
  unfold StringUtils.replaceAll, replaceGlobal.
  now rewrite replaceFrom_matched_text.
Qed.

Lemma replaceAll_matched_text_pattern_witness :
  "{{name}}" <> ""
  /\ StringUtils.replaceAll "Dear {{name}}," "{{name}}" "$&" = "Dear {{name}},".
Proof.
  split; [discriminate|].
  apply (replaceAll_matched_text_pattern "Dear {{name}}," "{{name}}"). discriminate.
Defined.

(* ================================================================== *)
(** ** Further properties of the tag helpers of utils/xml.ts *)
(* ================================================================== *)

Lemma indexOfAt_first (p a rest : string) (i : nat) :
  noneBefore p a rest = true ->
  startsWith p rest = true ->
  indexOfAt p (a ++ rest) i = Some (i + String.length a).
Proof.
  revert i; induction a as [|c a IH]; intros i Ha Hr.
  - cbn [append String.length]. destruct rest; cbn [indexOfAt]; rewrite Hr;
      f_equal; lia.
  - cbn [noneBefore] in Ha. apply andb_true_iff in Ha as [H1 H2].
    apply negb_true_iff in H1.
    change (String c a ++ rest) with (String c (a ++ rest)) in *.
    cbn [indexOfAt]. rewrite H1, (IH _ H2 Hr). cbn [String.length]. f_equal. lia.
Qed.

Lemma indexOfAt_absent (p s : string) (i : nat) :
  includes p s = false -> indexOfAt p s i = None.
Proof.
  revert i; induction s as [|c s IH]; intros i H; cbn [includes] in H;
    apply orb_false_iff in H as [H1 H2]; cbn [indexOfAt]; rewrite H1;
    [reflexivity | now apply IH].
Qed.

(** Where [indexOf] finds the text, the text is. *)
Lemma indexOfAt_found (p s : string) (i j : nat) :
  indexOfAt p s i = Some j ->
  i <= j /\ j - i <= String.length s /\ startsWith p (drop (j - i) s) = true.
Proof.
  revert i; induction s as [|c s IH]; intros i; cbn [indexOfAt].
  - destruct (startsWith p "") eqn:E; [|discriminate].
    intros H. injection H as <-. rewrite Nat.sub_diag. now repeat split.
  - destruct (startsWith p (String c s)) eqn:E.
    + intros H. injection H as <-. rewrite Nat.sub_diag.
      repeat split; [lia | cbn; lia | exact E].
    + intros H. apply IH in H as (H1 & H2 & H3).
      replace (j - i) with (S (j - S i)) by lia.
      cbn [drop String.length]. repeat split; [lia | lia | exact H3].
Qed.

Lemma drop_drop (n m : nat) (s : string) : drop m (drop n s) = drop (n + m) s.
Proof.
  revert s; induction n as [|n IH]; intros s; [reflexivity|].
  destruct s as [|c s]; cbn [drop Nat.add]; [now destruct m | apply IH].
Qed.

Lemma noneBefore_single (p a b : string) :
  occurrences p (a ++ p ++ b) = 1 -> noneBefore p a (p ++ b) = true.
Proof.
  induction a as [|c a IH]; intros H; [reflexivity|].
  cbn [noneBefore]. change (String c a ++ p ++ b) with (String c (a ++ p ++ b)) in *.
  cbn [occurrences] in H.
  assert (Hin : occurrences p (a ++ p ++ b) <> 0).
  { intros E. apply includes_occurrences in E. now rewrite includes_middle in E. }
  destruct (startsWith p (String c (a ++ p ++ b))); [lia|].
  apply IH. lia.
Qed.

(** X7.  When the tag occurs, with [a] the text before its first
    occurrence, [insertBeforeTag] puts the content between [a] and the tag
    and [insertAfterTag] puts it right after the tag; later occurrences of
    the tag get nothing, and the content is inserted as it is. *)
Theorem insert_at_first_occurrence (a tag b content : string) :
  noneBefore tag a (tag ++ b) = true ->
  XmlUtils.insertBeforeTag (a ++ tag ++ b) tag content = a ++ content ++ tag ++ b
  /\ XmlUtils.insertAfterTag (a ++ tag ++ b) tag content = a ++ tag ++ content ++ b.
Proof.
  intros Ha. unfold XmlUtils.insertBeforeTag, XmlUtils.insertAfterTag, indexOf.
  rewrite (indexOfAt_first _ _ _ 0 Ha (startsWith_refl_app tag b)).
  cbn [Nat.add]. split.
  - now rewrite take_app_length, drop_app_length.
  - rewrite <- length_app_s.
    replace (a ++ tag ++ b) with ((a ++ tag) ++ b) by apply app_assoc_s.
    now rewrite take_app_length, drop_app_length, !app_assoc_s.
Qed.

Lemma insert_at_first_occurrence_witness :
  noneBefore "<w:p>" "<w:body>" ("<w:p>" ++ "one</w:p><w:p>two</w:p>") = true
  /\ XmlUtils.insertBeforeTag ("<w:body>" ++ "<w:p>" ++ "one</w:p><w:p>two</w:p>")
       "<w:p>" "$&"
     = "<w:body>" ++ "$&" ++ "<w:p>" ++ "one</w:p><w:p>two</w:p>"
  /\ XmlUtils.insertAfterTag ("<w:body>" ++ "<w:p>" ++ "one</w:p><w:p>two</w:p>")
       "<w:p>" "$&"
     = "<w:body>" ++ "<w:p>" ++ "$&" ++ "one</w:p><w:p>two</w:p>".
Proof.
  split; [reflexivity|].
  apply (insert_at_first_occurrence "<w:body>" "<w:p>" "one</w:p><w:p>two</w:p>" "$&").
  reflexivity.
Defined.

(** X8.  When the two tags occur in this order, with [a] the text before
    the first start tag and the end tag first found after the text [mid],
    [replaceBetweenTags] replaces [mid] and keeps both tags and the text
    around them. *)
Theorem replaceBetweenTags_replaces_inside
  (a startTag mid endTag b replacement : string) :
  noneBefore startTag a (startTag ++ mid ++ endTag ++ b) = true ->
  noneBefore endTag (startTag ++ mid) (endTag ++ b) = true ->
  XmlUtils.replaceBetweenTags (a ++ startTag ++ mid ++ endTag ++ b)
    startTag endTag replacement
  = a ++ startTag ++ replacement ++ endTag ++ b.
Proof.
  intros Hs He. unfold XmlUtils.replaceBetweenTags, indexOf, indexOfFrom.
  rewrite (indexOfAt_first _ _ _ 0 Hs (startsWith_refl_app startTag _)).
  cbn [Nat.add].
  rewrite Nat.min_l by (rewrite length_app_s; lia).
  rewrite drop_app_length.
  replace (startTag ++ mid ++ endTag ++ b) with ((startTag ++ mid) ++ endTag ++ b)
    by now rewrite app_assoc_s.
  rewrite (indexOfAt_first _ _ _ _ He (startsWith_refl_app endTag b)).
  rewrite <- (length_app_s a (startTag ++ mid)).
  replace (a ++ (startTag ++ mid) ++ endTag ++ b)
    with ((a ++ startTag ++ mid) ++ endTag ++ b) by now rewrite !app_assoc_s.
  rewrite drop_app_length.
  replace ((a ++ startTag ++ mid) ++ endTag ++ b)
    with ((a ++ startTag) ++ mid ++ endTag ++ b) by now rewrite !app_assoc_s.
  rewrite <- length_app_s, take_app_length. now rewrite !app_assoc_s.
Qed.

Lemma replaceBetweenTags_replaces_inside_witness :
  noneBefore "<w:t>" "<w:r>" ("<w:t>" ++ "old" ++ "</w:t>" ++ "</w:r>") = true
  /\ noneBefore "</w:t>" ("<w:t>" ++ "old") ("</w:t>" ++ "</w:r>") = true
  /\ XmlUtils.replaceBetweenTags ("<w:r>" ++ "<w:t>" ++ "old" ++ "</w:t>" ++ "</w:r>")
       "<w:t>" "</w:t>" "new"
     = "<w:r>" ++ "<w:t>" ++ "new" ++ "</w:t>" ++ "</w:r>".
Proof.
  split; [reflexivity|]. split; [reflexivity|].
  apply (replaceBetweenTags_replaces_inside "<w:r>" "<w:t>" "old" "</w:t>" "</w:r>" "new");
    reflexivity.
Defined.

(** A text that lacks the tag is returned unchanged by the three tag
    helpers; for [replaceBetweenTags] it is enough that either tag is
    missing. *)
Theorem tag_helpers_without_tag (xml tag other content : string) :
  includes tag xml = false ->
  XmlUtils.insertBeforeTag xml tag content = xml
  /\ XmlUtils.insertAfterTag xml tag content = xml
  /\ XmlUtils.replaceBetweenTags xml tag other content = xml
  /\ XmlUtils.replaceBetweenTags xml other tag content = xml.
Proof.
  intros H. unfold XmlUtils.insertBeforeTag, XmlUtils.insertAfterTag,
    XmlUtils.replaceBetweenTags, indexOf, indexOfFrom.
  rewrite (indexOfAt_absent _ _ 0 H). repeat split.
  destruct (indexOfAt other xml 0) as [i|]; [|reflexivity].
  rewrite indexOfAt_absent; [reflexivity|].
  destruct (includes tag (drop (Nat.min i (String.length xml)) xml)) eqn:E;
    [|reflexivity].
  rewrite <- (take_drop (Nat.min i (String.length xml)) xml) in H.
  now rewrite (includes_app_r _ _ _ E) in H.
Qed.


(** X9.  The search for the end tag starts at the start tag itself, not
    after it: given the same text as start and end tag, [replaceBetweenTags]
    removes nothing and inserts the replacement and a second copy of the tag
    after the first occurrence, as [insertAfterTag] would. *)
Theorem replaceBetweenTags_same_tag (xml tag replacement : string) :
  XmlUtils.replaceBetweenTags xml tag tag replacement
  = XmlUtils.insertAfterTag xml tag (replacement ++ tag).
Proof.
  unfold XmlUtils.replaceBetweenTags, XmlUtils.insertAfterTag, indexOf, indexOfFrom.
  destruct (indexOfAt tag xml 0) as [i|] eqn:E.
  - apply indexOfAt_found in E as (_ & H1 & H2). rewrite Nat.sub_0_r in H1, H2.
    rewrite Nat.min_l by exact H1.
    destruct (drop i xml) as [|c rest] eqn:D; cbn [indexOfAt]; rewrite H2.
    + apply startsWith_empty in H2. subst tag.
      cbn [String.length]. now rewrite Nat.add_0_r, !app_empty_r.
    + rewrite app_assoc_s. do 2 f_equal.
      rewrite <- drop_drop, D. now apply startsWith_take.
  - reflexivity.
Qed.

Lemma insert_before_single (a tag b content : string) :
  occurrences tag (a ++ tag ++ b) = 1 ->
  XmlUtils.insertBeforeTag (a ++ tag ++ b) tag content = a ++ content ++ tag ++ b
  /\ XmlUtils.insertAfterTag (a ++ tag ++ b) tag content = a ++ tag ++ content ++ b.
Proof.
  intros H. apply noneBefore_single in H.
  unfold XmlUtils.insertBeforeTag, XmlUtils.insertAfterTag, indexOf.
  rewrite (indexOfAt_first _ _ _ 0 H (startsWith_refl_app tag b)).
  cbn [Nat.add]. split.
  - now rewrite take_app_length, drop_app_length.
  - rewrite <- length_app_s.
    replace (a ++ tag ++ b) with ((a ++ tag) ++ b) by apply app_assoc_s.
    now rewrite take_app_length, drop_app_length, !app_assoc_s.
Qed.

(** X10.  In a relationship part with one closing tag, [addRelationship]
    puts the relationship and a line feed right before the closing tag and
    leaves the rest as it is, provided the relationship has no live dollar
    pattern; this is what [insertBeforeTag] does at that tag. *)
Theorem addRelationship_before_closing_tag (a b relationshipXml : string) :
  plainTemplate relationshipXml = true ->
  occurrences "</Relationships>" (a ++ "</Relationships>" ++ b) = 1 ->
  XmlUtils.addRelationship (a ++ "</Relationships>" ++ b) relationshipXml
  = a ++ relationshipXml ++ String "010" "" ++ "</Relationships>" ++ b
  /\ XmlUtils.addRelationship (a ++ "</Relationships>" ++ b) relationshipXml
     = XmlUtils.insertBeforeTag (a ++ "</Relationships>" ++ b) "</Relationships>"
         (relationshipXml ++ String "010" "").
Proof.
  intros Hp Hone.
  destruct (insert_before_single a "</Relationships>" b
              (relationshipXml ++ String "010" "") Hone) as [-> _].
  unfold XmlUtils.addRelationship.
  rewrite replaceAll_single; [| discriminate | | exact Hone].
  - now rewrite !app_assoc_s.
  - now apply plainTemplate_app.
Qed.

Lemma addRelationship_before_closing_tag_witness :
  plainTemplate "<Relationship Id='rId7'/>" = true
  /\ occurrences "</Relationships>" ("<Relationships>" ++ "</Relationships>" ++ "") = 1
  /\ XmlUtils.addRelationship ("<Relationships>" ++ "</Relationships>" ++ "")
       "<Relationship Id='rId7'/>"
     = "<Relationships>" ++ "<Relationship Id='rId7'/>" ++ String "010" ""
       ++ "</Relationships>" ++ ""
  /\ XmlUtils.addRelationship ("<Relationships>" ++ "</Relationships>" ++ "")
       "<Relationship Id='rId7'/>"
     = XmlUtils.insertBeforeTag ("<Relationships>" ++ "</Relationships>" ++ "")
         "</Relationships>" ("<Relationship Id='rId7'/>" ++ String "010" "").
Proof.
  split; [reflexivity|]. split; [reflexivity|].
  apply (addRelationship_before_closing_tag "<Relationships>" ""
           "<Relationship Id='rId7'/>"); reflexivity.
Defined.

Lemma updateRels_without_closing_tag (rels : string) (images : list PreparedImage) :
  includes "</Relationships>" rels = false ->
  DocxGenerator.updateRels rels images = rels.
Proof.
  intros H. unfold DocxGenerator.updateRels.
  induction images as [|image images IH]; [reflexivity|].
  cbn [fold_left]. unfold XmlUtils.addRelationship at 2.
  now rewrite replaceAll_absent by exact H.
Qed.

Lemma addContentType_without_closing_tag (types e c : string) :
  includes "</Types>" types = false -> addContentType types e c = types.
Proof.
  intros H. unfold addContentType.
  destruct (includes (extensionAttr e) types); [reflexivity|].
  now apply replaceAll_absent.
Qed.

(** X11.  A registry part without its closing tag is left as it is: the
    relationships and the content types of the prepared images are dropped
    without an error. *)
Theorem registries_without_closing_tag (rels types : string)
  (images : list PreparedImage) :
  includes "</Relationships>" rels = false ->
  includes "</Types>" types = false ->
  DocxGenerator.updateRels rels images = rels
  /\ DocxGenerator.updateContentTypes types images = types.
Proof.
  intros Hr Ht. split; [now apply updateRels_without_closing_tag|].
  unfold DocxGenerator.updateContentTypes.
  induction (setOf [] (map p_extension images)) as [|e l IH]; [reflexivity|].
  cbn [fold_left]. now rewrite addContentType_without_closing_tag by exact Ht.
Qed.

Lemma registries_without_closing_tag_witness :
  includes "</Relationships>" "<Relationships>" = false
  /\ includes "</Types>" "<Types>" = false
  /\ DocxGenerator.updateRels "<Relationships>" [Examples.pngImage 0] = "<Relationships>"
  /\ DocxGenerator.updateContentTypes "<Types>" [Examples.pngImage 0] = "<Types>".
Proof.
  split; [reflexivity|]. split; [reflexivity|].
  apply (registries_without_closing_tag "<Relationships>" "<Types>"
           [Examples.pngImage 0]); reflexivity.
Defined.

(* ================================================================== *)
(** ** Further properties: a free relationship identifier *)
(* ================================================================== *)

Lemma arrayIncludes_true (l : list string) (x : string) :
  arrayIncludes l x = true <-> In x l.
Proof.
  induction l as [|y l IH]; cbn [arrayIncludes In]; [split; [discriminate | tauto]|].
  rewrite orb_true_iff, IH, String.eqb_eq. split; intros [H|H]; auto.
Qed.

Lemma arrayIncludes_false (l : list string) (x : string) :
  arrayIncludes l x = false <-> ~ In x l.
Proof.
  rewrite <- arrayIncludes_true. destruct (arrayIncludes l x); split; intros H;
    try discriminate; try reflexivity; now elim H.
Qed.

Lemma relId_inj (a b : nat) : "rId" ++ ofNat a = "rId" ++ ofNat b -> a = b.
Proof. intros H. injection H as H. now apply ofNat_inj. Qed.

Lemma uniqueRelIdLoop_result (fuel : nat) (existingIds : list string) :
  forall id result,
    uniqueRelIdLoop fuel existingIds id = Some result ->
    exists n, result = "rId" ++ ofNat n /\ id <= n < id + fuel
              /\ arrayIncludes existingIds result = false
              /\ forall m, id <= m < n ->
                           arrayIncludes existingIds ("rId" ++ ofNat m) = true.
Proof.
  induction fuel as [|fuel IH]; intros id result; cbn [uniqueRelIdLoop];
    [discriminate|].
  destruct (arrayIncludes existingIds ("rId" ++ ofNat id)) eqn:E.
  - intros H. destruct (IH _ _ H) as (n & -> & Hn & Hfree & Hmin).
    exists n. repeat split; try lia; [exact Hfree|].
    intros m Hm. destruct (Nat.eq_dec m id) as [->|Hne]; [exact E|].
    apply Hmin. lia.
  - intros H. injection H as <-. exists id. repeat split; try lia. exact E.
Qed.

Lemma uniqueRelIdLoop_exhausted (fuel : nat) (existingIds : list string) :
  forall id,
    uniqueRelIdLoop fuel existingIds id = None ->
    forall m, id <= m < id + fuel -> In ("rId" ++ ofNat m) existingIds.
Proof.
  induction fuel as [|fuel IH]; intros id H m Hm; [lia|].
  cbn [uniqueRelIdLoop] in H.
  destruct (arrayIncludes existingIds ("rId" ++ ofNat id)) eqn:E; [|discriminate].
  destruct (Nat.eq_dec m id) as [->|Hne]; [apply arrayIncludes_true; exact E|].
  apply (IH _ H). lia.
Qed.

(** X12.  [generateUniqueRelId] always returns: the search ends after at
    most one step more than there are existing identifiers.  The result is
    [rId] followed by the least positive number whose identifier is not an
    existing one. *)
Theorem generateUniqueRelId_least_free (existingIds : list string) :
  exists n,
    XmlUtils.generateUniqueRelId existingIds = Some ("rId" ++ ofNat n)
    /\ 1 <= n <= S (List.length existingIds)
    /\ ~ In ("rId" ++ ofNat n) existingIds
    /\ forall m, 1 <= m < n -> In ("rId" ++ ofNat m) existingIds.
Proof.
  unfold XmlUtils.generateUniqueRelId.
  destruct (uniqueRelIdLoop (S (List.length existingIds)) existingIds 1)
    as [result|] eqn:E.
  - destruct (uniqueRelIdLoop_result _ _ _ _ E) as (n & -> & Hn & Hfree & Hmin).
    exists n. repeat split; try lia.
    + apply arrayIncludes_false. exact Hfree.
    + intros m Hm. apply arrayIncludes_true, Hmin. lia.
  - exfalso. pose proof (uniqueRelIdLoop_exhausted _ _ _ E) as Hall.
    set (n := List.length existingIds) in *.
    set (tried := map (fun m => "rId" ++ ofNat m) (seq 1 (S n))).
    assert (Hnd : NoDup tried).
    { apply Injective_map_NoDup; [|apply seq_NoDup].
      intros a b Hab. now apply relId_inj. }
    assert (Hin : incl tried existingIds).
    { intros x Hx. apply in_map_iff in Hx as (m & <- & Hm).
      apply in_seq in Hm. apply Hall. lia. }
    pose proof (NoDup_incl_length Hnd Hin) as Hlen.
    unfold tried in Hlen. rewrite length_map, length_seq in Hlen. lia.
Qed.

(* ================================================================== *)
(** ** Expressions of the form [open], one or more characters other than
       [x], [x close] *)
(* ================================================================== *)

Import Pattern.

Lemma exactly_eqb (a d : ascii) : exactly a d = (a =? d)%char.
Proof. reflexivity. Qed.

Lemma anyBut_eqb (a d : ascii) : anyBut a d = negb (a =? d)%char.
Proof. reflexivity. Qed.

Lemma matchPattern_text (p : string) (rest : list Pattern.item) :
  forall s,
    matchPattern (text p ++ rest) s
    = if startsWith p s
      then option_map (Nat.add (String.length p)) (matchPattern rest (drop (String.length p) s))
      else None.
Proof.
  induction p as [|a p IH]; intros s.
  - cbn [text Datatypes.app startsWith String.length drop].
    now destruct (matchPattern rest s).
  - cbn [text Datatypes.app matchPattern].
    destruct s as [|d s]; [reflexivity|].
    cbn [startsWith String.length drop]. rewrite exactly_eqb.
    destruct (a =? d)%char; [|reflexivity]. cbn [andb]. rewrite IH.
    destruct (startsWith p s); [|reflexivity].
    now destruct (matchPattern rest (drop (String.length p) s)).
Qed.

Lemma matchPattern_closing (close s : string) :
  matchPattern (text close) s
  = if startsWith close s then Some (String.length close) else None.
Proof.
  rewrite <- (app_nil_r (text close)), matchPattern_text.
  destruct (startsWith close s); [|reflexivity].
  cbn [matchPattern option_map]. now rewrite Nat.add_0_r.
Qed.

Lemma matchPattern_one (cls : ascii -> bool) (rest : list Pattern.item)
  (d : ascii) (s : string) :
  matchPattern (One cls :: rest) (String d s)
  = if cls d then option_map S (matchPattern rest s) else None.
Proof. reflexivity. Qed.

Lemma matchPattern_many (cls : ascii -> bool) (rest : list Pattern.item) (s : string) :
  matchPattern (Many cls :: rest) s = matchStar cls (matchPattern rest) s.
Proof. reflexivity. Qed.

(** A starred class of everything but [x], followed by [x]: the star runs up
    to the first [x], and giving characters back never helps. *)
Lemma matchStar_until (x : ascii) (rest : list Pattern.item) (s : string) (n : nat) :
  matchStar (anyBut x) (matchPattern (One (exactly x) :: rest)) s = Some n
  <-> exists body tail m,
        s = body ++ String x tail /\ hasChar x body = false
        /\ matchPattern rest tail = Some m /\ n = String.length body + 1 + m.
Proof.
  set (k := matchPattern (One (exactly x) :: rest)).
  assert (Hk : forall d t, k (String d t)
                           = if (x =? d)%char then option_map S (matchPattern rest t)
                             else None) by reflexivity.
  assert (Hk0 : k "" = None) by reflexivity.
  clearbody k. split.
  - revert n; induction s as [|c s IH]; intros n; cbn [matchStar];
      [rewrite Hk0; discriminate|].
    rewrite anyBut_eqb.
    destruct (x =? c)%char eqn:E; cbn [negb].
    + rewrite Hk, E. apply Ascii.eqb_eq in E. subst c.
      destruct (matchPattern rest s) as [m|] eqn:M; [|discriminate].
      cbn [option_map]. intros H. injection H as <-.
      exists "", s, m. now repeat split.
    + destruct (matchStar (anyBut x) k s) as [j|] eqn:M;
        [|rewrite Hk, E; discriminate].
      intros H. injection H as <-.
      destruct (IH j eq_refl) as (body & tail & m & -> & Hb & Hm & ->).
      exists (String c body), tail, m. cbn [hasChar String.length].
      rewrite E, Hb. now repeat split.
  - intros (body & tail & m & -> & Hb & Hm & ->).
    induction body as [|c body IH].
    + cbn [append matchStar String.length Nat.add].
      rewrite anyBut_eqb, Ascii.eqb_refl. cbn [negb].
      now rewrite Hk, Ascii.eqb_refl, Hm.
    + cbn [hasChar] in Hb. apply orb_false_iff in Hb as [Hc Hb].
      cbn [append matchStar String.length]. rewrite anyBut_eqb, Hc.
      cbn [negb]. now rewrite (IH Hb).
Qed.

Lemma delimited_match (open : string) (x : ascii) (close s : string) (n : nat) :
  matchPattern (text open ++ [One (anyBut x); Many (anyBut x)] ++ text (String x close)) s
  = Some n
  <-> exists body tail,
        s = open ++ body ++ String x close ++ tail /\ body <> ""
        /\ hasChar x body = false
        /\ n = String.length open + String.length body + S (String.length close).
Proof.
  rewrite matchPattern_text.
  cbn [Datatypes.app text]. split.
  - destruct (startsWith open s) eqn:Ho; [|discriminate].
    apply startsWith_take in Ho.
    destruct (drop (String.length open) s) as [|c s1]; [discriminate|].
    rewrite matchPattern_one, matchPattern_many, anyBut_eqb.
    destruct (x =? c)%char eqn:Ec; [discriminate|]. cbn [negb].
    destruct (matchStar (anyBut x) (matchPattern (One (exactly x) :: text close)) s1)
      as [j|] eqn:M; [|discriminate].
    cbn [option_map]. intros H. injection H as <-.
    apply matchStar_until in M as (body & tail & m & -> & Hb & Hm & ->).
    rewrite matchPattern_closing in Hm.
    destruct (startsWith close tail) eqn:Hc; [|discriminate].
    injection Hm as <-. apply startsWith_take in Hc.
    exists (String c body), (drop (String.length close) tail).
    repeat split.
    + rewrite Ho at 1. cbn [append]. now rewrite <- Hc.
    + discriminate.
    + cbn [hasChar]. now rewrite Ec, Hb.
    + cbn [String.length]. lia.
  - intros (body & tail & -> & Hne & Hb & ->).
    rewrite startsWith_refl_app, drop_app_length.
    destruct body as [|c body]; [now elim Hne|].
    cbn [hasChar] in Hb. apply orb_false_iff in Hb as [Hc Hb].
    cbn [append]. rewrite matchPattern_one, matchPattern_many, anyBut_eqb, Hc.
    cbn [negb].
    assert (M : matchStar (anyBut x) (matchPattern (One (exactly x) :: text close))
                  (body ++ String x (close ++ tail))
                = Some (String.length body + 1 + String.length close)).
    { apply matchStar_until. exists body, (close ++ tail), (String.length close).
      repeat split; [exact Hb|].
      now rewrite matchPattern_closing, startsWith_refl_app. }
    rewrite M. cbn [option_map String.length]. f_equal. lia.
Qed.

(** Every text [match] returns is a match of the expression at some place
    of the text. *)
Lemma matchAllFrom_In (matcher : string -> option nat) (m : string) (s : string) :
  forall skip,
    In m (matchAllFrom matcher skip s) ->
    exists a t n, s = a ++ t /\ matcher t = Some n /\ m = take n t.
Proof.
  induction s as [|c s IH]; intros skip.
  - destruct skip; cbn [matchAllFrom]; [|intros []].
    destruct (matcher "") as [n|] eqn:E; [|intros []].
    intros [<-|[]]. now exists "", "", n.
  - assert (Hs : forall k, In m (matchAllFrom matcher k s) ->
                   exists a t n, String c s = a ++ t /\ matcher t = Some n /\ m = take n t).
    { intros k H. destruct (IH _ H) as (a & t & n & -> & Hn & ->).
      now exists (String c a), t, n. }
    destruct skip as [|k]; cbn [matchAllFrom]; [|apply Hs].
    destruct (matcher (String c s)) as [n|] eqn:E; [|apply Hs].
    intros [<-|H].
    + now exists "", (String c s), n.
    + destruct n; now apply Hs in H.
Qed.

Lemma matchAllFrom_skip (matcher : string -> option nat) (u t : string) :
  matchAllFrom matcher (String.length u) (u ++ t) = matchAllFrom matcher 0 t.
Proof. induction u as [|c u IH]; [reflexivity | exact IH]. Qed.

(** The scan passes over a text none of whose characters can start a
    match. *)
Lemma matchAllFrom_pass (matcher : string -> option nat) (u t : string) :
  (forall c r, hasChar c u = true -> matcher (String c r) = None) ->
  matchAllFrom matcher 0 (u ++ t) = matchAllFrom matcher 0 t.
Proof.
  induction u as [|c u IH]; intros H; [reflexivity|].
  cbn [append matchAllFrom]. rewrite H by (cbn [hasChar]; now rewrite Ascii.eqb_refl).
  apply IH. intros d r Hd. apply H. cbn [hasChar]. rewrite Hd. apply orb_true_r.
Qed.

(** A match of [n] characters at the head of the text is reported, and the
    scan goes on after it. *)
Lemma matchAllFrom_head (matcher : string -> option nat) (m t : string) :
  m <> "" ->
  matcher (m ++ t) = Some (String.length m) ->
  matchAllFrom matcher 0 (m ++ t) = m :: matchAllFrom matcher 0 t.
Proof.
  intros Hne H. destruct m as [|c m]; [now elim Hne|].
  cbn [append matchAllFrom]. change (String c (m ++ t)) with (String c m ++ t).
  rewrite H. cbn [String.length]. rewrite matchAllFrom_skip.
  f_equal. change (S (String.length m)) with (String.length (String c m)).
  apply take_app_length.
Qed.

(* ================================================================== *)
(** ** Further properties: reading the identifiers of a relationship part *)
(* ================================================================== *)

Lemma idRegExp_match (s : string) (n : nat) :
  matchPattern idRegExp s = Some n
  <-> exists body tail,
        s = q "Id='" ++ body ++ String dquote tail /\ body <> ""
        /\ hasChar dquote body = false /\ n = 4 + String.length body + 1.
Proof.
  unfold idRegExp. change (q "'") with (String dquote "").
  rewrite delimited_match. split.
  - intros (body & tail & -> & Hne & Hb & ->). exists body, tail.
    repeat split; try assumption; cbn [String.length q]; lia.
  - intros (body & tail & -> & Hne & Hb & ->). exists body, tail.
    repeat split; try assumption; cbn [String.length q]; lia.
Qed.

Lemma idRegExp_needs_I (c : ascii) (r : string) :
  ("I" =? c)%char = false -> matchPattern idRegExp (String c r) = None.
Proof.
  intros H. unfold idRegExp.
  change (text (q "Id='"))
    with (One (exactly "I") :: text (String "d" (String "=" (String dquote "")))).
  cbn [Datatypes.app]. now rewrite matchPattern_one, exactly_eqb, H.
Qed.

Lemma hasChar_other (x c : ascii) (u : string) :
  hasChar x u = false -> hasChar c u = true -> (x =? c)%char = false.
Proof.
  intros Hx Hc. destruct (Ascii.eqb_spec x c) as [->|]; [congruence | reflexivity].
Qed.

Lemma replaceFirstFrom_found (search replacement before s : string) :
  startsWith search s = true ->
  replaceFirstFrom search replacement before s
  = getSubstitution search before (drop (String.length search) s) replacement
    ++ drop (String.length search) s.
Proof. intros H. destruct s; cbn [replaceFirstFrom]; now rewrite H. Qed.

Lemma replaceFirst_head (p rest : string) : replaceFirst p "" (p ++ rest) = rest.
Proof.
  unfold replaceFirst. rewrite replaceFirstFrom_found by apply startsWith_refl_app.
  cbn [getSubstitution append]. apply drop_app_length.
Qed.

Lemma replaceFirstFrom_char (x : ascii) (body rest before : string) :
  hasChar x body = false ->
  replaceFirstFrom (String x "") "" before (body ++ String x rest) = body ++ rest.
Proof.
  revert before; induction body as [|c body IH]; intros before H.
  - cbn [append replaceFirstFrom startsWith]. now rewrite Ascii.eqb_refl.
  - cbn [hasChar] in H. apply orb_false_iff in H as [Hc H].
    cbn [append replaceFirstFrom startsWith]. rewrite Hc. cbn [andb].
    now rewrite IH.
Qed.

(** X13.  Every identifier [extractRelationshipIds] returns is the value of
    an [Id] attribute of the text: it is not empty, has no double quote, and
    stands in the text between [Id=], a double quote, and a double quote. *)
Theorem extractRelationshipIds_sound (relsContent id : string) :
  In id (XmlUtils.extractRelationshipIds relsContent) ->
  id <> "" /\ hasChar dquote id = false
  /\ includes (q "Id='" ++ id ++ q "'") relsContent = true.
Proof.
  unfold XmlUtils.extractRelationshipIds, matchAll. intros H.
  apply in_map_iff in H as (m & <- & Hm).
  apply matchAllFrom_In in Hm as (a & t & n & -> & Hn & ->).
  apply idRegExp_match in Hn as (body & tail & -> & Hne & Hb & ->).
  assert (E : take (4 + String.length body + 1) (q "Id='" ++ body ++ String dquote tail)
              = q "Id='" ++ body ++ q "'").
  { replace (q "Id='" ++ body ++ String dquote tail)
      with ((q "Id='" ++ body ++ q "'") ++ tail)
      by (rewrite !app_assoc_s; reflexivity).
    replace (4 + String.length body + 1)
      with (String.length (q "Id='" ++ body ++ q "'"))
      by (rewrite !length_app_s; cbn [q String.length]; lia).
    apply take_app_length. }
  rewrite E, replaceFirst_head.
  change (q "'") with (String dquote "").
  unfold replaceFirst. rewrite replaceFirstFrom_char by exact Hb.
  rewrite app_empty_r. repeat split; [exact Hne | exact Hb |].
  apply includes_app_r.
  replace (q "Id='" ++ body ++ String dquote tail)
    with ("" ++ (q "Id='" ++ body ++ String dquote "") ++ tail)
    by (cbn [append]; rewrite !app_assoc_s; reflexivity).
  apply includes_middle.
Qed.

Lemma extractRelationshipIds_sound_witness :
  In "rId3" (XmlUtils.extractRelationshipIds
               (q "<Relationship Id='rId3' Target='styles.xml'/>"))
  /\ "rId3" <> "" /\ hasChar dquote "rId3" = false
  /\ includes (q "Id='" ++ "rId3" ++ q "'")
       (q "<Relationship Id='rId3' Target='styles.xml'/>") = true.
Proof.
  split; [left; reflexivity|].
  apply (extractRelationshipIds_sound
           (q "<Relationship Id='rId3' Target='styles.xml'/>") "rId3").
  left. reflexivity.
Defined.

(** The relationship [generateImageRelationship] writes has one [Id]
    attribute to read, the identifier it was given. *)
Lemma extract_generated (id file : string) :
  id <> "" -> hasChar dquote id = false -> hasChar "I" file = false ->
  XmlUtils.extractRelationshipIds (Constants.generateImageRelationship id file) = [id].
Proof.
  intros Hne Hq Hf.
  unfold XmlUtils.extractRelationshipIds, matchAll, Constants.generateImageRelationship.
  set (tail := q "' Type='http://schemas.openxmlformats.org/officeDocument/2006/relationships/image' Target='media/"
               ++ file ++ q "' />").
  assert (Ht : exists tail', tail = String dquote tail' /\ hasChar "I" tail' = false).
  { exists (q " Type='http://schemas.openxmlformats.org/officeDocument/2006/relationships/image' Target='media/"
            ++ file ++ q "' />").
    split; [reflexivity|]. rewrite !hasChar_app, Hf. reflexivity. }
  destruct Ht as (tail' & -> & Ht).
  change (q "<Relationship Id='") with ("<Relationship " ++ q "Id='").
  rewrite app_assoc_s.
  rewrite matchAllFrom_pass
    by (intros c r Hc; apply idRegExp_needs_I;
        now apply (hasChar_other _ _ "<Relationship ")).
  replace (q "Id='" ++ id ++ String dquote tail')
    with ((q "Id='" ++ id ++ q "'") ++ tail')
    by (rewrite !app_assoc_s; reflexivity).
  rewrite matchAllFrom_head.
  - rewrite <- (app_empty_r tail').
    rewrite matchAllFrom_pass
      by (intros c r Hc; apply idRegExp_needs_I;
          now apply (hasChar_other _ _ tail')).
    cbn [matchAllFrom map]. rewrite replaceFirst_head.
    change (q "'") with (String dquote "").
    unfold replaceFirst. rewrite replaceFirstFrom_char by exact Hq.
    now rewrite app_empty_r.
  - discriminate.
  - apply idRegExp_match. exists id, tail'.
    repeat split; try assumption.
    + rewrite !app_assoc_s. reflexivity.
    + rewrite !length_app_s. cbn [q String.length]. lia.
Qed.

(* ================================================================== *)
(** ** Further properties of the image preparation *)
(* ================================================================== *)

Lemma text_before_char (x : ascii) (a b r r' : string) :
  hasChar x a = false -> hasChar x b = false ->
  a ++ String x r = b ++ String x r' -> a = b.
Proof.
  revert b; induction a as [|c a IH]; intros [|d b] Ha Hb E; cbn [append] in E.
  - reflexivity.
  - injection E as E _. subst d. cbn [hasChar] in Hb.
    now rewrite Ascii.eqb_refl in Hb.
  - injection E as E _. subst c. cbn [hasChar] in Ha.
    now rewrite Ascii.eqb_refl in Ha.
  - injection E as -> E. cbn [hasChar] in Ha, Hb.
    apply orb_false_iff in Ha as [_ Ha]. apply orb_false_iff in Hb as [_ Hb].
    f_equal. now apply IH.
Qed.

(** The file name tells the index: the digits end at the first dot. *)
Lemma generateImageFileName_index (i j : nat) (e e' : string) :
  generateImageFileName i e = generateImageFileName j e' -> i = j.
Proof.
  unfold generateImageFileName. intros H.
  assert (E : ofNat (i + 1) = ofNat (j + 1)).
  { apply (text_before_char "." _ _ e e'); try (apply ofNat_chars; reflexivity).
    cbn [append] in H. now injection H. }
  apply ofNat_inj in E. lia.
Qed.

Section PreparedFacts.
Variable readFile : string -> string + Buffer.
Variable download : string -> string + Buffer.
Variable extname : string -> string.
Variable pathname : string -> option string.

Lemma extensionOf_shape (file : string) :
  extensionOf extname file <> ""
  /\ allChars (fun c => (lowerChar c =? c)%char) (extensionOf extname file) = true.
Proof.
  unfold extensionOf, orString.
  destruct (String.eqb_spec (replaceFirst "." "" (toLowerCase (extname file))) "")
    as [_|Hne]; [split; [discriminate | reflexivity]|].
  split; [exact Hne|].
  apply replaceFirstFrom_allChars, toLowerCase_lower.
Qed.

(** X14.  The extension [getImageExtension] resolves to is never empty and
    is in lower case, whatever the path library and the URL parser answer:
    a missing extension is [png]. *)
Theorem getImageExtension_shape (config : ImageConfig) (extension : string) :
  getImageExtension extname pathname config = Resolved extension ->
  extension <> "" /\ toLowerCase extension = extension.
Proof.
  unfold getImageExtension. intros H.
  assert (E : extension <> ""
              /\ allChars (fun c => (lowerChar c =? c)%char) extension = true).
  { destruct (truthy (path config)) as [p|].
    - injection H as <-. apply extensionOf_shape.
    - destruct (truthy (url config)) as [u|].
      + destruct (pathname u) as [urlPath|]; [|discriminate].
        injection H as <-. apply extensionOf_shape.
      + injection H as <-. split; [discriminate | reflexivity]. }
  destruct E as [E1 E2]. split; [exact E1 | now apply lower_toLowerCase].
Qed.

Lemma prepareImage_parts (random : string) (config : ImageConfig) (index : nat)
  (existingIds : list string) (p : PreparedImage) :
  prepareImage readFile download extname pathname random config index existingIds
  = Resolved p ->
  getImageBuffer readFile download config = Resolved (p_buffer p)
  /\ getImageExtension extname pathname config = Resolved (p_extension p)
  /\ p_fileName p = generateImageFileName index (p_extension p)
  /\ p_relationshipXml p = Constants.generateImageRelationship (p_id p) (p_fileName p)
  /\ p_placeholder p = placeholder config.
Proof.
  unfold prepareImage, bind.
  destruct (getImageBuffer readFile download config) as [b| |]; try discriminate.
  destruct (getImageExtension extname pathname config) as [e| |]; try discriminate.
  destruct (uniqueIdLoop _ _ _ _ _) as [id'|]; [|discriminate].
  intros H. injection H as <-. now repeat split.
Qed.

(** X15.  Reading the identifiers back from the relationship a prepared
    image carries gives exactly the identifier of the image, when that
    identifier is not empty and has no double quote. *)
Theorem prepared_relationship_id (random : string) (config : ImageConfig)
  (index : nat) (existingIds : list string) (p : PreparedImage) :
  prepareImage readFile download extname pathname random config index existingIds
  = Resolved p ->
  p_id p <> "" -> hasChar dquote (p_id p) = false ->
  XmlUtils.extractRelationshipIds (p_relationshipXml p) = [p_id p].
Proof.
  intros H Hne Hq.
  destruct (prepareImage_parts _ _ _ _ _ H) as (_ & He & Hf & -> & _).
  apply extract_generated; [exact Hne | exact Hq |].
  rewrite Hf. unfold generateImageFileName. rewrite !hasChar_app.
  rewrite (ofNat_chars "I") by reflexivity.
  apply getImageExtension_shape in He as [_ He].
  rewrite (hasChar_allChars (fun c => (lowerChar c =? c)%char) "I" (p_extension p));
    [reflexivity | reflexivity |].
  rewrite <- He. apply toLowerCase_lower.
Qed.

(** X16.  With a buffer in the configuration, neither the file system nor
    the network is used: the prepared image is the same whatever the two
    would answer, and its content is the buffer. *)
Theorem prepareImage_buffer_only (readFile' download' : string -> string + Buffer)
  (random : string) (config : ImageConfig) (index : nat)
  (existingIds : list string) (b : Buffer) :
  buffer config = Some b ->
  prepareImage readFile download extname pathname random config index existingIds
  = prepareImage readFile' download' extname pathname random config index existingIds
  /\ forall p,
       prepareImage readFile download extname pathname random config index existingIds
       = Resolved p -> p_buffer p = b.
Proof.
  intros Hb. unfold prepareImage, getImageBuffer. rewrite Hb. split; [reflexivity|].
  cbn [bind]. intros p.
  destruct (getImageExtension extname pathname config) as [e| |]; try discriminate.
  cbn [bind]. destruct (uniqueIdLoop _ _ _ _ _) as [id'|]; [|discriminate].
  intros H. now injection H as <-.
Qed.

Variable random : nat -> string.

Lemma prepareFrom_layout (existingIds : list string) (images : list ImageConfig) :
  forall (i : nat) (acc ps : list PreparedImage),
    DocxGenerator.prepareFrom readFile download extname pathname random
      existingIds images i acc = Resolved ps ->
    exists new,
      ps = (acc ++ new)%list
      /\ map p_placeholder new = map placeholder images
      /\ forall k p, nth_error new k = Some p ->
                     p_fileName p = generateImageFileName (i + k) (p_extension p).
Proof.
  induction images as [|config rest IH]; intros i acc ps; cbn [DocxGenerator.prepareFrom].
  - intros H. injection H as <-. exists []. rewrite app_nil_r.
    repeat split. intros [|k] p; discriminate.
  - unfold bind at 1.
    destruct (prepareImage _ _ _ _ _ config i _) as [p0| |] eqn:E; try discriminate.
    intros H. destruct (IH _ _ _ H) as (new & -> & Hpl & Hfn).
    destruct (prepareImage_parts _ _ _ _ _ E) as (_ & _ & Hf0 & _ & Hp0).
    exists (p0 :: new). rewrite <- app_assoc. repeat split.
    + cbn [map]. now rewrite Hp0, Hpl.
    + intros [|k] p; cbn [nth_error].
      * intros Hk. injection Hk as <-. now rewrite Nat.add_0_r.
      * intros Hk. rewrite (Hfn _ _ Hk). f_equal. lia.
Qed.

(** X17.  When the pass prepares its images, there is one prepared image
    per configuration, in the order of the configurations and with their
    placeholders; the image at position [k] is stored under the name
    [image(k+1).ext], so no two images of the pass share a file name. *)
Theorem processImages_layout (existingIds : list string)
  (images : list ImageConfig) (ps : list PreparedImage) :
  DocxGenerator.processImages readFile download extname pathname random
    existingIds images = Resolved ps ->
  map p_placeholder ps = map placeholder images
  /\ (forall k p, nth_error ps k = Some p ->
                  p_fileName p = generateImageFileName k (p_extension p))
  /\ NoDup (map p_fileName ps).
Proof.
  intros H.
  assert (L : map p_placeholder ps = map placeholder images
              /\ forall k p, nth_error ps k = Some p ->
                             p_fileName p = generateImageFileName k (p_extension p)).
  { unfold DocxGenerator.processImages in H. destruct images as [|config rest].
    - injection H as <-. split; [reflexivity|]. intros [|k] p; discriminate.
    - apply prepareFrom_layout in H as (new & -> & Hpl & Hfn).
      cbn [Datatypes.app]. split; [exact Hpl | exact Hfn]. }
  destruct L as [L1 L2]. repeat split; [exact L1 | exact L2 |].
  apply (proj2 (NoDup_nth_error (map p_fileName ps))).
  intros i j Hi E. rewrite length_map in Hi.
  rewrite !nth_error_map in E.
  destruct (nth_error ps i) as [p|] eqn:Ei;
    [|apply nth_error_None in Ei; lia].
  destruct (nth_error ps j) as [p'|] eqn:Ej; [|discriminate].
  cbn [option_map] in E. injection E as E.
  rewrite (L2 _ _ Ei), (L2 _ _ Ej) in E.
  now apply generateImageFileName_index in E.
Qed.

(** X18.  One configuration without any source fails the whole pass: the
    pass does not resolve, so no image is prepared at all. *)
Theorem processImages_needs_every_source (existingIds : list string)
  (images : list ImageConfig) (config : ImageConfig) :
  In config images ->
  suppliedSources config = [] ->
  forall ps,
    DocxGenerator.processImages readFile download extname pathname random
      existingIds images <> Resolved ps.
Proof.
  intros Hin Hno ps.
  assert (Hrej : forall rnd i ids,
             prepareImage readFile download extname pathname rnd config i ids
             = Rejected (NoImageSource (placeholder config))).
  { intros rnd i ids. unfold prepareImage, getImageBuffer.
    unfold suppliedSources in Hno.
    destruct (buffer config); [discriminate|].
    destruct (truthy (path config)); [discriminate|].
    destruct (truthy (url config)); [discriminate | reflexivity]. }
  assert (G : forall i acc,
             DocxGenerator.prepareFrom readFile download extname pathname random
               existingIds images i acc <> Resolved ps).
  { induction images as [|c rest IH]; intros i acc; [now elim Hin|].
    cbn [DocxGenerator.prepareFrom]. destruct Hin as [->|Hin].
    - rewrite Hrej. discriminate.
    - unfold bind at 1.
      destruct (prepareImage _ _ _ _ _ c i _); try discriminate.
      now apply IH. }
  unfold DocxGenerator.processImages.
  destruct images as [|c rest]; [now elim Hin | apply G].
Qed.

End PreparedFacts.

Lemma getImageExtension_shape_witness :
  getImageExtension Examples.upperPng Examples.noUrl
    (Examples.pathOnly "logo" "assets/logo.PNG") = Resolved "png"
  /\ "png" <> "" /\ toLowerCase "png" = "png".
Proof.
  split; [reflexivity|].
  apply (getImageExtension_shape Examples.upperPng Examples.noUrl
           (Examples.pathOnly "logo" "assets/logo.PNG") "png").
  reflexivity.
Defined.

Lemma prepared_relationship_id_witness :
  prepareImage Examples.loads Examples.loads Examples.upperPng Examples.noUrl
    "rId1" (Examples.bufferOnly "logo") 0 ["rId1"] = Resolved (Examples.pngImage 0)
  /\ p_id (Examples.pngImage 0) <> ""
  /\ hasChar dquote (p_id (Examples.pngImage 0)) = false
  /\ XmlUtils.extractRelationshipIds (p_relationshipXml (Examples.pngImage 0))
     = [p_id (Examples.pngImage 0)].
Proof.
  split; [vm_compute; reflexivity|]. split; [discriminate|].
  split; [vm_compute; reflexivity|].
  apply (prepared_relationship_id Examples.loads Examples.loads Examples.upperPng
           Examples.noUrl "rId1" (Examples.bufferOnly "logo") 0 ["rId1"]
           (Examples.pngImage 0));
    [vm_compute; reflexivity | discriminate | vm_compute; reflexivity].
Defined.

Lemma prepareImage_buffer_only_witness :
  buffer (Examples.bufferOnly "logo") = Some []
  /\ prepareImage Examples.loads Examples.loads Examples.upperPng Examples.noUrl
       "rId1" (Examples.bufferOnly "logo") 0 ["rId1"]
     = prepareImage Examples.fails Examples.fails Examples.upperPng Examples.noUrl
         "rId1" (Examples.bufferOnly "logo") 0 ["rId1"].
Proof.
  split; [reflexivity|].
  apply (prepareImage_buffer_only Examples.loads Examples.loads Examples.upperPng
           Examples.noUrl Examples.fails Examples.fails "rId1"
           (Examples.bufferOnly "logo") 0 ["rId1"] []).
  reflexivity.
Defined.

Lemma processImages_layout_witness :
  DocxGenerator.processImages Examples.loads Examples.loads Examples.upperPng
    Examples.noUrl (fun _ => "rId1") ["rId1"]
    [Examples.bufferOnly "logo"; Examples.bufferOnly "logo"]
  = Resolved [Examples.pngImage 0; Examples.pngImage 1]
  /\ NoDup (map p_fileName [Examples.pngImage 0; Examples.pngImage 1]).
Proof.
  split; [vm_compute; reflexivity|].
  apply (processImages_layout Examples.loads Examples.loads Examples.upperPng
           Examples.noUrl (fun _ => "rId1") ["rId1"]
           [Examples.bufferOnly "logo"; Examples.bufferOnly "logo"]
           [Examples.pngImage 0; Examples.pngImage 1]).
  vm_compute. reflexivity.
Defined.

Lemma processImages_needs_every_source_witness :
  In (Examples.noSource "stamp") [Examples.bufferOnly "logo"; Examples.noSource "stamp"]
  /\ suppliedSources (Examples.noSource "stamp") = []
  /\ DocxGenerator.processImages Examples.loads Examples.loads Examples.upperPng
       Examples.noUrl (fun _ => "rId1") ["rId1"]
       [Examples.bufferOnly "logo"; Examples.noSource "stamp"]
     <> Resolved [].
Proof.
  split; [right; left; reflexivity|]. split; [reflexivity|].
  apply (processImages_needs_every_source Examples.loads Examples.loads
           Examples.upperPng Examples.noUrl (fun _ => "rId1") ["rId1"]
           [Examples.bufferOnly "logo"; Examples.noSource "stamp"]
           (Examples.noSource "stamp"));
    [right; left; reflexivity | reflexivity].
Defined.

(* ================================================================== *)
(** ** Further properties: listing the placeholders of a text *)
(* ================================================================== *)

Lemma setOf_spec (l : list string) :
  forall seen,
    NoDup (setOf seen l)
    /\ forall x, In x (setOf seen l) -> In x l /\ ~ In x seen.
Proof.
  induction l as [|y l IH]; intros seen; cbn [setOf].
  - split; [constructor | intros x []].
  - destruct (arrayIncludes seen y) eqn:E.
    + destruct (IH seen) as [H1 H2]. split; [exact H1|].
      intros x Hx. destruct (H2 x Hx). split; [now right | assumption].
    + destruct (IH (y :: seen)) as [H1 H2]. split.
      * constructor; [|exact H1]. intros Hy. destruct (H2 y Hy) as [_ Hn].
        apply Hn. now left.
      * intros x [<-|Hx].
        -- split; [now left | now apply arrayIncludes_false].
        -- destruct (H2 x Hx) as [Hl Hn]. split; [now right|].
           intros Hs. apply Hn. now right.
Qed.

Lemma bracketRegExp_match (s : string) (n : nat) :
  matchPattern StringUtils.bracketRegExp s = Some n
  <-> exists body tail,
        s = "{{" ++ body ++ "}}" ++ tail /\ body <> ""
        /\ hasChar "}" body = false /\ n = 2 + String.length body + 2.
Proof. unfold StringUtils.bracketRegExp. apply delimited_match. Qed.

Lemma bracketRegExp_needs_brace (c : ascii) (r : string) :
  ("{" =? c)%char = false -> matchPattern StringUtils.bracketRegExp (String c r) = None.
Proof.
  intros H. unfold StringUtils.bracketRegExp. cbn [text Datatypes.app].
  now rewrite matchPattern_one, exactly_eqb, H.
Qed.

Lemma insideBrackets_token (body : string) :
  StringUtils.insideBrackets ("{{" ++ body ++ "}}") = body.
Proof.
  unfold StringUtils.insideBrackets. cbn [append String.length drop].
  rewrite length_app_s. cbn [String.length].
  replace (S (S (String.length body + 2)) - 2 - 2) with (String.length body) by lia.
  apply take_app_length.
Qed.

(** X19.  Every name [extractPlaceholders] returns stands in the text
    between double braces; it is not empty and has no closing brace, and
    [containsPlaceholder] finds it. *)
Theorem extractPlaceholders_sound (content name : string) :
  In name (StringUtils.extractPlaceholders content) ->
  name <> "" /\ hasChar "}" name = false
  /\ includes ("{{" ++ name ++ "}}") content = true
  /\ StringUtils.containsPlaceholder content [name] = true.
Proof.
  unfold StringUtils.extractPlaceholders, matchAll. intros H.
  apply setOf_spec in H as [H _].
  apply in_map_iff in H as (m & <- & Hm).
  apply matchAllFrom_In in Hm as (a & t & n & -> & Hn & ->).
  apply bracketRegExp_match in Hn as (body & tail & -> & Hne & Hb & ->).
  assert (E : take (2 + String.length body + 2) ("{{" ++ body ++ "}}" ++ tail)
              = "{{" ++ body ++ "}}").
  { replace ("{{" ++ body ++ "}}" ++ tail) with (("{{" ++ body ++ "}}") ++ tail)
      by (rewrite !app_assoc_s; reflexivity).
    replace (2 + String.length body + 2) with (String.length ("{{" ++ body ++ "}}"))
      by (rewrite !length_app_s; cbn [String.length]; lia).
    apply take_app_length. }
  rewrite E, insideBrackets_token.
  assert (I : includes ("{{" ++ body ++ "}}") (a ++ "{{" ++ body ++ "}}" ++ tail) = true).
  { replace (a ++ "{{" ++ body ++ "}}" ++ tail)
      with (a ++ ("{{" ++ body ++ "}}") ++ tail)
      by (rewrite !app_assoc_s; reflexivity).
    apply includes_middle. }
  repeat split; [exact Hne | exact Hb | exact I |].
  unfold StringUtils.containsPlaceholder. cbn [existsb]. now rewrite I.
Qed.

Lemma extractPlaceholders_sound_witness :
  In "name" (StringUtils.extractPlaceholders "Dear {{name}}, see {{name}} in {{city}}")
  /\ "name" <> "" /\ hasChar "}" "name" = false
  /\ includes ("{{" ++ "name" ++ "}}") "Dear {{name}}, see {{name}} in {{city}}" = true
  /\ StringUtils.containsPlaceholder "Dear {{name}}, see {{name}} in {{city}}" ["name"]
     = true.
Proof.
  split; [left; reflexivity|].
  apply (extractPlaceholders_sound "Dear {{name}}, see {{name}} in {{city}}" "name").
  left. reflexivity.
Defined.

(** X20.  The first bracketed token of a text is found: when no brace
    precedes it, its name is the first name returned.  The names returned
    are pairwise different. *)
Theorem extractPlaceholders_first_token (a name b : string) :
  hasChar "{" a = false -> name <> "" -> hasChar "}" name = false ->
  (exists others,
     StringUtils.extractPlaceholders (a ++ "{{" ++ name ++ "}}" ++ b) = name :: others)
  /\ NoDup (StringUtils.extractPlaceholders (a ++ "{{" ++ name ++ "}}" ++ b)).
Proof.
  intros Ha Hne Hb. split; [|apply setOf_spec].
  unfold StringUtils.extractPlaceholders, matchAll.
  rewrite matchAllFrom_pass
    by (intros c r Hc; apply bracketRegExp_needs_brace;
        now apply (hasChar_other _ _ a)).
  replace ("{{" ++ name ++ "}}" ++ b) with (("{{" ++ name ++ "}}") ++ b)
    by (rewrite !app_assoc_s; reflexivity).
  rewrite matchAllFrom_head.
  - cbn [map setOf arrayIncludes]. rewrite insideBrackets_token. eexists. reflexivity.
  - discriminate.
  - apply bracketRegExp_match. exists name, b.
    repeat split; try assumption.
    + rewrite !app_assoc_s. reflexivity.
    + rewrite !length_app_s. cbn [String.length]. lia.
Qed.

Lemma extractPlaceholders_first_token_witness :
  hasChar "{" "Dear " = false /\ "name" <> "" /\ hasChar "}" "name" = false
  /\ (exists others,
        StringUtils.extractPlaceholders ("Dear " ++ "{{" ++ "name" ++ "}}" ++ ", {{name}}")
        = "name" :: others)
  /\ NoDup (StringUtils.extractPlaceholders
              ("Dear " ++ "{{" ++ "name" ++ "}}" ++ ", {{name}}")).
Proof.
  split; [reflexivity|]. split; [discriminate|]. split; [reflexivity|].
  apply (extractPlaceholders_first_token "Dear " "name" ", {{name}}");
    [reflexivity | discriminate | reflexivity].
Defined.

(* ================================================================== *)
(** ** Further properties: a run that preserves white space *)
(* ================================================================== *)

Lemma letter_escapes_to_itself (c : ascii) :
  isLetter c = true -> escapeChar c = String c "".
Proof.
  destruct c as [[] [] [] [] [] [] [] []]; vm_compute; intros H;
    (reflexivity || discriminate H).
Qed.

Lemma letter_not_bracket (x c : ascii) :
  isLetter x = false -> isLetter c = true -> (x =? c)%char = false.
Proof.
  intros Hx Hc. destruct (Ascii.eqb_spec x c) as [->|]; [congruence | reflexivity].
Qed.

Lemma letters_lack (x : ascii) (name : string) :
  isLetter x = false -> allChars isLetter name = true -> hasChar x name = false.
Proof.
  intros Hx. induction name as [|c name IH]; [reflexivity|].
  cbn [allChars hasChar]. intros H. apply andb_true_iff in H as [H1 H2].
  now rewrite (letter_not_bracket _ _ Hx H1), IH.
Qed.

Lemma letters_escape_to_themselves (name : string) :
  allChars isLetter name = true -> StringUtils.escapeForXml name = name.
Proof.
  rewrite escapeForXml_expand.
  induction name as [|c name IH]; [reflexivity|].
  cbn [allChars expand]. intros H. apply andb_true_iff in H as [H1 H2].
  now rewrite (letter_escapes_to_itself _ H1), (IH H2).
Qed.

Lemma sameUpToCase_refl (s : string) : sameUpToCase s s = true.
Proof.
  induction s as [|c s IH]; [reflexivity|].
  cbn [sameUpToCase]. now rewrite sameLetter_refl, IH.
Qed.

(** The expression goes through an opening tag with attributes. *)
Lemma regexp_attributed_opening (rest : list RegExp.item) (attrs x : string)
  (n : nat) :
  allChars notGt attrs = true ->
  matchItems rest x = Some n ->
  matchItems (chars "<w:t" ++ [Star notGt; Chr ">"] ++ rest)
             ("<w:t" ++ attrs ++ ">" ++ x)
  = Some (4 + (String.length attrs + S n)).
Proof.
  intros Ha Hn. cbn [chars Datatypes.app matchItems append].
  change (sameLetter "<" "<") with true. change (sameLetter "w" "w") with true.
  change (sameLetter ":" ":") with true. change (sameLetter "t" "t") with true.
  cbn iota.
  rewrite (matchStar_greedy notGt _ attrs (String ">" x) (S n) Ha eq_refl).
  - reflexivity.
  - change (sameLetter ">" ">") with true. cbn iota. now rewrite Hn.
Qed.

Lemma includes_lacking (a : ascii) (p s : string) :
  hasChar a s = false -> includes (String a p) s = false.
Proof. intros H. now apply includes_occurrences, occurrences_absent. Qed.

(** X21.  The split-run pass takes a run with attributes as a whole and
    writes a bare run in its place: for a name of letters, substituting into
    the run [wrapWithPreserveSpace] builds for that name gives the escaped
    value in a run without the [xml:space] attribute. *)
Theorem replacePlaceholder_drops_preserve_space (name v : string) :
  allChars isLetter name = true ->
  plainValue v = true ->
  StringUtils.replacePlaceholder (StringUtils.wrapWithPreserveSpace name) name v
  = Some ("<w:t>" ++ StringUtils.escapeForXml v ++ "</w:t>").
Proof.
  intros Hl Hv.
  pose proof (plainTemplate_run _ (plainValue_escaped v Hv)) as Hrun.
  pose proof (letters_plainName _ Hl) as Hn.
  unfold StringUtils.replacePlaceholder, StringUtils.wrapWithPreserveSpace.
  rewrite (letters_escape_to_themselves _ Hl).
  set (safeValue := StringUtils.escapeForXml v) in *.
  set (attrs := q " xml:space='preserve'").
  change (q "<w:t xml:space='preserve'>") with ("<w:t" ++ attrs ++ ">").
  set (wrapped := ("<w:t" ++ attrs ++ ">") ++ name ++ "</w:t>").
  assert (H1 : includes ("{{" ++ name ++ "}}") wrapped = false).
  { apply includes_lacking. unfold wrapped. rewrite !hasChar_app.
    now rewrite (letters_lack "{" name eq_refl Hl). }
  assert (H2 : includes ("<w:t>" ++ name ++ "</w:t>") wrapped = false).
  { apply includes_occurrences. unfold wrapped.
    change ("<w:t>" ++ name ++ "</w:t>") with (String "<" ("w:t>" ++ name ++ "</w:t>")).
    rewrite occurrences_decided by (vm_compute; reflexivity).
    rewrite (occurrences_skip "<" _ name)
      by (now apply (letters_lack "<" name eq_refl)).
    vm_compute. reflexivity. }
  assert (H3 : matchItems (chars "<w:t" ++ [Star notGt; Chr ">"] ++ afterOpening name)
                 wrapped = Some (String.length wrapped)).
  { unfold wrapped. rewrite !app_assoc_s.
    rewrite (regexp_attributed_opening _ attrs _ (String.length name + 6)).
    - f_equal. rewrite !length_app_s. cbn [String.length]. lia.
    - reflexivity.
    - apply regexp_matches_variant, sameUpToCase_refl. }
  assert (H4 : wrapped <> "") by discriminate.
  clearbody wrapped safeValue.
  rewrite (replaceAll_absent _ _ _ H1), (replaceAll_absent _ _ _ H2).
  unfold StringUtils.splitRunPass. rewrite (splitRunRegExp_plain _ Hn).
  f_equal. unfold replaceGlobal.
  apply replaceFrom_whole; [exact Hrun | exact H4 | apply regexp_on_empty | exact H3].
Qed.

Lemma replacePlaceholder_drops_preserve_space_witness :
  allChars isLetter "CLIENT" = true /\ plainValue "Ada & Co" = true
  /\ StringUtils.replacePlaceholder (StringUtils.wrapWithPreserveSpace "CLIENT")
       "CLIENT" "Ada & Co"
     = Some ("<w:t>" ++ StringUtils.escapeForXml "Ada & Co" ++ "</w:t>").
Proof.
  split; [reflexivity|]. split; [reflexivity|].
  apply (replacePlaceholder_drops_preserve_space "CLIENT" "Ada & Co"); reflexivity.
Defined.

(* ================================================================== *)
(** ** Further properties of the substitution passes of the generator *)
(* ================================================================== *)

Lemma includes_sub (l p r s : string) :
  includes p s = false -> includes (l ++ p ++ r) s = false.
Proof.
  intros H. destruct (includes (l ++ p ++ r) s) eqn:E; [|reflexivity].
  apply includes_split in E as (a & b & ->).
  rewrite <- H. symmetry.
  replace (a ++ (l ++ p ++ r) ++ b) with ((a ++ l) ++ p ++ (r ++ b))
    by (rewrite !app_assoc_s; reflexivity).
  apply includes_middle.
Qed.

(** An image whose placeholder does not occur in the text leaves the
    text as it is: a missing image placeholder is no error. *)
Theorem replaceImagePlaceholders_absent (content : string)
  (images : list PreparedImage) :
  Forall (fun image => includes (p_placeholder image) content = false) images ->
  DocxGenerator.replaceImagePlaceholders content images = content.
Proof.
  unfold DocxGenerator.replaceImagePlaceholders.
  induction 1 as [|image images H _ IH]; [reflexivity|].
  cbn [fold_left]. rewrite (replaceAll_absent _ _ _ H).
  now rewrite (replaceAll_absent _ _ _ (includes_sub "{{" _ "}}" _ H)).
Qed.


(** Occurrences of a text without brace, around a token in braces. *)
Lemma occurrences_around_braces (p a x b : string) :
  p <> "" -> hasChar "{" p = false -> hasChar "}" p = false ->
  occurrences p (a ++ "{{" ++ x ++ "}}" ++ b)
  = occurrences p a + occurrences p x + occurrences p b.
Proof.
  intros Hne Ho Hc. destruct p as [|p0 p]; [now elim Hne|].
  assert (Hchar : forall c r, hasChar c (String p0 p) = false ->
                    occurrences (String p0 p) (String c r)
                    = occurrences (String p0 p) r).
  { intros c r H. change (String c r) with ("" ++ String c r).
    now rewrite (occurrences_cut _ "" _ c H). }
  cbn [append].
  rewrite (occurrences_cut _ a _ "{" Ho), (Hchar _ _ Ho).
  rewrite (occurrences_cut _ x _ "}" Hc), (Hchar _ _ Hc). lia.
Qed.

(** X22.  The bare placeholder is replaced before the bracketed one.  With
    the placeholder given as a bare name and written in the text as a token
    in braces, the drawing takes the place of the name and the braces stay
    around it; the second replacement finds nothing.  The name has no
    brace and occurs nowhere else, nor in the drawing, and the drawing has
    no live dollar pattern: it is read as a replacement pattern. *)
Theorem replaceImagePlaceholders_keeps_braces (a b : string) (image : PreparedImage) :
  p_placeholder image <> "" ->
  hasChar "{" (p_placeholder image) = false ->
  hasChar "}" (p_placeholder image) = false ->
  plainTemplate (p_inlineXml image) = true ->
  includes (p_placeholder image) a = false ->
  includes (p_placeholder image) b = false ->
  includes (p_placeholder image) (p_inlineXml image) = false ->
  DocxGenerator.replaceImagePlaceholders
    (a ++ "{{" ++ p_placeholder image ++ "}}" ++ b) [image]
  = a ++ "{{" ++ p_inlineXml image ++ "}}" ++ b.
Proof.
  set (p := p_placeholder image). set (x := p_inlineXml image).
  intros Hne Ho Hc Hx Ha Hb Hin.
  apply includes_occurrences in Ha, Hb, Hin.
  unfold DocxGenerator.replaceImagePlaceholders. cbn [fold_left]. fold p x.
  clearbody p x.
  assert (E : StringUtils.replaceAll (a ++ "{{" ++ p ++ "}}" ++ b) p x
              = a ++ "{{" ++ x ++ "}}" ++ b).
  { replace (a ++ "{{" ++ p ++ "}}" ++ b) with ((a ++ "{{") ++ p ++ "}}" ++ b)
      by (rewrite !app_assoc_s; reflexivity).
    rewrite replaceAll_single; [now rewrite !app_assoc_s | exact Hne | exact Hx |].
    rewrite !app_assoc_s.
    rewrite (occurrences_around_braces p a p b Hne Ho Hc), Ha, Hb.
    destruct p as [|p0 p]; [now elim Hne|]. now rewrite occurrences_self. }
  rewrite E. apply replaceAll_absent, includes_sub.
  apply includes_occurrences.
  rewrite (occurrences_around_braces p a x b Hne Ho Hc). lia.
Qed.

Lemma replaceImagePlaceholders_keeps_braces_witness :
  let image := Examples.pngImage 0 in
  p_placeholder image <> ""
  /\ hasChar "{" (p_placeholder image) = false
  /\ hasChar "}" (p_placeholder image) = false
  /\ plainTemplate (p_inlineXml image) = true
  /\ includes (p_placeholder image) "<w:p>" = false
  /\ includes (p_placeholder image) "</w:p>" = false
  /\ includes (p_placeholder image) (p_inlineXml image) = false
  /\ DocxGenerator.replaceImagePlaceholders
       ("<w:p>" ++ "{{" ++ p_placeholder image ++ "}}" ++ "</w:p>") [image]
     = "<w:p>" ++ "{{" ++ p_inlineXml image ++ "}}" ++ "</w:p>".
Proof.
  cbv zeta.
  split; [discriminate|]. do 6 (split; [vm_compute; reflexivity|]).
  apply (replaceImagePlaceholders_keeps_braces "<w:p>" "</w:p>" (Examples.pngImage 0));
    try discriminate; vm_compute; reflexivity.
Defined.

Lemma replacePlaceholder_no_markup (content placeholder value : string) :
  StringUtils.plainName placeholder = true ->
  hasChar "<" content = false -> hasChar "{" content = false ->
  StringUtils.replacePlaceholder content placeholder value = Some content.
Proof.
  intros Hn Hlt Hbr. unfold StringUtils.replacePlaceholder.
  rewrite (replaceAll_absent content ("{{" ++ placeholder ++ "}}") _
             (includes_lacking "{" _ _ Hbr)).
  rewrite (replaceAll_absent content ("<w:t>" ++ placeholder ++ "</w:t>") _
             (includes_lacking "<" _ _ Hlt)).
  unfold StringUtils.splitRunPass. rewrite (splitRunRegExp_plain _ Hn).
  f_equal. unfold replaceGlobal. apply replaceFrom_nowhere.
  rewrite <- (app_empty_r content).
  rewrite (matchesNowhere_skip _ "<" content)
    by (assumption || intros; now apply regexp_needs_bracket).
  reflexivity.
Qed.

(** On a text without angle bracket and without opening brace no key
    finds anything to replace: [processPlaceholders] only runs the repair
    pass over the text, whatever the data. *)
Theorem processPlaceholders_no_markup (content : string)
  (data : list (string * string)) :
  Forall (fun entry => StringUtils.plainName (fst entry) = true) data ->
  hasChar "<" content = false -> hasChar "{" content = false ->
  DocxGenerator.processPlaceholders content data
  = Some (StringUtils.fixDoubleEscaping content).
Proof.
  intros Hd Hlt Hbr. unfold DocxGenerator.processPlaceholders.
  induction Hd as [|entry data Hn _ IH]; [reflexivity|].
  cbn [fold_left]. now rewrite (replacePlaceholder_no_markup _ _ _ Hn Hlt Hbr).
Qed.


(* ================================================================== *)
(** ** Further properties: repair after escaping *)
(* ================================================================== *)

Ltac which_special c :=
  destruct (Ascii.eqb_spec c "&") as [->|?]; [|which_char c].

Lemma escapeChar_head (c : ascii) :
  exists h t, escapeChar c = String h t /\ hasChar "&" t = false.
Proof.
  which_special c;
    try (do 2 eexists; split; [reflexivity | reflexivity]).
  exists c, "". split; [|reflexivity].
  unfold escapeChar.
  repeat match goal with
         | H : c <> _ |- _ => apply Ascii.eqb_neq in H; rewrite H
         end.
  reflexivity.
Qed.

Lemma escapeChar_other (c : ascii) :
  c <> "&"%char -> c <> "<"%char -> c <> ">"%char -> c <> dquote -> c <> "'"%char ->
  escapeChar c = String c "".
Proof.
  intros H1 H2 H3 H4 H5. unfold escapeChar.
  apply Ascii.eqb_neq in H1, H2, H3, H4, H5. now rewrite H1, H2, H3, H4, H5.
Qed.

(** The entities and the characters that stand for themselves form a prefix
    code: the forms of two different characters differ at a position inside
    both. *)
Lemma escapeChar_clash (c d : ascii) :
  c <> d -> clash (escapeChar c) (escapeChar d) = true.
Proof.
  intros Hne.
  which_special c; which_special d; try (now elim Hne); try reflexivity;
    rewrite ?(escapeChar_other c), ?(escapeChar_other d) by assumption;
    cbn [escapeChar Ascii.eqb Bool.eqb]; cbn [clash];
    (apply orb_true_iff; left; apply negb_true_iff, Ascii.eqb_neq;
     first [assumption | now apply not_eq_sym]).
Qed.

Lemma startsWith_app_same (x u v : string) :
  startsWith (x ++ u) (x ++ v) = startsWith u v.
Proof.
  induction x as [|c x IH]; [reflexivity|].
  cbn [append startsWith]. now rewrite Ascii.eqb_refl.
Qed.

Lemma startsWith_clash (x y u v : string) :
  clash x y = true -> startsWith (x ++ u) (y ++ v) = false.
Proof.
  revert y; induction x as [|a x IH]; intros [|b y]; cbn [clash]; try discriminate.
  intros H. cbn [append startsWith].
  destruct (a =? b)%char; [|reflexivity]. cbn [negb orb] in H. now apply IH.
Qed.

(** Escaped texts start with one another exactly as the raw texts do. *)
Lemma escape_startsWith (p s : string) :
  startsWith (expand escapeChar p) (expand escapeChar s) = startsWith p s.
Proof.
  revert s; induction p as [|c p IH]; intros s; [reflexivity|].
  destruct s as [|d s]; cbn [expand startsWith].
  - destruct (escapeChar_head c) as (h & t & -> & _). reflexivity.
  - destruct (Ascii.eqb_spec c d) as [->|Hne].
    + now rewrite startsWith_app_same, IH.
    + now apply startsWith_clash, escapeChar_clash.
Qed.

Lemma inert_lacking (a : ascii) (p w : string) :
  hasChar a w = false -> inert (String a p) w = true.
Proof.
  induction w as [|c w IH]; [reflexivity|].
  cbn [hasChar inert clash]. intros H. apply orb_false_iff in H as [H1 H2].
  now rewrite H1, IH.
Qed.

(** A pass that decodes an entity, seen through the escaping: replacing the
    escaped entity by the escaped character in the escaped text is escaping
    the text in which the entity was replaced by the character. *)
Lemma escape_pass (p' d ep' ed : string) :
  String "&" ep' = expand escapeChar (String "&" p') ->
  ed = expand escapeChar d ->
  plainTemplate d = true -> plainTemplate ed = true ->
  forall n s, String.length s <= n ->
    forall before before',
      replaceFrom (literal (String "&" ep')) ed before' 0 (expand escapeChar s)
      = expand escapeChar (replaceFrom (literal (String "&" p')) d before 0 s).
Proof.
  intros Ep Ed Hd Hed.
  induction n as [|n IH]; intros s Hlen before before'.
  - destruct s; [reflexivity | cbn in Hlen; lia].
  - destruct s as [|c s]; [reflexivity|].
    destruct (startsWith (String "&" p') (String c s)) eqn:E.
    + apply startsWith_take in E. rewrite E.
      rewrite expand_app, <- Ep.
      rewrite !entity_decoded by assumption.
      rewrite expand_app, <- Ed. f_equal. apply IH.
      apply (f_equal String.length) in E. rewrite length_app_s in E.
      cbn [String.length] in *. lia.
    + rewrite replaceFrom_copies by (unfold literal; now rewrite E).
      cbn [expand].
      destruct (escapeChar_head c) as (h & t & Hc & Ht).
      assert (M : literal (String "&" ep') (String h (t ++ expand escapeChar s)) = None).
      { unfold literal. change (String h (t ++ expand escapeChar s))
          with (String h t ++ expand escapeChar s).
        rewrite <- Hc, Ep. change (escapeChar c ++ expand escapeChar s)
          with (expand escapeChar (String c s)).
        now rewrite escape_startsWith, E. }
      rewrite Hc. cbn [append]. rewrite (replaceFrom_copies _ _ _ _ _ M).
      rewrite inert_copied by (now apply inert_lacking).
      f_equal. f_equal. apply IH. cbn [String.length] in Hlen. lia.
Qed.

Lemma escape_pass_global (p' d ep' ed s : string) :
  String "&" ep' = expand escapeChar (String "&" p') ->
  ed = expand escapeChar d ->
  plainTemplate d = true -> plainTemplate ed = true ->
  StringUtils.replaceAll (expand escapeChar s) (String "&" ep') ed
  = expand escapeChar (replaceGlobal (literal (String "&" p')) d s).
Proof.
  intros Ep Ed Hd Hed. unfold StringUtils.replaceAll, replaceGlobal.
  now apply (escape_pass p' d ep' ed Ep Ed Hd Hed (String.length s)).
Qed.

(** Running the repair pass over an escaped text is the same as
    unescaping the text before escaping it. *)
Lemma repair_of_escaped (v : string) :
  StringUtils.fixDoubleEscaping (expand escapeChar v)
  = expand escapeChar (StringUtils.unescapeXml v).
Proof.
  unfold StringUtils.unescapeXml, StringUtils.fixDoubleEscaping.
  destruct (String.eqb_spec v "") as [->|_]; [reflexivity|].
  rewrite (escape_pass_global "amp;" "&" "amp;amp;" "&amp;" v)
    by reflexivity.
  rewrite (escape_pass_global "lt;" "<" "amp;lt;" "&lt;") by reflexivity.
  rewrite (escape_pass_global "gt;" ">" "amp;gt;" "&gt;") by reflexivity.
  rewrite (escape_pass_global "quot;" (String dquote "") "amp;quot;" "&quot;")
    by reflexivity.
  rewrite (escape_pass_global "apos;" "'" "amp;apos;" "&apos;") by reflexivity.
  reflexivity.
Qed.

(** X23.  Running the repair pass over an escaped text is the same as
    unescaping the text before escaping it.  So a value that itself contains
    the text of an entity, such as [&lt;], reaches the document as the
    character the entity stands for. *)
Theorem fixDoubleEscaping_of_escaped (v : string) :
  StringUtils.fixDoubleEscaping (StringUtils.escapeForXml v)
  = StringUtils.escapeForXml (StringUtils.unescapeXml v).
Proof. rewrite !escapeForXml_expand. apply repair_of_escaped. Qed.

(* ================================================================== *)
(** ** Further properties: the shape of a table fragment *)
(* ================================================================== *)

Ltac count_markup :=
  repeat first
    [ rewrite occurrences_decided by (vm_compute; reflexivity)
    | rewrite occurrences_skip by
        (first [ assumption
               | apply ofZ_chars; reflexivity
               | rewrite escapeXml_expand; apply escaped_has_no; reflexivity ]) ].

Ltac count_template :=
  rewrite !app_assoc_s; count_markup; count_literals.

Lemma markupFree_fields (style : Constants.Style) :
  markupFree style = true ->
  hasChar "<" (Constants.headerBgColor style) = false
  /\ hasChar "<" (Constants.headerTextColor style) = false
  /\ hasChar "<" (Constants.borderColor style) = false
  /\ hasChar "<" (Constants.fontFamily style) = false.
Proof.
  unfold markupFree. intros H.
  apply andb_true_iff in H as [H H4]. apply andb_true_iff in H as [H H3].
  apply andb_true_iff in H as [H1 H2].
  apply negb_true_iff in H1, H2, H3, H4. now repeat split.
Qed.

(** Occurrences in the pieces of a list add up. *)
Lemma occurrences_joined {A : Type} (p : string) (f : A -> string) (g : A -> nat)
  (l : list A) (rest : string) :
  (forall x r, occurrences p (f x ++ r) = g x + occurrences p r) ->
  occurrences p (join (map f l) ++ rest) = list_sum (map g l) + occurrences p rest.
Proof.
  intros H. induction l as [|x l IH]; [reflexivity|].
  change (list_sum (map g (x :: l))) with (g x + list_sum (map g l)).
  cbn [map]. rewrite join_cons, app_assoc_s, H, IH. lia.
Qed.

Lemma occurrences_joined_indexed {A : Type} (p : string) (f : nat -> A -> string)
  (k : nat) (l : list A) (rest : string) :
  (forall i x r, occurrences p (f i x ++ r) = k + occurrences p r) ->
  forall index,
    occurrences p (join (Constants.mapi f index l) ++ rest)
    = List.length l * k + occurrences p rest.
Proof.
  intros H. induction l as [|x l IH]; intros index; [reflexivity|].
  cbn [Constants.mapi List.length]. rewrite join_cons, app_assoc_s, H, IH. lia.
Qed.

Lemma list_sum_constant {A : Type} (k : nat) (l : list A) :
  list_sum (map (fun _ => k) l) = List.length l * k.
Proof.
  induction l as [|x l IH]; [reflexivity|].
  change (list_sum (map (fun _ => k) (x :: l)))
    with (k + list_sum (map (fun _ => k) l)).
  cbn [List.length]. lia.
Qed.

Section TableShape.
Variable style : Constants.Style.
Hypothesis free : markupFree style = true.

Let bg := proj1 (markupFree_fields style free).
Let fg := proj1 (proj2 (markupFree_fields style free)).
Let border := proj1 (proj2 (proj2 (markupFree_fields style free))).
Let font := proj2 (proj2 (proj2 (markupFree_fields style free))).

Lemma headerCell_shape (header : Constants.Header) (r : string) :
  cellCount (Constants.headerCell style header ++ r) = 1 + cellCount r
  /\ rowCount (Constants.headerCell style header ++ r) = 0 + rowCount r
  /\ gridColCount (Constants.headerCell style header ++ r) = 0 + gridColCount r.
Proof.
  pose proof bg. pose proof fg. pose proof font.
  unfold cellCount, rowCount, gridColCount, Constants.headerCell.
  (split; [|split]); count_template; reflexivity.
Qed.

Lemma dataCell_shape (widths : list Z) (index : nat) (cell r : string) :
  cellCount (Constants.dataCell widths style index cell ++ r) = 1 + cellCount r
  /\ rowCount (Constants.dataCell widths style index cell ++ r) = 0 + rowCount r
  /\ gridColCount (Constants.dataCell widths style index cell ++ r)
     = 0 + gridColCount r.
Proof.
  pose proof font.
  unfold cellCount, rowCount, gridColCount, Constants.dataCell.
  (split; [|split]); count_template; reflexivity.
Qed.

Lemma gridCol_shape (header : Constants.Header) (r : string) :
  cellCount (Constants.gridCol header ++ r) = 0 + cellCount r
  /\ rowCount (Constants.gridCol header ++ r) = 0 + rowCount r
  /\ gridColCount (Constants.gridCol header ++ r) = 1 + gridColCount r.
Proof.
  unfold cellCount, rowCount, gridColCount, Constants.gridCol.
  (split; [|split]); count_template; reflexivity.
Qed.

Lemma headerRow_shape (headers : list Constants.Header) (r : string) :
  cellCount (Constants.generateTableHeaderRow headers style ++ r)
  = List.length headers + cellCount r
  /\ rowCount (Constants.generateTableHeaderRow headers style ++ r) = 1 + rowCount r
  /\ gridColCount (Constants.generateTableHeaderRow headers style ++ r)
     = 0 + gridColCount r.
Proof.
  unfold Constants.generateTableHeaderRow. split; [|split].
  - unfold cellCount. rewrite !app_assoc_s.
    rewrite occurrences_decided by (vm_compute; reflexivity).
    rewrite (occurrences_joined "<w:tc>" (Constants.headerCell style) (fun _ => 1))
      by (intros x r'; exact (proj1 (headerCell_shape x r'))).
    rewrite list_sum_constant. count_markup. count_literals. lia.
  - unfold rowCount. rewrite !app_assoc_s.
    rewrite occurrences_decided by (vm_compute; reflexivity).
    rewrite (occurrences_joined "<w:tr>" (Constants.headerCell style) (fun _ => 0))
      by (intros x r'; exact (proj1 (proj2 (headerCell_shape x r')))).
    rewrite list_sum_constant. count_markup. count_literals. lia.
  - unfold gridColCount. rewrite !app_assoc_s.
    rewrite occurrences_decided by (vm_compute; reflexivity).
    rewrite (occurrences_joined "<w:gridCol" (Constants.headerCell style) (fun _ => 0))
      by (intros x r'; exact (proj2 (proj2 (headerCell_shape x r')))).
    rewrite list_sum_constant. count_markup. count_literals. lia.
Qed.

Lemma dataRow_shape (widths : list Z) (cells : list string) (r : string) :
  cellCount (Constants.generateTableDataRow cells widths style ++ r)
  = List.length cells + cellCount r
  /\ rowCount (Constants.generateTableDataRow cells widths style ++ r) = 1 + rowCount r
  /\ gridColCount (Constants.generateTableDataRow cells widths style ++ r)
     = 0 + gridColCount r.
Proof.
  unfold Constants.generateTableDataRow. split; [|split].
  - unfold cellCount. rewrite !app_assoc_s.
    rewrite occurrences_decided by (vm_compute; reflexivity).
    rewrite (occurrences_joined_indexed "<w:tc>" (Constants.dataCell widths style) 1)
      by (intros i x r'; exact (proj1 (dataCell_shape widths i x r'))).
    count_markup. count_literals. lia.
  - unfold rowCount. rewrite !app_assoc_s.
    rewrite occurrences_decided by (vm_compute; reflexivity).
    rewrite (occurrences_joined_indexed "<w:tr>" (Constants.dataCell widths style) 0)
      by (intros i x r'; exact (proj1 (proj2 (dataCell_shape widths i x r')))).
    count_markup. count_literals. lia.
  - unfold gridColCount. rewrite !app_assoc_s.
    rewrite occurrences_decided by (vm_compute; reflexivity).
    rewrite (occurrences_joined_indexed "<w:gridCol" (Constants.dataCell widths style) 0)
      by (intros i x r'; exact (proj2 (proj2 (dataCell_shape widths i x r')))).
    count_markup. count_literals. lia.
Qed.

End TableShape.

(** Counting across the header row of a table. *)
Ltac header_row free :=
  match goal with
  | |- context [occurrences _ (Constants.generateTableHeaderRow ?h ?s ++ ?R)] =>
      let E1 := fresh "E" in
      let E2 := fresh "E" in
      let E3 := fresh "E" in
      destruct (headerRow_shape s free h R) as (E1 & E2 & E3);
      unfold cellCount, rowCount, gridColCount in E1, E2, E3;
      first [rewrite E1 | rewrite E2 | rewrite E3]; clear E1 E2 E3
  end.

(** X24.  A table fragment has one grid column and one header cell per
    header, one row for the headers and one per data row, and one cell per
    cell of every data row, whatever the texts of the headers and the cells:
    their markup characters are escaped.  The counts are of the tags
    [<w:gridCol], [<w:tr>] and [<w:tc>], for a style whose texts open no
    tag. *)
Theorem generateTable_shape (headers : list Constants.Header)
  (rows : list (list string)) (style : Constants.Style) :
  markupFree style = true ->
  gridColCount (Constants.generateTable headers rows style) = List.length headers
  /\ rowCount (Constants.generateTable headers rows style) = 1 + List.length rows
  /\ cellCount (Constants.generateTable headers rows style)
     = List.length headers + list_sum (map (@List.length string) rows).
Proof.
  intros free.
  destruct (markupFree_fields style free) as (_ & _ & border & _).
  set (widths := map (fun h => orNumber (Constants.width h) 2000) headers).
  unfold Constants.generateTable. fold widths.
  split; [|split].
  - unfold gridColCount. rewrite ?app_assoc_s. count_markup.
    rewrite (occurrences_joined "<w:gridCol" Constants.gridCol (fun _ => 1))
      by (intros x r'; exact (proj2 (proj2 (gridCol_shape x r')))).
    rewrite list_sum_constant. count_markup.
    header_row free.
    count_markup.
    rewrite (occurrences_joined "<w:gridCol"
               (fun row => Constants.generateTableDataRow row widths style)
               (fun _ => 0))
      by (intros x r'; exact (proj2 (proj2 (dataRow_shape style free widths x r')))).
    rewrite list_sum_constant. count_literals. lia.
  - unfold rowCount. rewrite ?app_assoc_s. count_markup.
    rewrite (occurrences_joined "<w:tr>" Constants.gridCol (fun _ => 0))
      by (intros x r'; exact (proj1 (proj2 (gridCol_shape x r')))).
    rewrite list_sum_constant. count_markup.
    header_row free.
    count_markup.
    rewrite (occurrences_joined "<w:tr>"
               (fun row => Constants.generateTableDataRow row widths style)
               (fun _ => 1))
      by (intros x r'; exact (proj1 (proj2 (dataRow_shape style free widths x r')))).
    rewrite list_sum_constant. count_literals. lia.
  - unfold cellCount. rewrite ?app_assoc_s. count_markup.
    rewrite (occurrences_joined "<w:tc>" Constants.gridCol (fun _ => 0))
      by (intros x r'; exact (proj1 (gridCol_shape x r'))).
    rewrite list_sum_constant. count_markup.
    header_row free.
    count_markup.
    rewrite (occurrences_joined "<w:tc>"
               (fun row => Constants.generateTableDataRow row widths style)
               (@List.length string))
      by (intros x r'; exact (proj1 (dataRow_shape style free widths x r'))).
    count_literals. lia.
Qed.

Lemma generateTable_shape_witness :
  markupFree Constants.DEFAULT_TABLE_STYLE = true
  /\ gridColCount (Constants.generateTable Examples.headers [["a"; "<b>"; "c"]; []]
                     Constants.DEFAULT_TABLE_STYLE) = 2
  /\ rowCount (Constants.generateTable Examples.headers [["a"; "<b>"; "c"]; []]
                 Constants.DEFAULT_TABLE_STYLE) = 3
  /\ cellCount (Constants.generateTable Examples.headers [["a"; "<b>"; "c"]; []]
                  Constants.DEFAULT_TABLE_STYLE) = 5.
Proof.
  split; [reflexivity|].
  apply (generateTable_shape Examples.headers [["a"; "<b>"; "c"]; []]
           Constants.DEFAULT_TABLE_STYLE).
  reflexivity.
Defined.

(* ================================================================== *)
(** ** Further properties: the registries after the update *)
(* ================================================================== *)

(** A text that has its first character once does not lie across the
    place where that character stands. *)
Lemma occurrences_before_head (p0 : ascii) (p' u r : string) :
  hasChar p0 p' = false ->
  occurrences (String p0 p') (u ++ String p0 r)
  = occurrences (String p0 p') u + occurrences (String p0 p') (String p0 r).
Proof.
  intros H. remember (occurrences (String p0 p') (String p0 r)) as n eqn:En.
  induction u as [|c u IH].
  - cbn [append]. now rewrite En.
  - cbn [append occurrences startsWith]. rewrite IH.
    rewrite (startsWith_cut p' u r p0 H). lia.
Qed.

(** Putting a text and a line feed before the one closing tag leaves one
    closing tag, when the text opens with the first character of the tag
    and does not contain the tag. *)
Lemma closing_tag_stays (t' a b w : string) :
  hasChar "<" t' = false -> hasChar "010" (String "<" t') = false ->
  startsWith "<" w = true ->
  includes (String "<" t') w = false ->
  occurrences (String "<" t') (a ++ String "<" t' ++ b) = 1 ->
  occurrences (String "<" t') ((a ++ w ++ String "010" "") ++ String "<" t' ++ b) = 1.
Proof.
  intros Ht Hnl Hw Hin Hone. apply includes_occurrences in Hin.
  destruct w as [|w0 w]; [discriminate|].
  cbn [startsWith] in Hw. rewrite andb_true_r in Hw. apply Ascii.eqb_eq in Hw.
  subst w0.
  change (String "<" t' ++ b) with (String "<" (t' ++ b)) in *.
  rewrite occurrences_before_head in Hone by exact Ht.
  rewrite !app_assoc_s. change (String "<" w ++ String "010" "" ++ String "<" (t' ++ b))
    with (String "<" (w ++ String "010" (String "<" (t' ++ b)))).
  rewrite occurrences_before_head by exact Ht.
  change (String "<" (w ++ String "010" (String "<" (t' ++ b))))
    with (String "<" w ++ String "010" (String "<" (t' ++ b))).
  rewrite (occurrences_cut _ _ _ _ Hnl). lia.
Qed.

Lemma newType_without_closing_tag (e : string) :
  cleanExtension e = true ->
  startsWith "<" (q "<Default Extension='" ++ e ++ q "' ContentType='"
                  ++ toString (getImageContentType e) ++ q "' />") = true
  /\ includes "</Types>" (q "<Default Extension='" ++ e ++ q "' ContentType='"
                           ++ toString (getImageContentType e) ++ q "' />") = false
  /\ plainTemplate ((q "<Default Extension='" ++ e ++ q "' ContentType='"
                     ++ toString (getImageContentType e) ++ q "' />")
                    ++ String "010" "" ++ "</Types>") = true.
Proof.
  intros Hclean. unfold cleanExtension in Hclean.
  apply andb_true_iff in Hclean as [Hclean _].
  apply andb_true_iff in Hclean as [Hclean _].
  apply andb_true_iff in Hclean as [Hd Hlt].
  apply negb_true_iff in Hd, Hlt.
  pose proof (getImageContentType_chars "<" e eq_refl) as Hc.
  pose proof (getImageContentType_chars "$" e eq_refl) as Hc'.
  generalize dependent (toString (getImageContentType e)). intros c Hc Hc'.
  split; [reflexivity|]. split.
  - apply includes_occurrences. count_markup. count_literals. reflexivity.
  - apply plainTemplate_no_dollar. rewrite !hasChar_app, Hd, Hc'. reflexivity.
Qed.

(** Adding a content type to a registry with one closing tag: the closing
    tag stays the only one, the extension is declared afterwards, and what
    was declared stays declared. *)
Lemma addContentType_step (xml e e' : string) :
  cleanExtension e = true -> cleanExtension e' = true ->
  occurrences "</Types>" xml = 1 ->
  occurrences "</Types>" (addContentType xml e (toString (getImageContentType e))) = 1
  /\ includes (extensionAttr e) (addContentType xml e (toString (getImageContentType e))) = true
  /\ (includes (extensionAttr e') xml = true ->
      includes (extensionAttr e') (addContentType xml e (toString (getImageContentType e))) = true).
Proof.
  intros Hclean Hclean' Hone. unfold addContentType.
  destruct (includes (extensionAttr e) xml) eqn:Hdecl; [now repeat split|].
  destruct (newType_without_closing_tag e Hclean) as (Hw & Hin & Hplain).
  set (newType := q "<Default Extension='" ++ e ++ q "' ContentType='"
                  ++ toString (getImageContentType e) ++ q "' />") in *.
  assert (Hhas : includes "</Types>" xml = true).
  { destruct (includes "</Types>" xml) eqn:E; [reflexivity|].
    apply includes_occurrences in E. lia. }
  destruct (includes_split _ _ Hhas) as (a & b & ->).
  rewrite replaceAll_single; [| discriminate | exact Hplain | exact Hone].
  assert (Hattr : includes (extensionAttr e) newType = true).
  { unfold newType, extensionAttr.
    change (q "<Default Extension='") with ("<Default " ++ q "Extension='").
    change (q "' ContentType='") with (q "'" ++ q " ContentType='").
    rewrite !app_assoc_s. apply includes_app_r.
    replace (q "Extension='" ++ e ++ q "'" ++ q " ContentType='"
             ++ toString (getImageContentType e) ++ q "' />")
      with ((q "Extension='" ++ e ++ q "'") ++ q " ContentType='"
            ++ toString (getImageContentType e) ++ q "' />")
      by (rewrite !app_assoc_s; reflexivity).
    apply includes_app_l, includes_refl. }
  split; [|split].
  - replace (a ++ (newType ++ String "010" "" ++ "</Types>") ++ b)
      with ((a ++ newType ++ String "010" "") ++ "</Types>" ++ b)
      by (rewrite !app_assoc_s; reflexivity).
    now apply closing_tag_stays.
  - apply includes_app_r. rewrite app_assoc_s. now apply includes_app_l.
  - unfold cleanExtension in Hclean'.
    apply andb_true_iff in Hclean' as [Hclean' _].
    apply andb_true_iff in Hclean' as [Hclean' _].
    apply andb_true_iff in Hclean' as [_ Hlt]. apply negb_true_iff in Hlt.
    assert (Hp : hasChar "<" (extensionAttr e') = false)
      by (now apply extensionAttr_chars).
    intros Hwas.
    destruct (includes (extensionAttr e')
                (a ++ (newType ++ String "010" "" ++ "</Types>") ++ b)) eqn:E;
      [reflexivity|].
    exfalso. apply includes_occurrences in E.
    assert (Hwas' : occurrences (extensionAttr e') (a ++ "</Types>" ++ b) <> 0).
    { intros Z. apply includes_occurrences in Z. congruence. }
    apply Hwas'. clear Hwas Hwas'.
    rewrite extensionAttr_head in *.
    change ("</Types>" ++ b) with (String "<" ("/Types>" ++ b)).
    rewrite (occurrences_cut _ a _ "<" Hp).
    replace (a ++ (newType ++ String "010" "" ++ "</Types>") ++ b)
      with ((a ++ newType ++ String "010" "") ++ String "<" ("/Types>" ++ b)) in E
      by (rewrite !app_assoc_s; reflexivity).
    rewrite (occurrences_cut _ _ _ "<" Hp) in E.
    assert (Ha : occurrences (String "E" (q "xtension='" ++ e' ++ q "'")) a = 0).
    { apply includes_occurrences.
      destruct (includes (String "E" (q "xtension='" ++ e' ++ q "'")) a) eqn:Ia;
        [|reflexivity].
      apply (includes_app_l _ _ (newType ++ String "010" "")) in Ia.
      assert (Z : occurrences (String "E" (q "xtension='" ++ e' ++ q "'"))
                    (a ++ newType ++ String "010" "") = 0) by lia.
      apply includes_occurrences in Z. congruence. }
    lia.
Qed.

Lemma setOf_complete (x : string) (l : list string) :
  forall seen, In x l -> In x (setOf seen l) \/ In x seen.
Proof.
  induction l as [|y l IH]; intros seen; [intros []|].
  cbn [setOf]. intros [->|H].
  - destruct (arrayIncludes seen x) eqn:E.
    + right. now apply arrayIncludes_true.
    + left. now left.
  - destruct (arrayIncludes seen y) eqn:E; [now apply IH|].
    destruct (IH (y :: seen) H) as [Hs|[<-|Hs]].
    + left. now right.
    + left. now left.
    + now right.
Qed.

Lemma fold_addContentType (l : list string) :
  Forall (fun e => cleanExtension e = true) l ->
  forall xml,
    occurrences "</Types>" xml = 1 ->
    let result :=
      fold_left (fun xml ext => addContentType xml ext (toString (getImageContentType ext))) l xml in
    occurrences "</Types>" result = 1
    /\ (forall e, In e l -> includes (extensionAttr e) result = true)
    /\ (forall e', cleanExtension e' = true ->
                   includes (extensionAttr e') xml = true ->
                   includes (extensionAttr e') result = true).
Proof.
  induction 1 as [|e l He _ IH]; intros xml Hone; cbn [fold_left].
  - repeat split; [exact Hone | intros e [] | auto].
  - destruct (addContentType_step xml e e He He Hone) as (H1 & H2 & _).
    destruct (IH _ H1) as (R1 & R2 & R3). repeat split.
    + exact R1.
    + intros x [<-|Hx]; [now apply R3 | now apply R2].
    + intros e' He' Hwas. apply R3; [exact He'|].
      now apply (addContentType_step xml e e' He He' Hone).
Qed.

(** X25.  After the update of a content-type registry with one closing
    tag, the extension of every prepared image is declared, and the registry
    still has its one closing tag.  The extensions are such as can stand in
    a declaration as they are. *)
Theorem updateContentTypes_declares_all (xml : string)
  (images : list PreparedImage) (image : PreparedImage) :
  occurrences "</Types>" xml = 1 ->
  Forall (fun i => cleanExtension (p_extension i) = true) images ->
  In image images ->
  includes (extensionAttr (p_extension image))
    (DocxGenerator.updateContentTypes xml images) = true
  /\ occurrences "</Types>" (DocxGenerator.updateContentTypes xml images) = 1.
Proof.
  intros Hone Hclean Hin. unfold DocxGenerator.updateContentTypes.
  assert (Hl : Forall (fun e => cleanExtension e = true)
                 (setOf [] (map p_extension images))).
  { apply Forall_forall. intros e He.
    apply setOf_spec in He as [He _]. apply in_map_iff in He as (i & <- & Hi).
    rewrite Forall_forall in Hclean. now apply Hclean. }
  destruct (fold_addContentType _ Hl xml Hone) as (R1 & R2 & _).
  split; [|exact R1]. apply R2.
  destruct (setOf_complete (p_extension image) (map p_extension images) [])
    as [H|[]]; [|exact H].
  now apply in_map.
Qed.

Lemma updateContentTypes_declares_all_witness :
  occurrences "</Types>" "<Types></Types>" = 1
  /\ Forall (fun i => cleanExtension (p_extension i) = true)
            [Examples.pngImage 0; Examples.pngImage 1]
  /\ In (Examples.pngImage 1) [Examples.pngImage 0; Examples.pngImage 1]
  /\ includes (extensionAttr (p_extension (Examples.pngImage 1)))
       (DocxGenerator.updateContentTypes "<Types></Types>"
          [Examples.pngImage 0; Examples.pngImage 1]) = true
  /\ occurrences "</Types>"
       (DocxGenerator.updateContentTypes "<Types></Types>"
          [Examples.pngImage 0; Examples.pngImage 1]) = 1.
Proof.
  assert (H : Forall (fun i => cleanExtension (p_extension i) = true)
                     [Examples.pngImage 0; Examples.pngImage 1])
    by (repeat constructor).
  split; [reflexivity|]. split; [exact H|]. split; [right; left; reflexivity|].
  apply (updateContentTypes_declares_all "<Types></Types>"
           [Examples.pngImage 0; Examples.pngImage 1] (Examples.pngImage 1)
           eq_refl H).
  right. left. reflexivity.
Defined.

(** X26.  In a relationship part with one closing tag, the update puts
    the relationships of the prepared images, each followed by a line feed
    and in the order of the images, right before the closing tag, and leaves
    the rest of the part as it is.  Each relationship opens with an angle
    bracket, has no live dollar pattern and does not contain the closing
    tag. *)
Theorem updateRels_appends_in_order (a b : string) (images : list PreparedImage) :
  occurrences "</Relationships>" (a ++ "</Relationships>" ++ b) = 1 ->
  Forall (fun image =>
            plainTemplate (p_relationshipXml image) = true
            /\ startsWith "<" (p_relationshipXml image) = true
            /\ includes "</Relationships>" (p_relationshipXml image) = false)
         images ->
  DocxGenerator.updateRels (a ++ "</Relationships>" ++ b) images
  = a ++ join (map (fun image => p_relationshipXml image ++ String "010" "") images)
      ++ "</Relationships>" ++ b.
Proof.
  intros Hone Hall. revert a Hone. unfold DocxGenerator.updateRels.
  induction Hall as [|image images (Hp & Hw & Hin) _ IH]; intros a Hone;
    [reflexivity|].
  cbn [fold_left map]. unfold XmlUtils.addRelationship at 2.
  rewrite replaceAll_single;
    [| discriminate | now apply plainTemplate_app | exact Hone].
  replace (a ++ (p_relationshipXml image ++ String "010" "" ++ "</Relationships>") ++ b)
    with ((a ++ p_relationshipXml image ++ String "010" "") ++ "</Relationships>" ++ b)
    by (rewrite !app_assoc_s; reflexivity).
  rewrite IH by (now apply closing_tag_stays).
  rewrite join_cons, !app_assoc_s. reflexivity.
Qed.

Lemma updateRels_appends_in_order_witness :
  occurrences "</Relationships>" ("<Relationships>" ++ "</Relationships>" ++ "") = 1
  /\ Forall (fun image =>
               plainTemplate (p_relationshipXml image) = true
               /\ startsWith "<" (p_relationshipXml image) = true
               /\ includes "</Relationships>" (p_relationshipXml image) = false)
            [Examples.pngImage 0; Examples.pngImage 1]
  /\ DocxGenerator.updateRels ("<Relationships>" ++ "</Relationships>" ++ "")
       [Examples.pngImage 0; Examples.pngImage 1]
     = "<Relationships>"
       ++ join (map (fun image => p_relationshipXml image ++ String "010" "")
                    [Examples.pngImage 0; Examples.pngImage 1])
       ++ "</Relationships>" ++ "".
Proof.
  assert (H : Forall (fun image =>
                        plainTemplate (p_relationshipXml image) = true
                        /\ startsWith "<" (p_relationshipXml image) = true
                        /\ includes "</Relationships>" (p_relationshipXml image) = false)
                     [Examples.pngImage 0; Examples.pngImage 1])
    by (repeat constructor).
  split; [reflexivity|]. split; [exact H|].
  apply (updateRels_appends_in_order "<Relationships>" ""
           [Examples.pngImage 0; Examples.pngImage 1] eq_refl H).
Defined.

(* ================================================================== *)
(** ** Further properties: the content type of an extension *)
(* ================================================================== *)

Lemma lowerChar_canonicalize (c : ascii) : lowerChar (canonicalize c) = lowerChar c.
Proof. each_char c. Qed.

Lemma sameLetter_lowerChar (a b : ascii) :
  sameLetter a b = true -> lowerChar a = lowerChar b.
Proof.
  unfold sameLetter. intros H. apply Ascii.eqb_eq in H.
  now rewrite <- (lowerChar_canonicalize a), H, lowerChar_canonicalize.
Qed.

Lemma sameUpToCase_toLowerCase (s s' : string) :
  sameUpToCase s s' = true -> toLowerCase s = toLowerCase s'.
Proof.
  revert s'; induction s as [|a s IH]; intros [|b s']; cbn [sameUpToCase];
    try discriminate; [reflexivity|].
  intros H. apply andb_true_iff in H as [H1 H2].
  cbn [toLowerCase]. now rewrite (sameLetter_lowerChar _ _ H1), (IH _ H2).
Qed.

Lemma lowerChar_dot (c : ascii) : ("." =? lowerChar c)%char = ("." =? c)%char.
Proof. each_char c. Qed.

Lemma toLowerCase_dot (s : string) : hasChar "." (toLowerCase s) = hasChar "." s.
Proof.
  induction s as [|c s IH]; [reflexivity|].
  cbn [toLowerCase hasChar]. now rewrite lowerChar_dot, IH.
Qed.

Lemma replaceFirstFrom_absent (x : ascii) (r t : string) :
  forall before,
    hasChar x t = false -> replaceFirstFrom (String x "") r before t = t.
Proof.
  induction t as [|c t IH]; intros before H; [reflexivity|].
  cbn [hasChar] in H. apply orb_false_iff in H as [H1 H2].
  cbn [replaceFirstFrom startsWith]. rewrite H1. cbn [andb]. now rewrite IH.
Qed.

(** X27.  The content type does not depend on the case of the letters of
    the extension nor on a leading dot.  It is one of the five image types,
    [image/png] for an extension that is not in the table, unless the
    extension in lower case is [constructor] or [__proto__]: the table is a
    plain object, and for these two it answers what it inherits, the function
    [Object] and the prototype object, which is returned in place of a
    string. *)
Theorem getImageContentType_ignores_case_and_dot (e e' : string) :
  sameUpToCase e e' = true ->
  hasChar "." e = false ->
  getImageContentType e' = getImageContentType e
  /\ getImageContentType ("." ++ e') = getImageContentType e
  /\ ((exists t,
         getImageContentType e = Text t
         /\ In t ["image/png"; "image/jpeg"; "image/gif"; "image/bmp"; "image/webp"]
         /\ toLowerCase e <> "constructor" /\ toLowerCase e <> "__proto__")
      \/ (toLowerCase e = "constructor"
          /\ getImageContentType e = Builtin "Object")
      \/ (toLowerCase e = "__proto__"
          /\ getImageContentType e = ObjectPrototype)).
Proof.
  intros Hs Hd. apply sameUpToCase_toLowerCase in Hs.
  assert (Hl : replaceFirst "." "" (toLowerCase e) = toLowerCase e).
  { unfold replaceFirst. apply replaceFirstFrom_absent. now rewrite toLowerCase_dot. }
  split; [|split].
  - unfold getImageContentType. now rewrite <- Hs.
  - unfold getImageContentType.
    change (toLowerCase ("." ++ e')) with ("." ++ toLowerCase e').
    now rewrite replaceFirst_head, <- Hs, Hl.
  - unfold getImageContentType, getProperty. cbv zeta. rewrite Hl.
    rewrite (objectPrototype_lower _ (toLowerCase_lower e)).
    remember (toLowerCase e) as k eqn:Ek. clear.
    unfold IMAGE_CONTENT_TYPES. cbn [lookup].
    repeat match goal with
           | |- context [(k =? ?n)] =>
               destruct (String.eqb_spec k n) as [->|?];
               [ first
                   [ right; left; split; reflexivity
                   | right; right; split; reflexivity
                   | left; eexists; split; [reflexivity|];
                     split; [simpl; tauto | split; discriminate] ] |]
           end.
    left. exists "image/png". split; [reflexivity|]. split; [simpl; tauto|].
    split; assumption.
Qed.

Lemma getImageContentType_ignores_case_and_dot_witness :
  sameUpToCase "jpg" "JPG" = true /\ hasChar "." "jpg" = false
  /\ getImageContentType "JPG" = Text "image/jpeg"
  /\ getImageContentType ("." ++ "JPG") = Text "image/jpeg".
Proof.
  split; [reflexivity|]. split; [reflexivity|].
  destruct (getImageContentType_ignores_case_and_dot "jpg" "JPG" eq_refl eq_refl)
    as (H1 & H2 & _).
  split; [rewrite H1 | rewrite H2]; reflexivity.
Defined.

(* ================================================================== *)
(** ** Further properties: the random identifier *)
(* ================================================================== *)

Lemma charAt_in (s : string) (i : nat) :
  i < String.length s ->
  exists c, charAt s i = String c "" /\ hasChar c s = true.
Proof.
  revert i; induction s as [|d s IH]; intros i H; [cbn in H; lia|].
  destruct i as [|i].
  - exists d. split; [reflexivity|]. cbn [hasChar]. now rewrite Ascii.eqb_refl.
  - cbn [String.length] in H. destruct (IH i) as (c & E & Hc); [lia|].
    exists c. split; [exact E|]. cbn [hasChar]. rewrite Hc. apply orb_true_r.
Qed.

Lemma upper_is_no_digit (c : ascii) :
  hasChar c "ABCDEFGHIJKLMNOPQRSTUVWXYZ" = true -> hasChar c "0123456789" = false.
Proof.
  cbn [hasChar]. rewrite !orb_false_r. intros H.
  repeat (apply orb_true_iff in H as [H|H];
          [apply Ascii.eqb_eq in H; subst c; reflexivity|]).
  apply Ascii.eqb_eq in H. subst c. reflexivity.
Qed.

(** X28.  A random identifier is [rId] followed by two capital letters
    and four digits, whatever the generator draws; so it is never [rId]
    followed by a number, the form of the identifiers of a template and of
    the fallback identifiers. *)
Theorem generateImageId_shape (draw : nat -> nat) :
  draw 0 < 26 -> draw 1 < 26 ->
  draw 2 < 10 -> draw 3 < 10 -> draw 4 < 10 -> draw 5 < 10 ->
  (exists l1 l2 d1 d2 d3 d4,
     StringUtils.generateImageId draw
     = "rId" ++ String l1 (String l2 (String d1 (String d2 (String d3 (String d4 "")))))
     /\ hasChar l1 "ABCDEFGHIJKLMNOPQRSTUVWXYZ" = true
     /\ hasChar l2 "ABCDEFGHIJKLMNOPQRSTUVWXYZ" = true
     /\ hasChar d1 "0123456789" = true /\ hasChar d2 "0123456789" = true
     /\ hasChar d3 "0123456789" = true /\ hasChar d4 "0123456789" = true)
  /\ forall n, StringUtils.generateImageId draw <> "rId" ++ ofNat n.
Proof.
  intros H0 H1 H2 H3 H4 H5.
  destruct (charAt_in "ABCDEFGHIJKLMNOPQRSTUVWXYZ" (draw 0) H0) as (l1 & E0 & L1).
  destruct (charAt_in "ABCDEFGHIJKLMNOPQRSTUVWXYZ" (draw 1) H1) as (l2 & E1 & L2).
  destruct (charAt_in "0123456789" (draw 2) H2) as (d1 & E2 & D1).
  destruct (charAt_in "0123456789" (draw 3) H3) as (d2 & E3 & D2).
  destruct (charAt_in "0123456789" (draw 4) H4) as (d3 & E4 & D3).
  destruct (charAt_in "0123456789" (draw 5) H5) as (d4 & E5 & D4).
  assert (E : StringUtils.generateImageId draw
              = "rId" ++ String l1 (String l2 (String d1 (String d2 (String d3 (String d4 "")))))).
  { unfold StringUtils.generateImageId. cbn [StringUtils.appendDrawn].
    rewrite E0, E1, E2, E3, E4, E5. reflexivity. }
  split.
  - exists l1, l2, d1, d2, d3, d4. now repeat split.
  - intros n Hn. rewrite E in Hn. cbn [append] in Hn. injection Hn as Hn.
    pose proof (ofNat_chars l1 n (upper_is_no_digit _ L1)) as Hc.
    rewrite <- Hn in Hc. cbn [hasChar] in Hc. now rewrite Ascii.eqb_refl in Hc.
Qed.

Lemma generateImageId_shape_witness :
  let draw := fun k => match k with 0 => 0 | 1 => 25 | _ => 7 end in
  draw 0 < 26 /\ draw 1 < 26 /\ draw 2 < 10 /\ draw 3 < 10 /\ draw 4 < 10 /\ draw 5 < 10
  /\ StringUtils.generateImageId draw <> "rId" ++ ofNat 101.
Proof.
  cbv zeta. repeat (split; [cbn; lia|]).
  apply (generateImageId_shape (fun k => match k with 0 => 0 | 1 => 25 | _ => 7 end));
    cbn; lia.
Defined.

(* ================================================================== *)
(** ** Further properties: the text left by [stripHtml] *)
(* ================================================================== *)

(** A replacement brings in no character that neither it nor the text
    has. *)
Lemma replaceFrom_lacks (matcher : string -> option nat) (r : string) (x : ascii) :
  plainTemplate r = true -> hasChar x r = false ->
  forall s before skip,
    hasChar x s = false ->
    hasChar x (replaceFrom matcher r before skip s) = false.
Proof.
  intros Hp Hr. induction s as [|c s IH]; intros before skip Hs.
  - destruct skip; cbn [replaceFrom]; [|reflexivity].
    destruct (matcher ""); [|reflexivity].
    unfold substituted. rewrite getSubstitution_plain by exact Hp.
    now rewrite app_empty_r.
  - cbn [hasChar] in Hs. apply orb_false_iff in Hs as [Hc Hs].
    destruct skip as [|k]; cbn [replaceFrom]; [|now apply IH].
    destruct (matcher (String c s)) as [n|].
    + unfold substituted. rewrite getSubstitution_plain by exact Hp.
      rewrite hasChar_app, Hr. cbn [orb].
      destruct n; [cbn [hasChar]; rewrite Hc|]; now apply IH.
    + cbn [hasChar]. rewrite Hc. now apply IH.
Qed.

Lemma noTag_lacking (r R : string) :
  hasChar "<" r = false -> noTag (r ++ R) = noTag R.
Proof.
  induction r as [|c r IH]; [reflexivity|].
  cbn [hasChar append noTag]. intros H. apply orb_false_iff in H as [H1 H2].
  rewrite Ascii.eqb_sym, H1. cbn [andb negb]. now apply IH.
Qed.

Lemma noTag_cons (c : ascii) (s R : string) :
  noTag (String c s) = true ->
  (hasChar ">" s = false -> hasChar ">" R = false) ->
  noTag R = true -> noTag (String c R) = true.
Proof.
  cbn [noTag]. intros H HR HN. apply andb_true_iff in H as [H _].
  rewrite HN, andb_true_r. destruct (c =? "<")%char; [|reflexivity].
  cbn [andb] in *. apply negb_true_iff in H. now rewrite (HR H).
Qed.

Lemma noTag_tail (c : ascii) (s : string) : noTag (String c s) = true -> noTag s = true.
Proof. cbn [noTag]. intros H. now apply andb_true_iff in H as [_ H]. Qed.

(** Replacing pieces of a text without tag by a text without angle bracket
    leaves a text without tag. *)
Lemma replaceFrom_noTag (matcher : string -> option nat) (r : string) :
  plainTemplate r = true -> hasChar "<" r = false -> hasChar ">" r = false ->
  forall s before skip,
    noTag s = true -> noTag (replaceFrom matcher r before skip s) = true.
Proof.
  intros Hp Hlt Hgt. induction s as [|c s IH]; intros before skip Hs.
  - destruct skip; cbn [replaceFrom]; [|reflexivity].
    destruct (matcher ""); [|reflexivity].
    unfold substituted. rewrite getSubstitution_plain by exact Hp.
    now rewrite noTag_lacking.
  - pose proof (noTag_tail _ _ Hs) as Hs'.
    assert (Hcopy : forall b, noTag (String c (replaceFrom matcher r b 0 s)) = true).
    { intros b. apply (noTag_cons c s); [exact Hs | | now apply IH].
      intros H. now apply replaceFrom_lacks. }
    destruct skip as [|k]; cbn [replaceFrom]; [|now apply IH].
    destruct (matcher (String c s)) as [n|]; [|apply Hcopy].
    unfold substituted. rewrite getSubstitution_plain by exact Hp.
    rewrite noTag_lacking by exact Hlt.
    destruct n; [apply Hcopy | now apply IH].
Qed.

Lemma split_at_first (x : ascii) (s : string) :
  hasChar x s = true ->
  exists body tail, s = body ++ String x tail /\ hasChar x body = false.
Proof.
  induction s as [|c s IH]; [discriminate|].
  cbn [hasChar]. destruct (x =? c)%char eqn:E.
  - intros _. apply Ascii.eqb_eq in E. subst c. now exists "", s.
  - intros H. destruct (IH H) as (body & tail & -> & Hb).
    exists (String c body), tail. cbn [hasChar]. now rewrite E, Hb.
Qed.

(** The expression for a tag: it matches at an opening angle bracket that
    has a closing one after it, and nowhere else; its match is not empty. *)
Lemma tagRegExp_match (c : ascii) (s : string) :
  match matchPattern StringUtils.tagRegExp (String c s) with
  | Some n => n <> 0
  | None => (c =? "<")%char = false \/ hasChar ">" s = false
  end.
Proof.
  unfold StringUtils.tagRegExp.
  rewrite matchPattern_one, matchPattern_many, exactly_eqb, (Ascii.eqb_sym "<" c).
  destruct (c =? "<")%char; [|now left].
  destruct (matchStar (anyBut ">") (matchPattern [One (exactly ">")]) s) as [n|] eqn:M;
    cbn [option_map]; [discriminate|].
  right. destruct (hasChar ">" s) eqn:H; [|reflexivity].
  destruct (split_at_first _ _ H) as (body & tail & -> & Hb).
  assert (M' : matchStar (anyBut ">") (matchPattern [One (exactly ">")])
                 (body ++ String ">" tail) = Some (String.length body + 1 + 0)).
  { apply matchStar_until. exists body, tail, 0. now repeat split. }
  congruence.
Qed.

Lemma tagPass_noTag (s : string) :
  forall before skip,
    noTag (replaceFrom (matchPattern StringUtils.tagRegExp) "" before skip s) = true.
Proof.
  induction s as [|c s IH]; intros before skip.
  - destruct skip; reflexivity.
  - destruct skip as [|k]; cbn [replaceFrom]; [|apply IH].
    pose proof (tagRegExp_match c s) as M.
    destruct (matchPattern StringUtils.tagRegExp (String c s)) as [n|].
    + unfold substituted. cbn [getSubstitution append].
      destruct n; [now elim M | apply IH].
    + cbn [noTag]. rewrite IH, andb_true_r. destruct M as [M|M].
      * now rewrite M.
      * rewrite (replaceFrom_lacks _ "" ">" eq_refl eq_refl _ _ _ M).
        now rewrite andb_false_r.
Qed.

(** A starred class with nothing after it takes the whole run. *)
Lemma matchStar_run (cls : ascii -> bool) (s : string) :
  exists n,
    matchStar cls (matchPattern []) s = Some n
    /\ match drop n s with "" => true | String d _ => negb (cls d) end = true.
Proof.
  induction s as [|c s (n & E & H)]; [now exists 0|].
  cbn [matchStar]. destruct (cls c) eqn:Ec.
  - rewrite E. now exists (S n).
  - exists 0. cbn [matchPattern drop]. now rewrite Ec.
Qed.

Lemma spacesRegExp_match (c : ascii) (s : string) :
  match matchPattern StringUtils.spacesRegExp (String c s) with
  | Some n => exists k, n = S k /\ isSpace c = true
                        /\ startsWithSpace (drop k s) = false
  | None => isSpace c = false
  end.
Proof.
  unfold StringUtils.spacesRegExp. rewrite matchPattern_one, matchPattern_many.
  destruct (isSpace c); [|reflexivity].
  destruct (matchStar_run isSpace s) as (n & -> & H). cbn [option_map].
  exists n. repeat split. unfold startsWithSpace.
  destruct (drop n s); [reflexivity | now apply negb_true_iff].
Qed.

(** After the pass that turns runs of white space into one blank, white
    space is single blanks. *)
Lemma spacesPass_singleSpaced (s : string) :
  forall before skip,
    singleSpaced (replaceFrom (matchPattern StringUtils.spacesRegExp) " " before skip s)
    = true
    /\ (startsWithSpace
          (replaceFrom (matchPattern StringUtils.spacesRegExp) " " before skip s) = true ->
        startsWithSpace (drop skip s) = true).
Proof.
  induction s as [|c s IH]; intros before skip.
  - destruct skip; cbn [replaceFrom matchPattern]; now split.
  - destruct skip as [|k]; cbn [replaceFrom drop]; [|apply IH].
    pose proof (spacesRegExp_match c s) as M.
    destruct (matchPattern StringUtils.spacesRegExp (String c s)) as [n|].
    + destruct M as (k & -> & Hc & Hk).
      unfold substituted. cbn [getSubstitution Ascii.eqb Bool.eqb append].
      destruct (IH (before ++ String c "") k) as [H1 H2].
      cbn [singleSpaced startsWithSpace]. rewrite H1. split; [|now intros _].
      change (isSpace " ") with true. cbv iota. rewrite Ascii.eqb_refl.
      destruct (startsWithSpace (replaceFrom _ _ _ k s)); [|reflexivity].
      rewrite H2 in Hk by reflexivity. discriminate.
    + destruct (IH (before ++ String c "") 0) as [H1 _].
      cbn [singleSpaced startsWithSpace]. rewrite M, H1. split; [reflexivity|].
      discriminate.
Qed.

Lemma trimStart_shape (s : string) :
  startsWithSpace (trimStart s) = false
  /\ (noTag s = true -> noTag (trimStart s) = true)
  /\ (singleSpaced s = true -> singleSpaced (trimStart s) = true).
Proof.
  induction s as [|c s (H1 & H2 & H3)]; [now repeat split|].
  cbn [trimStart]. destruct (isSpace c) eqn:E.
  - repeat split; [exact H1 | |].
    + intros H. apply H2. now apply noTag_tail in H.
    + cbn [singleSpaced]. intros H. apply andb_true_iff in H as [_ H]. now apply H3.
  - repeat split; (exact E || easy).
Qed.

Lemma trimEnd_lacks (x : ascii) (s : string) :
  hasChar x s = false -> hasChar x (trimEnd s) = false.
Proof.
  induction s as [|c s IH]; [reflexivity|].
  cbn [hasChar trimEnd]. intros H. apply orb_false_iff in H as [H1 H2].
  destruct ((trimEnd s =? "") && isSpace c); [reflexivity|].
  cbn [hasChar]. now rewrite H1, IH.
Qed.

Lemma trimEnd_head (s : string) :
  startsWithSpace (trimEnd s) = true -> startsWithSpace s = true.
Proof.
  destruct s as [|c s]; [discriminate|].
  cbn [trimEnd]. destruct ((trimEnd s =? "") && isSpace c); [discriminate|].
  now cbn [startsWithSpace].
Qed.

Lemma trimEnd_shape (s : string) :
  trimEnd (trimEnd s) = trimEnd s
  /\ (noTag s = true -> noTag (trimEnd s) = true)
  /\ (singleSpaced s = true -> singleSpaced (trimEnd s) = true).
Proof.
  induction s as [|c s (H1 & H2 & H3)]; [now repeat split|].
  cbn [trimEnd]. destruct ((trimEnd s =? "") && isSpace c) eqn:E;
    [now repeat split|].
  repeat split.
  - cbn [trimEnd]. now rewrite H1, E.
  - intros H. apply (noTag_cons c s); [exact H | apply trimEnd_lacks |].
    apply H2. now apply noTag_tail in H.
  - cbn [singleSpaced]. intros H. apply andb_true_iff in H as [Hc H].
    rewrite (H3 H), andb_true_r.
    destruct (isSpace c); [|reflexivity].
    apply andb_true_iff in Hc as [Hb Hn]. rewrite Hb. cbn [andb].
    destruct (startsWithSpace (trimEnd s)) eqn:T; [|reflexivity].
    apply trimEnd_head in T. now rewrite T in Hn.
Qed.

Lemma trimStart_fixed (s : string) : startsWithSpace s = false -> trimStart s = s.
Proof. destruct s as [|c s]; [reflexivity|]. cbn. now intros ->. Qed.

(** X29.  The text [stripHtml] returns holds no tag: no opening angle
    bracket in it has a closing one after it.  Its white space is
    normalised: every white-space character is a blank, no two of them are
    adjacent, and there is none at either end. *)
Theorem stripHtml_normal_form (html : string) :
  noTag (StringUtils.stripHtml html) = true
  /\ singleSpaced (StringUtils.stripHtml html) = true
  /\ trim (StringUtils.stripHtml html) = StringUtils.stripHtml html.
Proof.
  unfold StringUtils.stripHtml. destruct (html =? ""); [now repeat split|].
  unfold replaceGlobal.
  set (t1 := replaceFrom (matchPattern StringUtils.tagRegExp) "" "" 0 html).
  set (t2 := replaceFrom (matchPattern (text "&nbsp;")) " " "" 0 t1).
  set (t3 := replaceFrom (matchPattern StringUtils.spacesRegExp) " " "" 0 t2).
  assert (N3 : noTag t3 = true).
  { apply replaceFrom_noTag; try reflexivity.
    apply replaceFrom_noTag; try reflexivity. apply tagPass_noTag. }
  assert (S3 : singleSpaced t3 = true) by apply spacesPass_singleSpaced.
  clearbody t3. clear t1 t2. unfold trim.
  destruct (trimStart_shape t3) as (A1 & A2 & A3).
  destruct (trimEnd_shape (trimStart t3)) as (B1 & B2 & B3).
  repeat split; [now apply B2, A2 | now apply B3, A3 |].
  rewrite trimStart_fixed; [exact B1|].
  destruct (startsWithSpace (trimEnd (trimStart t3))) eqn:T; [|reflexivity].
  apply trimEnd_head in T. congruence.
Qed.

(* ================================================================== *)
(** ** Further properties: a token in plain text, end to end *)
(* ================================================================== *)

Lemma startsWith_chars (z : ascii) (p s : string) :
  startsWith p s = true -> hasChar z p = true -> hasChar z s = true.
Proof.
  revert s; induction p as [|a p IH]; intros [|c s]; cbn [startsWith hasChar];
    try discriminate.
  intros H. apply andb_true_iff in H as [H1 H2]. apply Ascii.eqb_eq in H1. subst c.
  intros Hz. apply orb_true_iff in Hz as [Hz|Hz]; [now rewrite Hz|].
  rewrite (IH _ H2 Hz). apply orb_true_r.
Qed.

(** A text that ends with [z] starts no text that runs into a tail
    without [z]. *)
Lemma startsWith_tail_free (z : ascii) (p0 u b : string) :
  hasChar z b = false ->
  startsWith (p0 ++ String z "") (u ++ b) = startsWith (p0 ++ String z "") u.
Proof.
  intros Hb. revert u; induction p0 as [|a p0 IH]; intros u.
  - destruct u as [|c u]; [|reflexivity].
    cbn [append]. destruct (startsWith (String z "") b) eqn:E; [|reflexivity].
    apply (startsWith_chars z) in E; [congruence|].
    cbn [hasChar]. now rewrite Ascii.eqb_refl.
  - destruct u as [|c u].
    + cbn [append]. destruct (startsWith (String a (p0 ++ String z "")) b) eqn:E;
        [|reflexivity].
      apply (startsWith_chars z) in E; [congruence|].
      cbn [hasChar]. rewrite hasChar_app. cbn [hasChar].
      rewrite Ascii.eqb_refl. now rewrite !orb_true_r.
    + cbn [append startsWith]. now rewrite IH.
Qed.

Lemma startsWith_length (p s : string) :
  startsWith p s = true -> String.length p <= String.length s.
Proof.
  intros H. destruct (Nat.le_gt_cases (String.length p) (String.length s)) as [L|L];
    [exact L|]. now rewrite startsWith_short in H.
Qed.

(** The scan for a text that ends with [z] stops where a tail without [z]
    and without the first character of the text begins. *)
Lemma replaceFrom_tail (a z : ascii) (p0 r b : string) :
  plainTemplate r = true ->
  hasChar z b = false -> hasChar a b = false ->
  forall x before skip,
    skip <= String.length x ->
    replaceFrom (literal (String a (p0 ++ String z ""))) r before skip (x ++ b)
    = replaceFrom (literal (String a (p0 ++ String z ""))) r before skip x ++ b.
Proof.
  intros Hr Hz Ha. set (p := String a (p0 ++ String z "")).
  assert (Hm : forall u, literal p (u ++ b) = literal p u).
  { intros u. unfold literal, p.
    change (String a (p0 ++ String z "")) with (String a p0 ++ String z "").
    now rewrite startsWith_tail_free. }
  induction x as [|c x IH]; intros before skip Hskip.
  - cbn [String.length] in Hskip. replace skip with 0 by lia.
    cbn [append]. rewrite replaceFrom_nowhere.
    + reflexivity.
    + rewrite matchesNowhere_literal. unfold p.
      now rewrite includes_lacking.
  - cbn [String.length] in Hskip.
    destruct skip as [|k]; cbn [append replaceFrom]; [|apply IH; lia].
    change (String c (x ++ b)) with (String c x ++ b). rewrite Hm.
    destruct (literal p (String c x)) as [n|] eqn:E.
    + assert (Hn : n <= S (String.length x)).
      { unfold literal in E. destruct (startsWith p (String c x)) eqn:F;
          [|discriminate].
        injection E as <-. now apply startsWith_length in F. }
      unfold substituted. rewrite !getSubstitution_plain by exact Hr.
      rewrite app_assoc_s. f_equal.
      destruct n as [|k]; [cbn [append]; f_equal|]; apply IH; lia.
    + cbn [append]. f_equal. apply IH. lia.
Qed.

(** With a plain replacement the text already passed does not matter. *)
Lemma replaceFrom_before (matcher : string -> option nat) (r x : string) :
  plainTemplate r = true ->
  forall skip before before',
    replaceFrom matcher r before skip x = replaceFrom matcher r before' skip x.
Proof.
  intros Hr. induction x as [|c x IH]; intros skip before before'.
  - destruct skip; cbn [replaceFrom]; [|reflexivity].
    destruct (matcher ""); [|reflexivity].
    unfold substituted. now rewrite !getSubstitution_plain by exact Hr.
  - destruct skip as [|k]; cbn [replaceFrom]; [|apply IH].
    destruct (matcher (String c x)) as [n|].
    + unfold substituted. rewrite !getSubstitution_plain by exact Hr.
      f_equal. destruct n; [f_equal|]; apply IH.
    + f_equal. apply IH.
Qed.

Lemma replaceAll_in_context (p p0 r a x b : string) :
  p = String "&" (p0 ++ ";") ->
  plainTemplate r = true ->
  hasChar "&" a = false -> hasChar "&" b = false -> hasChar ";" b = false ->
  StringUtils.replaceAll (a ++ x ++ b) p r
  = a ++ StringUtils.replaceAll x p r ++ b.
Proof.
  intros -> Hr Ha Hb Hs. unfold StringUtils.replaceAll, replaceGlobal.
  rewrite inert_copied by (now apply inert_lacking). f_equal.
  rewrite (replaceFrom_tail "&" ";" p0 r b Hr Hs Hb x _ 0) by lia.
  f_equal. now apply replaceFrom_before.
Qed.

Lemma fixDoubleEscaping_in_context (a x b : string) :
  hasChar "&" a = false -> hasChar "&" b = false -> hasChar ";" b = false ->
  StringUtils.fixDoubleEscaping (a ++ x ++ b)
  = a ++ StringUtils.fixDoubleEscaping x ++ b.
Proof.
  intros Ha Hb Hs. unfold StringUtils.fixDoubleEscaping.
  rewrite (replaceAll_in_context "&amp;amp;" "amp;amp" "&amp;" a x b
             eq_refl eq_refl Ha Hb Hs).
  rewrite (replaceAll_in_context "&amp;lt;" "amp;lt" "&lt;" a _ b
             eq_refl eq_refl Ha Hb Hs).
  rewrite (replaceAll_in_context "&amp;gt;" "amp;gt" "&gt;" a _ b
             eq_refl eq_refl Ha Hb Hs).
  rewrite (replaceAll_in_context "&amp;quot;" "amp;quot" "&quot;" a _ b
             eq_refl eq_refl Ha Hb Hs).
  now rewrite (replaceAll_in_context "&amp;apos;" "amp;apos" "&apos;" a _ b
                 eq_refl eq_refl Ha Hb Hs).
Qed.

Lemma startsWith_lacking (a : ascii) (p s : string) :
  hasChar a s = false -> startsWith (String a p) s = false.
Proof.
  destruct s as [|c s]; [reflexivity|]. cbn [hasChar startsWith].
  intros H. apply orb_false_iff in H as [H _]. now rewrite H.
Qed.

(** A token whose name has no brace occurs once in a text that has no
    other opening brace. *)
Lemma token_once (a k b : string) :
  hasChar "{" a = false -> hasChar "{" k = false -> hasChar "{" b = false ->
  occurrences ("{{" ++ k ++ "}}") (a ++ ("{{" ++ k ++ "}}") ++ b) = 1.
Proof.
  intros Ha Hk Hb.
  assert (Hrest : hasChar "{" ((k ++ "}}") ++ b) = false)
    by (rewrite !hasChar_app, Hk, Hb; reflexivity).
  set (rest := (k ++ "}}") ++ b) in *.
  change ("{{" ++ k ++ "}}") with (String "{" (String "{" (k ++ "}}"))).
  rewrite occurrences_skip by exact Ha.
  set (p := String "{" (String "{" (k ++ "}}"))).
  assert (E1 : startsWith p (p ++ b) = true) by apply startsWith_refl_app.
  assert (E2 : startsWith p (String "{" rest) = false).
  { unfold p. cbn [startsWith]. rewrite Ascii.eqb_refl. cbn [andb].
    now apply startsWith_lacking. }
  assert (E3 : occurrences p rest = 0) by (now apply occurrences_absent).
  change (p ++ b) with (String "{" (String "{" rest)) in *.
  change (occurrences p (String "{" (String "{" rest)))
    with ((if startsWith p (String "{" (String "{" rest)) then 1 else 0)
          + ((if startsWith p (String "{" rest) then 1 else 0)
             + occurrences p rest)).
  now rewrite E1, E2, E3.
Qed.

(** X30.  End to end, for a token in plain text: with the token once in
    a text that has no markup, no other brace and no entity, substituting
    the value and running the repair pass puts the value in place of the
    token, unescaped and then escaped, and leaves the text around it as it
    is. *)
Theorem processPlaceholders_token_in_text (a b k v : string) :
  StringUtils.plainName k = true -> plainValue v = true ->
  hasChar "<" a = false -> hasChar "{" a = false -> hasChar "&" a = false ->
  hasChar "<" b = false -> hasChar "{" b = false -> hasChar "&" b = false ->
  hasChar ";" b = false ->
  DocxGenerator.processPlaceholders (a ++ "{{" ++ k ++ "}}" ++ b) [(k, v)]
  = Some (a ++ StringUtils.escapeForXml (StringUtils.unescapeXml v) ++ b).
Proof.
  intros Hk Hv Ha1 Ha2 Ha3 Hb1 Hb2 Hb3 Hb4.
  pose proof (plainValue_escaped v Hv) as Hplain.
  assert (Hsv : hasChar "<" (StringUtils.escapeForXml v) = false)
    by (rewrite escapeForXml_expand; now apply escaped_has_no).
  unfold DocxGenerator.processPlaceholders. cbn [fold_left fst snd].
  unfold StringUtils.replacePlaceholder.
  replace (a ++ "{{" ++ k ++ "}}" ++ b) with (a ++ ("{{" ++ k ++ "}}") ++ b)
    by (rewrite !app_assoc_s; reflexivity).
  rewrite replaceAll_single;
    [| discriminate | exact Hplain
     | apply token_once; try assumption; now apply (plainName_lacks "{")].
  assert (Hlt : hasChar "<" (a ++ StringUtils.escapeForXml v ++ b) = false)
    by (rewrite !hasChar_app, Ha1, Hsv, Hb1; reflexivity).
  rewrite (replaceAll_absent _ ("<w:t>" ++ k ++ "</w:t>") _
             (includes_lacking "<" _ _ Hlt)).
  unfold StringUtils.splitRunPass. rewrite (splitRunRegExp_plain _ Hk).
  cbn [option_map]. f_equal. unfold replaceGlobal.
  rewrite replaceFrom_nowhere.
  - rewrite fixDoubleEscaping_in_context by assumption.
    now rewrite !escapeForXml_expand, repair_of_escaped.
  - rewrite <- (app_empty_r (a ++ StringUtils.escapeForXml v ++ b)).
    rewrite (matchesNowhere_skip _ "<" _)
      by (assumption || intros; now apply regexp_needs_bracket).
    reflexivity.
Qed.

Lemma processPlaceholders_token_in_text_witness :
  StringUtils.plainName "name" = true /\ plainValue "R&amp;D <1>" = true
  /\ hasChar "<" "Dear " = false /\ hasChar "{" "Dear " = false
  /\ hasChar "&" "Dear " = false
  /\ hasChar "<" ", hello" = false /\ hasChar "{" ", hello" = false
  /\ hasChar "&" ", hello" = false /\ hasChar ";" ", hello" = false
  /\ DocxGenerator.processPlaceholders ("Dear " ++ "{{" ++ "name" ++ "}}" ++ ", hello")
       [("name", "R&amp;D <1>")]
     = Some ("Dear " ++ StringUtils.escapeForXml (StringUtils.unescapeXml "R&amp;D <1>")
             ++ ", hello").
Proof.
  do 9 (split; [reflexivity|]).
  apply (processPlaceholders_token_in_text "Dear " ", hello" "name" "R&amp;D <1>");
    reflexivity.
Defined.
